(** * generate_final.py: the static-port project generator

    A shallow embedding of [src/generate_final.py] and of the parts of the
    Python standard library it calls ([str.strip], [textwrap.dedent],
    [os.path], [os.makedirs], [open], [shutil.rmtree], [print],
    [sys.exit]), followed by the properties of the generator.

    Layout:
    - [PyStr]: Python [str] values as lists of code points;
    - [Textwrap]: [textwrap.dedent];
    - [PosixPath]: the pure part of [posixpath];
    - [FS]: a tree model of the file system with ownership;
    - [Os]: the system calls and library routines over worlds;
    - the program itself, with the names of the source;
    - the theorems. *)

From Stdlib Require Import Ascii String.
From Stdlib Require Import List NArith Bool Arith Lia.
Import ListNotations.

(* ================================================================== *)
(** ** Python strings *)

Module PyStr.

(** A Python [str] is a sequence of Unicode code points. *)
Definition str := list N.

Definition eqb (a b : str) : bool :=
  if list_eq_dec N.eq_dec a b then true else false.

(** *** Literals

    Rocq string literals are byte strings; the source file is UTF-8, so a
    literal is read through a UTF-8 decoder.  The backquote does not occur
    in [generate_final.py]; inside [lit] it stands for the double quote
    (code point 34). *)

Fixpoint bytes_of (s : string) : list N :=
  match s with
  | EmptyString => []
  | String a r => N_of_ascii a :: bytes_of r
  end.

Fixpoint utf8_decode (bs : list N) : str :=
  match bs with
  | [] => []
  | b :: r =>
      if b <? 128 then b :: utf8_decode r
      else if b <? 224 then
        match r with
        | b1 :: r1 => ((b - 192) * 64 + (b1 - 128)) :: utf8_decode r1
        | _ => []
        end
      else if b <? 240 then
        match r with
        | b1 :: b2 :: r2 =>
            ((b - 224) * 4096 + (b1 - 128) * 64 + (b2 - 128)) :: utf8_decode r2
        | _ => []
        end
      else
        match r with
        | b1 :: b2 :: b3 :: r3 =>
            ((b - 240) * 262144 + (b1 - 128) * 4096 + (b2 - 128) * 64 + (b3 - 128))
              :: utf8_decode r3
        | _ => []
        end
  end%N.

Definition unquote (c : N) : N := if (c =? 96)%N then 34%N else c.

Definition lit (s : string) : str := map unquote (utf8_decode (bytes_of s)).

Definition nl : str := [10%N].

(** *** [str.isspace] on one code point, [str.strip]

    The white-space code points of CPython's [_PyUnicode_IsWhitespace]. *)

Definition isspace (c : N) : bool :=
  ((9 <=? c) && (c <=? 13) || (28 <=? c) && (c <=? 32)
   || (c =? 133) || (c =? 160) || (c =? 5760)
   || (8192 <=? c) && (c <=? 8202)
   || (c =? 8232) || (c =? 8233) || (c =? 8239) || (c =? 8287)
   || (c =? 12288))%N.

Fixpoint dropwhile (f : N -> bool) (s : str) : str :=
  match s with
  | [] => []
  | c :: r => if f c then dropwhile f r else s
  end.

Fixpoint takewhile (f : N -> bool) (s : str) : str :=
  match s with
  | [] => []
  | c :: r => if f c then c :: takewhile f r else []
  end.

Definition lstrip (s : str) : str := dropwhile isspace s.
Definition rstrip (s : str) : str := rev (dropwhile isspace (rev s)).

(** [s.strip()]: drop the leading and the trailing white space. *)
Definition strip (s : str) : str := rstrip (lstrip s).

(** [s.startswith(p)] and the removal of a known prefix. *)
Fixpoint startswith (s p : str) : bool :=
  match p, s with
  | [], _ => true
  | a :: p', b :: s' => (a =? b)%N && startswith s' p'
  | _ :: _, [] => false
  end.

(** [needle in s]. *)
Fixpoint contains (s needle : str) : bool :=
  startswith s needle ||
  match s with
  | [] => false
  | _ :: r => contains r needle
  end.

(** [s.split(sep)] for a one-character separator. *)
Fixpoint split_on (sep : N) (s : str) : list str :=
  match s with
  | [] => [[]]
  | c :: r =>
      match split_on sep r with
      | [] => [[c]]                       (* never: the result is not empty *)
      | w :: ws => if (c =? sep)%N then [] :: w :: ws else (c :: w) :: ws
      end
  end.

(** [sep.join(ws)] for a one-character separator. *)
Fixpoint join_with (sep : N) (ws : list str) : str :=
  match ws with
  | [] => []
  | [w] => w
  | w :: ws' => w ++ sep :: join_with sep ws'
  end.

End PyStr.

Import PyStr.

(* ================================================================== *)
(** ** [textwrap.dedent] *)

Module Textwrap.

Definition blank (c : N) : bool := ((c =? 32) || (c =? 9))%N.

(** [_whitespace_only_re.sub('', text)]: a line made of spaces and tabs
    only becomes the empty line. *)
Definition normalize_line (l : str) : str :=
  if forallb blank l then [] else l.

(** [_leading_whitespace_re.findall(text)]: the indentation of every line
    that holds a character other than space and tab. *)
Definition indent_of (l : str) : option str :=
  match dropwhile blank l with
  | [] => None
  | _ :: _ => Some (takewhile blank l)
  end.

Fixpoint common_prefix (a b : str) : str :=
  match a, b with
  | x :: a', y :: b' => if (x =? y)%N then x :: common_prefix a' b' else []
  | _, _ => []
  end.

(** One turn of the loop over [indents]. *)
Definition margin_step (margin : option str) (l : str) : option str :=
  match indent_of l with
  | None => margin
  | Some indent =>
      match margin with
      | None => Some indent
      | Some m =>
          if startswith indent m then Some m
          else if startswith m indent then Some indent
          else Some (common_prefix m indent)
      end
  end.

Definition margin_of (ls : list str) : option str :=
  fold_left margin_step ls None.

(** [re.sub(r'(?m)^' + margin, '', text)] on one line. *)
Definition remove_margin (m : str) (l : str) : str :=
  if startswith l m then skipn (length m) l else l.

Definition dedent (text : str) : str :=
  let ls := map normalize_line (split_on 10 text) in
  match margin_of ls with
  | Some (c :: m) => join_with 10 (map (remove_margin (c :: m)) ls)
  | _ => join_with 10 ls
  end.

End Textwrap.

(* ================================================================== *)
(** ** [posixpath]: the pure functions *)

Module PosixPath.

Definition sep : N := 47%N.
Definition is_sep (c : N) : bool := (c =? sep)%N.

(** [(p[:i], p[i:])] for [i = p.rfind('/') + 1]. *)
Fixpoint cut (p : str) : str * str :=
  match p with
  | [] => ([], [])
  | c :: r =>
      let (h, t) := cut r in
      match h with
      | [] => if is_sep c then ([c], t) else ([], c :: t)
      | _ :: _ => (c :: h, t)
      end
  end.

(** [head.rstrip('/')] *)
Definition rstrip_sep (h : str) : str := rev (dropwhile is_sep (rev h)).

(** [if head and head != '/'*len(head): head = head.rstrip('/')] *)
Definition trim_head (h : str) : str :=
  match h with
  | [] => []
  | _ :: _ => if forallb is_sep h then h else rstrip_sep h
  end.

(** [posixpath.split(p)] *)
Definition split (p : str) : str * str :=
  let (h, t) := cut p in (trim_head h, t).

(** [posixpath.dirname(p)] *)
Definition dirname (p : str) : str := trim_head (fst (cut p)).

End PosixPath.

(* ================================================================== *)
(** ** The templates of the two variants

    The string constants of the source, as written there (the templates
    given to [textwrap.dedent] in the source are given to it here). *)

(** The locals of [setup_spring_project] that hold text. *)
Module Spring.

Definition base : str := lit "my-spring-app".

Definition pom : str := lit "
<project xmlns=`http://maven.apache.org/POM/4.0.0` xmlns:xsi=`http://www.w3.org/2001/XMLSchema-instance`
  xsi:schemaLocation=`http://maven.apache.org/POM/4.0.0 http://maven.apache.org/xsd/maven-4.0.0.xsd`>
  <modelVersion>4.0.0</modelVersion>
  <groupId>com.company</groupId>
  <artifactId>my-spring-app</artifactId>
  <version>1.0</version>
  <parent>
    <groupId>org.springframework.boot</groupId>
    <artifactId>spring-boot-starter-parent</artifactId>
    <version>2.7.0</version>
  </parent>
  <properties><java.version>17</java.version></properties>
  <dependencies>
    <dependency><groupId>org.springframework.boot</groupId><artifactId>spring-boot-starter-web</artifactId></dependency>
  </dependencies>
  <build><plugins><plugin><groupId>org.springframework.boot</groupId><artifactId>spring-boot-maven-plugin</artifactId></plugin></plugins></build>
</project>
".

Definition props : str := lit "server.port=8080".

Definition java : str := lit "
package com.company;
import org.springframework.boot.SpringApplication;
import org.springframework.boot.autoconfigure.SpringBootApplication;
import org.springframework.web.bind.annotation.GetMapping;
import org.springframework.web.bind.annotation.RestController;

@SpringBootApplication
@RestController
public class Application {
    public static void main(String[] args) {
        SpringApplication.run(Application.class, args);
    }
    @GetMapping(`/`)
    public String home() {
        return `<h1>Spring Boot is Live!</h1><p>Running on STATIC Port 8080</p>`;
    }
}
".

Definition bash : str := Textwrap.dedent (lit "
        #!/bin/bash
        # Port is NO LONGER a variable here. It is read from the JAR file.
        LOG_FILE=`server.log`

        if ! command -v mvn &> /dev/null; then echo `Maven missing`; exit 1; fi

        # Kill any process on 8080
        PID=$(lsof -t -i:8080)
        if [ -n `$PID` ]; then kill -9 $PID; sleep 2; fi

        echo `Building Project...`
        mvn clean package -DskipTests
        if [ $? -ne 0 ]; then echo `Build Failed`; exit 1; fi

        JAR_FILE=$(find target -name `*.jar` -not -name `*.original` | head -n 1)
        
        echo `Starting Server (Port defined in application.properties)...`
        # Notice: We removed the --server.port argument. 
        # It is now locked inside the JAR.
        nohup java -jar `$JAR_FILE` > $LOG_FILE 2>&1 &

        echo `Waiting for start...`
        sleep 5
        if lsof -t -i:8080 > /dev/null; then
            echo `SUCCESS! Online at http://localhost:8080`
        else
            echo `FAILED. Check logs.`
        fi
    ").

Definition service : str := Textwrap.dedent (lit "
        #!/bin/bash
        SERVICE_NAME=`my-spring-app`
        WORK_DIR=$(pwd)
        
        # --- AUTO-BUILD LOGIC ---
        # If target folder is missing OR jar is missing, build it.
        if [ ! -d `target` ] || [ -z `$(find target -name `*.jar` -not -name `*.original` 2>/dev/null)` ]; then
            echo `⚠️  Artifact not found. Building Project first...`
            
            if ! command -v mvn &> /dev/null; then
                echo `❌ Maven not found. Install Maven first.`
                exit 1
            fi

            mvn clean package -DskipTests
            
            if [ $? -ne 0 ]; then
                echo `❌ Build Failed.`
                exit 1
            fi
        fi
        
        JAR_FILE=$(find `$WORK_DIR/target` -name `*.jar` -not -name `*.original` | head -n 1)
        
        if [ -z `$JAR_FILE` ]; then echo `❌ Critical Error: JAR file still not found after build.`; exit 1; fi

        echo `Creating Service for $SERVICE_NAME...`

        # We do NOT pass the port here. It relies on the internal JAR config.
        sudo tee /etc/systemd/system/$SERVICE_NAME.service > /dev/null <<EOF
[Unit]
Description=Spring Boot Static Port
After=network.target

[Service]
User=$USER
WorkingDirectory=$WORK_DIR
ExecStart=/usr/bin/java -jar $JAR_FILE
SuccessExitStatus=143
Restart=always
RestartSec=10

[Install]
WantedBy=multi-user.target
EOF

        sudo systemctl daemon-reload
        sudo systemctl enable $SERVICE_NAME
        sudo systemctl start $SERVICE_NAME
        echo `✅ Service Installed. Port 8080 is locked.`
    ").

End Spring.

(** The locals of [setup_servlet_project] that hold text. *)
Module Servlet.

Definition base : str := lit "my-servlet-app".

Definition pom : str := lit "
<project xmlns=`http://maven.apache.org/POM/4.0.0` xmlns:xsi=`http://www.w3.org/2001/XMLSchema-instance`
  xsi:schemaLocation=`http://maven.apache.org/POM/4.0.0 http://maven.apache.org/maven-v4_0_0.xsd`>
  <modelVersion>4.0.0</modelVersion>
  <groupId>com.company</groupId>
  <artifactId>my-servlet-app</artifactId>
  <packaging>war</packaging>
  <version>1.0</version>
  <dependencies>
    <dependency><groupId>javax.servlet</groupId><artifactId>javax.servlet-api</artifactId><version>3.1.0</version><scope>provided</scope></dependency>
  </dependencies>
  <build><plugins><plugin>
    <groupId>org.apache.tomcat.maven</groupId><artifactId>tomcat7-maven-plugin</artifactId><version>2.2</version>
    <!-- PORT IS HARDCODED HERE. Changing script variable won't help. -->
    <configuration><port>8081</port><path>/</path></configuration>
  </plugin></plugins></build>
</project>
".

Definition java : str := lit "
package com.company;
import javax.servlet.*;
import javax.servlet.annotation.WebServlet;
import javax.servlet.http.*;
import java.io.IOException;
@WebServlet(`/hello`)
public class HelloServlet extends HttpServlet {
    protected void doGet(HttpServletRequest req, HttpServletResponse resp) throws IOException {
        resp.getWriter().println(`<h1>Servlet is Live!</h1><p>Port is fixed to 8081</p>`);
    }
}
".

Definition bash : str := Textwrap.dedent (lit "
        #!/bin/bash
        LOG_FILE=`servlet.log`
        
        # Kill 8081 if running
        PID=$(lsof -t -i:8081)
        if [ -n `$PID` ]; then kill -9 $PID; sleep 2; fi

        echo `Starting Tomcat...`
        # Notice: No -Dmaven.tomcat.port variable. It uses pom.xml setting.
        nohup mvn tomcat7:run > $LOG_FILE 2>&1 &

        echo `Waiting for Tomcat...`
        sleep 5
        if lsof -t -i:8081 > /dev/null; then
            echo `SUCCESS! http://localhost:8081/hello`
        else
            echo `FAILED. Check logs.`
        fi
    ").

Definition service : str := Textwrap.dedent (lit "
        #!/bin/bash
        SERVICE_NAME=`my-servlet-app`
        WORK_DIR=$(pwd)
        MVN_PATH=$(command -v mvn)

        echo `Creating Service for $SERVICE_NAME...`
        
        sudo tee /etc/systemd/system/$SERVICE_NAME.service > /dev/null <<EOF
[Unit]
Description=Servlet Static Port
After=network.target

[Service]
User=$USER
WorkingDirectory=$WORK_DIR
# NO PORT ARGUMENT HERE. It is locked in pom.xml
ExecStart=$MVN_PATH tomcat7:run
SuccessExitStatus=143
Restart=always
RestartSec=10

[Install]
WantedBy=multi-user.target
EOF

        sudo systemctl daemon-reload
        sudo systemctl enable $SERVICE_NAME
        sudo systemctl start $SERVICE_NAME
        echo `✅ Service Installed. Port 8081 is locked.`
    ").

(** The literal given to [create_file] for the deployment descriptor. *)
Definition web_xml : str :=
  lit "<web-app version=`3.0` xmlns=`http://java.sun.com/xml/ns/javaee`></web-app>".

End Servlet.

(* ================================================================== *)
(** ** The file system

    The tree the process sees from its working directory, which is the
    root of the tree (so a relative and an absolute path name the same
    node).  Every node has an owner: the identity the generator runs as,
    or another principal (a previous privileged run).  A directory of
    another principal cannot be modified by the generator: no entry can be
    added to it or removed from it.  A [busy] directory (a mount point)
    cannot be removed by anyone.  Symbolic links are not modelled. *)

Module FS.

Inductive principal := Self | Other.

Definition writable (o : principal) : bool :=
  match o with Self => true | Other => false end.

#[warnings="-register-all"]
Inductive node :=
| File (owner : principal) (content : str)
| Dir (owner : principal) (busy : bool) (entries : list (str * node)).

Definition entries_t := list (str * node).

(** A location: the names from the root down to a node. *)
Definition loc := list str.

Fixpoint lookup_entry (c : str) (es : entries_t) : option node :=
  match es with
  | [] => None
  | (k, n) :: r => if eqb k c then Some n else lookup_entry c r
  end.

Definition remove_entry (c : str) (es : entries_t) : entries_t :=
  filter (fun e => negb (eqb (fst e) c)) es.

Definition add_entry (c : str) (n : node) (es : entries_t) : entries_t :=
  (c, n) :: es.

(** [g] applied to the entry named [c] (the one [lookup_entry] finds). *)
Fixpoint alter_entry (c : str) (g : node -> node) (es : entries_t) : entries_t :=
  match es with
  | [] => []
  | (k, n) :: r => if eqb k c then (k, g n) :: r else (k, n) :: alter_entry c g r
  end.

Fixpoint lookup (n : node) (l : loc) : option node :=
  match l with
  | [] => Some n
  | c :: l' =>
      match n with
      | File _ _ => None
      | Dir _ _ es =>
          match lookup_entry c es with
          | Some n' => lookup n' l'
          | None => None
          end
      end
  end.

(** [update g l n]: the tree [n] with [g] applied to the node at [l]. *)
Fixpoint update (g : node -> node) (l : loc) (n : node) : node :=
  match l with
  | [] => g n
  | c :: l' =>
      match n with
      | File _ _ => n
      | Dir o b es => Dir o b (alter_entry c (update g l') es)
      end
  end.

Definition on_entries (f : entries_t -> entries_t) (n : node) : node :=
  match n with
  | File _ _ => n
  | Dir o b es => Dir o b (f es)
  end.

(** [alter f l n]: the tree [n] with [f] applied to the entries of the
    directory at [l]. *)
Definition alter (f : entries_t -> entries_t) (l : loc) (n : node) : node :=
  update (on_entries f) l n.

Definition put_content (data : str) (n : node) : node :=
  match n with
  | File o _ => File o data
  | Dir _ _ _ => n
  end.

(** *** Errors *)

Inductive exn :=
| PermissionError        (* EACCES, EPERM *)
| FileNotFoundError      (* ENOENT *)
| NotADirectoryError     (* ENOTDIR *)
| IsADirectoryError      (* EISDIR *)
| FileExistsError        (* EEXIST *)
| OSError                (* any other errno: EBUSY, EINVAL, ENOTEMPTY *)
| RecursionError
| SystemExit (code : N).

(** [isinstance(e, OSError)] *)
Definition is_OSError (e : exn) : bool :=
  match e with
  | PermissionError | FileNotFoundError | NotADirectoryError
  | IsADirectoryError | FileExistsError | OSError => true
  | RecursionError | SystemExit _ => false
  end.

Definition is_PermissionError (e : exn) : bool :=
  match e with PermissionError => true | _ => false end.

Definition is_FileExistsError (e : exn) : bool :=
  match e with FileExistsError => true | _ => false end.

(** *** Path resolution *)

Definition dot : str := [46%N].
Definition dotdot : str := [46%N; 46%N].

Definition components (p : str) : list str := split_on PosixPath.sep p.

Definition is_empty (c : str) : bool :=
  match c with [] => true | _ :: _ => false end.

Fixpoint drop_empty (cs : list str) : list str :=
  match cs with
  | [] => []
  | c :: r => if is_empty c then drop_empty r else cs
  end.

(** The components of a path without its trailing slashes. *)
Definition drop_trailing_empty (cs : list str) : list str :=
  rev (drop_empty (rev cs)).

(** The kernel's walk: every component is looked up in a directory. *)
Fixpoint walk (r : node) (cur : loc) (cs : list str) : exn + loc :=
  match cs with
  | [] => inr cur
  | c :: cs' =>
      match lookup r cur with
      | None => inl FileNotFoundError
      | Some (File _ _) => inl NotADirectoryError
      | Some (Dir _ _ _) =>
          if is_empty c || eqb c dot then walk r cur cs'
          else if eqb c dotdot then walk r (removelast cur) cs'
          else walk r (cur ++ [c]) cs'
      end
  end.

(** The place a path names: the walk over all of its components.  The
    node at that place need not exist; every directory on the way does. *)
Definition resolve (r : node) (p : str) : exn + loc :=
  match p with
  | [] => inl FileNotFoundError
  | _ :: _ => walk r [] (components p)
  end.

(** [stat(2)] *)
Definition stat (r : node) (p : str) : exn + node :=
  match resolve r p with
  | inl e => inl e
  | inr l =>
      match lookup r l with
      | Some n => inr n
      | None => inl FileNotFoundError
      end
  end.

(** The directory a last component is looked up in, [parent] being the
    components before it: its place, its owner and its entries. *)
Definition parent_dir (r : node) (parent : list str)
  : exn + (loc * principal * entries_t) :=
  match walk r [] parent with
  | inl e => inl e
  | inr pl =>
      match lookup r pl with
      | Some (Dir po _ pes) => inr (pl, po, pes)
      | Some (File _ _) => inl NotADirectoryError
      | None => inl FileNotFoundError
      end
  end.

(** [mkdir(2)]: the new directory belongs to the process. *)
Definition mkdir (r : node) (p : str) : exn + node :=
  match p with
  | [] => inl FileNotFoundError
  | _ :: _ =>
      match rev (drop_trailing_empty (components p)) with
      | [] => inl FileExistsError
      | c :: rparent =>
          match parent_dir r (rev rparent) with
          | inl e => inl e
          | inr (pl, po, pes) =>
              if eqb c dot || eqb c dotdot then inl FileExistsError
              else
                match lookup_entry c pes with
                | Some _ => inl FileExistsError
                | None =>
                    if writable po
                    then inr (alter (add_entry c (Dir Self false [])) pl r)
                    else inl PermissionError
                end
          end
      end
  end.

(** [rmdir(2)] *)
Definition rmdir (r : node) (p : str) : exn + node :=
  match p with
  | [] => inl FileNotFoundError
  | _ :: _ =>
      match rev (drop_trailing_empty (components p)) with
      | [] => inl OSError
      | c :: rparent =>
          match parent_dir r (rev rparent) with
          | inl e => inl e
          | inr (pl, po, pes) =>
              if eqb c dot || eqb c dotdot then inl OSError
              else
                match lookup_entry c pes with
                | None => inl FileNotFoundError
                | Some (File _ _) =>
                    if writable po then inl NotADirectoryError
                    else inl PermissionError
                | Some (Dir _ b es) =>
                    if negb (writable po) then inl PermissionError
                    else if b then inl OSError
                    else
                      match es with
                      | [] => inr (alter (remove_entry c) pl r)
                      | _ :: _ => inl OSError
                      end
                end
          end
      end
  end.

(** [open(path, O_WRONLY | O_CREAT | O_TRUNC)]: the file is created, or an
    existing file of the process is emptied; the result is the new tree
    and the place of the file. *)
Definition open_trunc (r : node) (p : str) : exn + (node * loc) :=
  match p with
  | [] => inl FileNotFoundError
  | _ :: _ =>
      let cs := components p in
      let cs' := drop_trailing_empty cs in
      match rev cs' with
      | [] => inl IsADirectoryError
      | c :: rparent =>
          match parent_dir r (rev rparent) with
          | inl e => inl e
          | inr (pl, po, pes) =>
              if eqb c dot || eqb c dotdot
                 || negb (Nat.eqb (length cs') (length cs))
              then inl IsADirectoryError
              else
                match lookup_entry c pes with
                | Some (Dir _ _ _) => inl IsADirectoryError
                | Some (File o _) =>
                    if writable o
                    then inr (update (put_content []) (pl ++ [c]) r, pl ++ [c])
                    else inl PermissionError
                | None =>
                    if writable po
                    then inr (alter (add_entry c (File Self [])) pl r, pl ++ [c])
                    else inl PermissionError
                end
          end
      end
  end.

(** [write(2)] of the whole text on a freshly opened file. *)
Definition set_content (data : str) (l : loc) (r : node) : node :=
  update (put_content data) l r.

(** *** Recursive removal

    [clear n]: what [shutil.rmtree] does below the directory [n]: the
    entries are taken in their order, a file is unlinked, a directory is
    emptied and then removed; the first error stops the removal and is
    returned with the entries that remain. *)
Fixpoint clear (n : node) : entries_t * option exn :=
  match n with
  | File _ _ => ([], None)
  | Dir o _ es =>
      (fix go (es : entries_t) : entries_t * option exn :=
         match es with
         | [] => ([], None)
         | (k, m) :: rest =>
             match m with
             | File _ _ =>
                 if writable o then go rest
                 else ((k, m) :: rest, Some PermissionError)
             | Dir o' b' _ =>
                 let (sub, e) := clear m in
                 match e with
                 | Some e' => ((k, Dir o' b' sub) :: rest, Some e')
                 | None =>
                     if negb (writable o)
                     then ((k, Dir o' b' sub) :: rest, Some PermissionError)
                     else if b' then ((k, Dir o' b' sub) :: rest, Some OSError)
                     else go rest
                 end
             end
         end) es
  end.

(** The same removal, entry by entry; [clear_Dir] below shows that
    [clear (Dir o b es)] is [clear_entries (writable o) es]. *)
Fixpoint clear_entries (w : bool) (es : entries_t) : entries_t * option exn :=
  match es with
  | [] => ([], None)
  | (k, m) :: rest =>
      match m with
      | File _ _ =>
          if w then clear_entries w rest
          else ((k, m) :: rest, Some PermissionError)
      | Dir o' b' _ =>
          let (sub, e) := clear m in
          match e with
          | Some e' => ((k, Dir o' b' sub) :: rest, Some e')
          | None =>
              if negb w then ((k, Dir o' b' sub) :: rest, Some PermissionError)
              else if b' then ((k, Dir o' b' sub) :: rest, Some OSError)
              else clear_entries w rest
          end
      end
  end.

(** [shutil.rmtree(path)] with the default [onerror], which raises. *)
Definition rmtree (r : node) (p : str) : option exn * node :=
  match resolve r p with
  | inl e => (Some e, r)
  | inr l =>
      match lookup r l with
      | None => (Some FileNotFoundError, r)
      | Some (File _ _) => (Some NotADirectoryError, r)
      | Some (Dir o b es) =>
          let (es', e) := clear (Dir o b es) in
          let r1 := alter (fun _ => es') l r in
          match e with
          | Some e' => (Some e', r1)
          | None =>
              match rmdir r1 p with
              | inl e' => (Some e', r1)
              | inr r2 => (None, r2)
              end
          end
      end
  end.

(** [os.path.exists(path)] and [os.path.isdir(path)]: [stat] with every
    error read as [False]. *)
Definition exists_ (r : node) (p : str) : bool :=
  match stat r p with inr _ => true | inl _ => false end.

Definition isdir (r : node) (p : str) : bool :=
  match stat r p with inr (Dir _ _ _) => true | _ => false end.

(** [os.makedirs(name, exist_ok=exist_ok)].  The recursion of the library
    is on the head of the name, which is shorter than the name; [fuel]
    bounds its depth. *)
Fixpoint makedirs_rec (fuel : nat) (r : node) (name : str) (exist_ok : bool)
  : option exn * node :=
  match fuel with
  | O => (Some RecursionError, r)
  | S k =>
      let (head0, tail0) := PosixPath.split name in
      let (head, tail) :=
        if is_empty tail0 then PosixPath.split head0 else (head0, tail0) in
      let create (r1 : node) : option exn * node :=
        match mkdir r1 name with
        | inr r2 => (None, r2)
        | inl e =>
            if negb exist_ok || negb (isdir r1 name) then (Some e, r1)
            else (None, r1)
        end in
      if negb (is_empty head) && negb (is_empty tail) && negb (exists_ r head)
      then
        match makedirs_rec k r head exist_ok with
        | (Some e, r1) =>
            if is_FileExistsError e
            then if eqb tail dot then (None, r1) else create r1
            else (Some e, r1)
        | (None, r1) =>
            if eqb tail dot then (None, r1) else create r1
        end
      else create r
  end.

Definition makedirs (r : node) (name : str) (exist_ok : bool)
  : option exn * node :=
  makedirs_rec (S (length name)) r name exist_ok.

End FS.

Import FS.

(* ================================================================== *)
(** ** Worlds and the monad of the program

    A world is the file system together with the log of the library calls
    the program has made so far, the most recent call first; what the
    program has printed is part of that log. *)

Module Os.

Inductive event :=
| EvExists (path : str)
| EvRmtree (path : str)
| EvMakedirs (path : str)
| EvOpen (path : str)
| EvWrite (data : str)
| EvPrint (line : str).

Record world := World { root : node; log : list event }.

Inductive result (A : Type) :=
| Ok (a : A)
| Raise (e : exn).
Arguments Ok {A} a.
Arguments Raise {A} e.

(** A computation returns or raises, and leaves a world either way. *)
Definition M (A : Type) := world -> result A * world.

Definition ret {A} (a : A) : M A := fun w => (Ok a, w).

Definition raise {A} (e : exn) : M A := fun w => (Raise e, w).

Definition bind {A B} (m : M A) (k : A -> M B) : M B :=
  fun w =>
    match m w with
    | (Ok a, w1) => k a w1
    | (Raise e, w1) => (Raise e, w1)
    end.

(** [try: m  except <class chosen by c>: h] *)
Definition try_except {A} (m : M A) (c : exn -> bool) (h : M A) : M A :=
  fun w =>
    match m w with
    | (Ok a, w1) => (Ok a, w1)
    | (Raise e, w1) => if c e then h w1 else (Raise e, w1)
    end.

Definition emit (ev : event) (w : world) : world :=
  World (root w) (ev :: log w).

(** Lifting of an operation on the tree that may fail and change it. *)
Definition lift (ev : event) (op : node -> option exn * node) : M unit :=
  fun w =>
    match op (root w) with
    | (None, r1) => (Ok tt, World r1 (ev :: log w))
    | (Some e, r1) => (Raise e, World r1 (ev :: log w))
    end.

Definition os_path_exists (path : str) : M bool :=
  fun w => (Ok (exists_ (root w) path), emit (EvExists path) w).

Definition shutil_rmtree (path : str) : M unit :=
  lift (EvRmtree path) (fun r => rmtree r path).

Definition os_makedirs (name : str) (exist_ok : bool) : M unit :=
  lift (EvMakedirs name) (fun r => makedirs r name exist_ok).

(** [open(path, "w")]: the file object is the place of the file. *)
Definition open_w (path : str) : M loc :=
  fun w =>
    match open_trunc (root w) path with
    | inr (r1, f) => (Ok f, World r1 (EvOpen path :: log w))
    | inl e => (Raise e, emit (EvOpen path) w)
    end.

(** [f.write(data)], the file being closed right after.  The device
    takes every write: the [OSError] that [f.write] or the close may raise
    once [open] has returned (no space left, an error of the device) is
    not part of the model, and [print] does not fail either. *)
Definition f_write (f : loc) (data : str) : M unit :=
  fun w => (Ok tt, World (set_content data f (root w)) (EvWrite data :: log w)).

Definition print (line : str) : M unit :=
  fun w => (Ok tt, emit (EvPrint line) w).

Definition sys_exit {A} (code : N) : M A := raise (SystemExit code).

(** The calls in the order they were made. *)
Definition history (w : world) : list event := rev (log w).

(** What the program has printed. *)
Fixpoint printed (l : list event) : list str :=
  match l with
  | [] => []
  | EvPrint s :: r => s :: printed r
  | _ :: r => printed r
  end.

Definition stdout (w : world) : list str := printed (history w).

(** The exit status of the interpreter: [0] when the program returns, the
    code of [sys.exit], and [1] for any other exception that nothing
    caught. *)
Definition exit_status {A} (r : result A) : N :=
  match r with
  | Ok _ => 0
  | Raise (SystemExit n) => n
  | Raise _ => 1
  end%N.

End Os.

Import Os.

Declare Scope py_scope.
Delimit Scope py_scope with py.
Notation "x <- m ;; k" := (bind m (fun x => k))
  (at level 61, m at next level, right associativity) : py_scope.
Notation "m ;; k" := (bind m (fun _ => k))
  (at level 61, right associativity) : py_scope.
Open Scope py_scope.

(* ================================================================== *)
(** ** The program: [generate_final.py] *)

Definition create_file (path content : str) : M unit :=
  os_makedirs (PosixPath.dirname path) true ;;
  f <- open_w path ;;
  f_write f (strip content) ;;
  print (lit "✅ Generated: " ++ path).

(** The four lines of the diagnostic of [clean_directory]. *)
Definition diagnostic (path : str) : list str :=
  [ nl ++ lit "❌ ERROR: Permission denied while removing '" ++ path ++ lit "'.";
    lit "   REASON: The previous build was run with 'sudo', so the files are owned by Root.";
    lit "   FIX: Please run this command to clean up, then try again:";
    lit "        sudo rm -rf " ++ path ++ nl ].

Definition clean_directory (path : str) : M unit :=
  b <- os_path_exists path ;;
  if b then
    try_except (shutil_rmtree path) is_PermissionError
      (print (nl ++ lit "❌ ERROR: Permission denied while removing '" ++ path ++ lit "'.") ;;
       print (lit "   REASON: The previous build was run with 'sudo', so the files are owned by Root.") ;;
       print (lit "   FIX: Please run this command to clean up, then try again:") ;;
       print (lit "        sudo rm -rf " ++ path ++ nl) ;;
       sys_exit 1)
  else ret tt.

Definition setup_spring_project : M unit :=
  let base := Spring.base in
  clean_directory base ;;
  print (nl ++ lit "🚀 Creating STATIC Spring Boot Project: " ++ base ++ lit "...") ;;
  create_file (base ++ lit "/pom.xml") Spring.pom ;;
  create_file (base ++ lit "/src/main/resources/application.properties") Spring.props ;;
  create_file (base ++ lit "/src/main/java/com/company/Application.java") Spring.java ;;
  create_file (base ++ lit "/control.sh") Spring.bash ;;
  create_file (base ++ lit "/install_service.sh") Spring.service.

Definition setup_servlet_project : M unit :=
  let base := Servlet.base in
  clean_directory base ;;
  print (nl ++ lit "🚀 Creating STATIC Servlet Project: " ++ base ++ lit "...") ;;
  create_file (base ++ lit "/pom.xml") Servlet.pom ;;
  create_file (base ++ lit "/src/main/java/com/company/HelloServlet.java") Servlet.java ;;
  create_file (base ++ lit "/control.sh") Servlet.bash ;;
  create_file (base ++ lit "/src/main/webapp/WEB-INF/web.xml") Servlet.web_xml ;;
  create_file (base ++ lit "/install_service.sh") Servlet.service.

Definition main : M unit :=
  setup_spring_project ;;
  setup_servlet_project ;;
  print (nl ++ lit "✅ STATIC PORT PROJECTS GENERATED.") ;;
  print (lit "Go into folders and run: sudo ./install_service.sh").

(* ================================================================== *)
(** ** The two variants as data

    The source has no value for a variant: each is a function that calls
    [create_file] on a fixed sequence of paths and texts.  The sequence is
    named here, and [setup_by_manifest] below shows that the functions of
    the source write exactly this sequence. *)

Inductive variant := VSpring | VServlet.

(** The output root of a variant: the local [base]. *)
Definition base (v : variant) : str :=
  match v with
  | VSpring => Spring.base
  | VServlet => Servlet.base
  end.

(** The port of a variant, as the comments of the source name it
    ([HARDCODED PORT 8080], [HARDCODED PORT 8081]). *)
Definition fixed_port (v : variant) : N :=
  match v with
  | VSpring => 8080
  | VServlet => 8081
  end%N.

(** The manifest of a variant: the arguments of its calls of
    [create_file], in the order of the source. *)
Definition manifest (v : variant) : list (str * str) :=
  match v with
  | VSpring =>
      [ (Spring.base ++ lit "/pom.xml", Spring.pom);
        (Spring.base ++ lit "/src/main/resources/application.properties", Spring.props);
        (Spring.base ++ lit "/src/main/java/com/company/Application.java", Spring.java);
        (Spring.base ++ lit "/control.sh", Spring.bash);
        (Spring.base ++ lit "/install_service.sh", Spring.service) ]
  | VServlet =>
      [ (Servlet.base ++ lit "/pom.xml", Servlet.pom);
        (Servlet.base ++ lit "/src/main/java/com/company/HelloServlet.java", Servlet.java);
        (Servlet.base ++ lit "/control.sh", Servlet.bash);
        (Servlet.base ++ lit "/src/main/webapp/WEB-INF/web.xml", Servlet.web_xml);
        (Servlet.base ++ lit "/install_service.sh", Servlet.service) ]
  end.

(** The artifacts of a variant: every path with the text [create_file]
    puts in the file. *)
Definition artifacts (v : variant) : list (str * str) :=
  map (fun a => (fst a, strip (snd a))) (manifest v).

Definition paths (v : variant) : list str := map fst (manifest v).

Definition setup (v : variant) : M unit :=
  match v with
  | VSpring => setup_spring_project
  | VServlet => setup_servlet_project
  end.

(** The banner a variant prints after the reset. *)
Definition banner (v : variant) : str :=
  match v with
  | VSpring =>
      nl ++ lit "🚀 Creating STATIC Spring Boot Project: " ++ Spring.base ++ lit "..."
  | VServlet =>
      nl ++ lit "🚀 Creating STATIC Servlet Project: " ++ Servlet.base ++ lit "..."
  end.

Fixpoint write_all (m : list (str * str)) : M unit :=
  match m with
  | [] => ret tt
  | (p, c) :: r => create_file p c ;; write_all r
  end.

(** The tree a variant generates: its output root after [setup] has run in
    an empty working directory. *)
Definition empty_world : world := World (Dir Self false []) [].

Definition generated (v : variant) : node :=
  match lookup (root (snd (setup v empty_world))) [base v] with
  | Some n => n
  | None => Dir Self false []
  end.

(** The regular files of a tree, each with the names that lead to it. *)
Fixpoint files_of (n : node) : list (loc * str) :=
  match n with
  | File _ c => [([], c)]
  | Dir _ _ es =>
      (fix go (es : entries_t) : list (loc * str) :=
         match es with
         | [] => []
         | (k, m) :: rest =>
             map (fun f => (k :: fst f, snd f)) (files_of m) ++ go rest
         end) es
  end.

(** A tree [shutil.rmtree] can remove when its parent lets it: no
    directory in it is busy, and every directory that has entries belongs
    to the process. *)
Definition no_entries (es : entries_t) : bool :=
  match es with [] => true | _ :: _ => false end.

Fixpoint removable (n : node) : bool :=
  match n with
  | File _ _ => true
  | Dir o b es =>
      negb b && (no_entries es || writable o) &&
      (fix all (es : entries_t) : bool :=
         match es with
         | [] => true
         | (_, m) :: rest => removable m && all rest
         end) es
  end.

(* ================================================================== *)
(** ** Ports in a text *)

Module Ports.

Definition is_digit (c : N) : bool := ((48 <=? c) && (c <=? 57))%N.

(** The maximal runs of decimal digits of a text, each with the character
    that stands before it ([before] for a run at the start). *)
Fixpoint runs (before : N) (s : str) : list (N * str) :=
  match s with
  | [] => []
  | c :: r =>
      if is_digit c && negb (is_digit before)
      then (before, takewhile is_digit s) :: runs c r
      else runs c r
  end.

Definition to_number (ds : str) : N :=
  fold_left (fun acc d => acc * 10 + (d - 48))%N ds 0%N.

(** Every number written in a text. *)
Definition numbers (s : str) : list N := map (fun r => to_number (snd r)) (runs 0 s).

(** A number a process without privileges can listen on. *)
Definition user_port (n : N) : bool := ((1024 <=? n) && (n <=? 65535))%N.

(** The ports a text refers to: the numbers of the user port range, a
    number that is a segment of a URL path (it stands right after a
    slash, as the year in the namespace of XML Schema) apart. *)
Definition port_occurrences (s : str) : list N :=
  map (fun r => to_number (snd r))
      (filter (fun r => negb (PosixPath.is_sep (fst r)) && user_port (to_number (snd r)))
              (runs 0 s)).

(** The numbers of the user port range that [port_occurrences] leaves
    out. *)
Definition path_segment_numbers (s : str) : list N :=
  map (fun r => to_number (snd r))
      (filter (fun r => PosixPath.is_sep (fst r) && user_port (to_number (snd r)))
              (runs 0 s)).

(** The text after the first occurrence of [marker] in [s]. *)
Fixpoint after (marker s : str) : option str :=
  if startswith s marker then Some (skipn (length marker) s)
  else match s with
       | [] => None
       | _ :: r => after marker r
       end.

(** The number written between [opening] and [closing]. *)
Definition number_between (opening closing s : str) : option N :=
  match after opening s with
  | None => None
  | Some rest =>
      let ds := takewhile is_digit rest in
      match ds with
      | [] => None
      | _ :: _ =>
          if startswith (skipn (length ds) rest) closing
          then Some (to_number ds) else None
      end
  end.

(** The port a Spring Boot [application.properties] pins: the value of
    the key [server.port], which ends the line. *)
Definition port_of_properties (s : str) : option N :=
  match after (nl ++ lit "server.port=") (nl ++ s ++ nl) with
  | None => None
  | Some rest =>
      match takewhile is_digit rest with
      | [] => None
      | ds => if startswith (skipn (length ds) rest) nl then Some (to_number ds) else None
      end
  end.

(** The port the configuration of [tomcat7-maven-plugin] in a [pom.xml]
    gives to [tomcat7:run]. *)
Definition port_of_tomcat_plugin (s : str) : option N :=
  match after (lit "<artifactId>tomcat7-maven-plugin</artifactId>") s with
  | None => None
  | Some rest =>
      match after (lit "<configuration>") rest with
      | None => None
      | Some conf => number_between (lit "<port>") (lit "</port>") conf
      end
  end.

End Ports.

Import Ports.

(* ================================================================== *)
(** ** Notions the properties are stated with *)

(** The reset of [path] is blocked in the tree [r]: the path exists and
    [shutil.rmtree] stops on a permission error, leaving the tree [r1]. *)
Definition blocked (r : node) (path : str) (r1 : node) : Prop :=
  exists_ r path = true /\ rmtree r path = (Some PermissionError, r1).

(** The calls [create_file] makes. *)
Definition is_create_event (ev : event) : bool :=
  match ev with
  | EvMakedirs _ | EvOpen _ | EvWrite _ => true
  | EvExists _ | EvRmtree _ | EvPrint _ => false
  end.

(** The log after a blocked reset of [path] that started with the log
    [lg]: the test of existence, the removal, the four lines. *)
Definition blocked_log (path : str) (lg : list event) : list event :=
  map EvPrint (rev (diagnostic path)) ++ EvRmtree path :: EvExists path :: lg.

(** A name that is neither empty nor [.] nor [..]. *)
Definition normal_name (c : str) : bool :=
  negb (is_empty c) && negb (eqb c dot) && negb (eqb c dotdot).

(** A text without a slash. *)
Definition no_sep (t : str) : bool := forallb (fun c => negb (PosixPath.is_sep c)) t.

(** [a] is the start of [b]: [b] is [a] or a place below [a]. *)
Definition is_prefix (a b : loc) : Prop := exists t, b = a ++ t.

(** The node at [l] is a directory. *)
Definition is_dir_at (r : node) (l : loc) : bool :=
  match lookup r l with Some (Dir _ _ _) => true | _ => false end.

(** Every directory of [r] is a directory of [r']. *)
Definition extends (r' r : node) : Prop :=
  forall l, is_dir_at r l = true -> is_dir_at r' l = true.

(** The build manifest of a variant, as written. *)
Definition pom_xml (v : variant) : str :=
  match v with
  | VSpring => strip Spring.pom
  | VServlet => strip Servlet.pom
  end.

(** The first name of a path. *)
Definition first_component (p : str) : str := hd [] (components p).

(** The line [create_file] prints. *)
Definition generated_line (path : str) : str := lit "✅ Generated: " ++ path.

(** The log of a call of [create_file] that returns. *)
Definition create_log (path content : str) (lg : list event) : list event :=
  EvPrint (generated_line path) :: EvWrite (strip content) :: EvOpen path
    :: EvMakedirs (PosixPath.dirname path) :: lg.

(** A name: one component, ordinary. *)
Definition simple_name (c : str) : bool := no_sep c && normal_name c.

(** The log of [setup] after the reset, when every call returns. *)
Definition gen_log (v : variant) (lg : list event) : list event :=
  fold_left (fun l a => create_log (fst a) (snd a) l) (manifest v)
            (EvPrint (banner v) :: lg).

(** The output root [c] is absent from the entries [es] of the working
    directory, or is a directory that can be removed. *)
Definition ready (c : str) (es : entries_t) : bool :=
  match lookup_entry c es with
  | None => true
  | Some (File _ _) => false
  | Some (Dir o b sub) => removable (Dir o b sub)
  end.

(** The entries of the working directory after [main]. *)
Definition after_main (es : entries_t) : entries_t :=
  (base VServlet, generated VServlet)
    :: (base VSpring, generated VSpring)
    :: remove_entry (base VServlet) (remove_entry (base VSpring) es).

(** A working directory with an output root left by an earlier run of
    the process, and a file of the user. *)
Definition stale_entries : entries_t :=
  [ (Spring.base,
     Dir Self false
       [ (lit "pom.xml", File Self (lit "<project/>"));
         (lit "src", Dir Self false [ (lit "Old.java", File Self (lit "class Old {}")) ]) ]);
    (lit "README.md", File Self (lit "notes")) ].

Definition stale_world : world := World (Dir Self false stale_entries) [].

(** A working directory that holds the directory [out] with a file of an
    earlier run in it. *)
Definition out_world : world :=
  World
    (Dir Self false
       [ (lit "out", Dir Self false [ (lit "a.txt", File Self (lit "old text")) ]) ])
    [].

(** A tree in which a build run with [sudo] has left a directory of
    another principal inside the output root of the Spring variant. *)
Definition sudo_world : world :=
  World
    (Dir Self false
       [ (Spring.base,
          Dir Self false
            [ (lit "pom.xml", File Self (lit "<project/>"));
              (lit "target",
               Dir Other false [ (lit "my-spring-app-1.0.jar", File Other []) ]) ]) ])
    [].

(** What [shutil.rmtree] leaves of it. *)
Definition sudo_world_after : node :=
  Dir Self false
    [ (Spring.base,
       Dir Self false
         [ (lit "target",
            Dir Other false [ (lit "my-spring-app-1.0.jar", File Other []) ]) ]) ].

(** A tree in which the output root of the Spring variant is a regular
    file, and one in which it holds a mount point. *)
Definition file_world : world :=
  World (Dir Self false [ (Spring.base, File Self (lit "notes")) ]) [].

Definition mount_world : world :=
  World
    (Dir Self false
       [ (Spring.base, Dir Self false [ (lit "target", Dir Self true []) ]) ])
    [].

(** *** Notions of the further properties *)

(** A working directory of another principal, empty. *)
Definition foreign_world : world := World (Dir Other false []) [].

(** The lines that [setup] of a variant prints when it returns. *)
Definition variant_lines (v : variant) : list str :=
  banner v :: map generated_line (paths v).

(** What a run of [main] that returns prints. *)
Definition success_lines : list str :=
  variant_lines VSpring ++ variant_lines VServlet
    ++ [ nl ++ lit "✅ STATIC PORT PROJECTS GENERATED.";
         lit "Go into folders and run: sudo ./install_service.sh" ].

(** The directories [ms], one in the other, around [leaf]. *)
Fixpoint nest (ms : list str) (leaf : node) : node :=
  match ms with
  | [] => leaf
  | m :: ms' => Dir Self false [(m, nest ms' leaf)]
  end.

(** The trees [r] and [r'] hold the same at every place whose first name
    is not [c]. *)
Definition same_outside (c : str) (r r' : node) : Prop :=
  forall (d : str) (t : loc), d <> c -> lookup r' (d :: t) = lookup r (d :: t).

(** A path of ordinary names whose first name is [c]. *)
Definition path_under (c : str) (p : str) : bool :=
  match components p with
  | [] => false
  | c' :: rest => eqb c' c && forallb normal_name (c' :: rest)
  end.

(** A world in which the reset of the Spring variant is blocked, beside a
    file of the user. *)
Definition sudo_world_with_notes : world :=
  World
    (Dir Self false
       [ (Spring.base,
          Dir Self false
            [ (lit "target",
               Dir Other false [ (lit "my-spring-app-1.0.jar", File Other []) ]) ]);
         (lit "notes.txt", File Self (lit "mine")) ])
    [].

(** A working directory in which a build of the Servlet variant run with
    [sudo] has left a directory of another principal. *)
Definition servlet_sudo_world : world :=
  World
    (Dir Self false
       [ (Servlet.base,
          Dir Self false
            [ (lit "target", Dir Other false [ (lit "classes", Dir Other false []) ]) ]) ])
    [].

(* ================================================================== *)
(** * Properties *)

(** A property of every entry of a list that is given in full. *)
Ltac each_entry tac :=
  repeat (apply Forall_cons; [tac|]); apply Forall_nil.

(** ** Equality of strings *)

Lemma str_eqb_eq (a b : str) : eqb a b = true <-> a = b.
Proof.
  unfold eqb. destruct (list_eq_dec N.eq_dec a b); split; congruence.
Qed.

Lemma str_eqb_refl (a : str) : eqb a a = true.
Proof. apply str_eqb_eq. reflexivity. Qed.

(** ** The tree *)

(** An induction principle that reaches the nodes below a directory. *)
Lemma node_rect' (P : node -> Prop)
  (HF : forall o c, P (File o c))
  (HD : forall o b es, Forall (fun e => P (snd e)) es -> P (Dir o b es)) :
  forall n, P n.
Proof.
  fix IH 1. intros [o c | o b es].
  - apply HF.
  - apply HD. induction es as [|[k m] es IHes]; constructor.
    + apply IH.
    + exact IHes.
Qed.

(** *** Entries *)

Lemma lookup_entry_alter_entry (c : str) (g : node -> node) (es : entries_t) :
  lookup_entry c (alter_entry c g es) = option_map g (lookup_entry c es).
Proof.
  induction es as [|[k n] es IH]; simpl; [reflexivity|].
  destruct (eqb k c) eqn:E; simpl; rewrite E; [reflexivity|exact IH].
Qed.

Lemma lookup_entry_alter_entry_other (c d : str) (g : node -> node) (es : entries_t) :
  d <> c -> lookup_entry d (alter_entry c g es) = lookup_entry d es.
Proof.
  intros N. induction es as [|[k n] es IH]; simpl; [reflexivity|].
  destruct (eqb k c) eqn:E; simpl.
  - apply str_eqb_eq in E. subst k.
    destruct (eqb c d) eqn:E'; [apply str_eqb_eq in E'; congruence|reflexivity].
  - destruct (eqb k d); [reflexivity|exact IH].
Qed.

Lemma lookup_entry_remove_entry (c : str) (es : entries_t) :
  lookup_entry c (remove_entry c es) = None.
Proof.
  induction es as [|[k n] es IH]; simpl; [reflexivity|].
  destruct (eqb k c) eqn:E; simpl; [exact IH|rewrite E; exact IH].
Qed.

Lemma lookup_entry_remove_entry_other (c d : str) (es : entries_t) :
  d <> c -> lookup_entry d (remove_entry c es) = lookup_entry d es.
Proof.
  intros N. induction es as [|[k n] es IH]; simpl; [reflexivity|].
  destruct (eqb k c) eqn:E; simpl.
  - apply str_eqb_eq in E. subst k.
    destruct (eqb c d) eqn:E'; [apply str_eqb_eq in E'; congruence|exact IH].
  - destruct (eqb k d); [reflexivity|exact IH].
Qed.

Lemma remove_entry_absent (c : str) (es : entries_t) :
  lookup_entry c es = None -> remove_entry c es = es.
Proof.
  induction es as [|[k n] es IH]; simpl; [reflexivity|].
  destruct (eqb k c) eqn:E; simpl; [discriminate|].
  intros H. rewrite (IH H). reflexivity.
Qed.

Lemma remove_entry_alter_entry (c : str) (g : node -> node) (es : entries_t) :
  remove_entry c (alter_entry c g es) = remove_entry c es.
Proof.
  induction es as [|[k n] es IH]; simpl; [reflexivity|].
  destruct (eqb k c) eqn:E; simpl; rewrite E; simpl; [reflexivity|].
  rewrite IH. reflexivity.
Qed.

Lemma alter_entry_idem (c : str) (g : node -> node) (es : entries_t) :
  (forall n : node, g (g n) = g n) ->
  alter_entry c g (alter_entry c g es) = alter_entry c g es.
Proof.
  intros G. induction es as [|[k n] es IH]; simpl; [reflexivity|].
  destruct (eqb k c) eqn:E; simpl; rewrite E; [rewrite G|rewrite IH]; reflexivity.
Qed.

(** *** Lookup and update *)

Lemma update_idem (g : node -> node) (l : loc) :
  (forall n : node, g (g n) = g n) ->
  forall r : node, update g l (update g l r) = update g l r.
Proof.
  intros G. induction l as [|c l IH]; intros r; simpl; [apply G|].
  destruct r as [o d|o b es]; simpl; [reflexivity|].
  rewrite alter_entry_idem by exact IH. reflexivity.
Qed.

Lemma lookup_update_same (g : node -> node) (l : loc) :
  forall r : node, lookup (update g l r) l = option_map g (lookup r l).
Proof.
  induction l as [|c l IH]; intros r; simpl; [reflexivity|].
  destruct r as [o d|o b es]; simpl; [reflexivity|].
  rewrite lookup_entry_alter_entry.
  destruct (lookup_entry c es); simpl; [apply IH|reflexivity].
Qed.

Lemma lookup_update_apart (g : node -> node) (l : loc) :
  forall (r : node) (l' : loc), ~ is_prefix l l' -> ~ is_prefix l' l ->
               lookup (update g l r) l' = lookup r l'.
Proof.
  induction l as [|c l IH]; intros r l' H1 H2.
  - exfalso. apply H1. exists l'. reflexivity.
  - destruct l' as [|c' l']; [exfalso; apply H2; exists (c :: l); reflexivity|].
    simpl. destruct r as [o d|o b es]; simpl; [reflexivity|].
    destruct (list_eq_dec N.eq_dec c' c) as [->|N].
    + rewrite lookup_entry_alter_entry.
      destruct (lookup_entry c es); simpl; [|reflexivity].
      apply IH.
      * intros [t ->]. apply H1. exists t. reflexivity.
      * intros [t ->]. apply H2. exists t. reflexivity.
    + rewrite lookup_entry_alter_entry_other by exact N. reflexivity.
Qed.

(** Below a directory: one more name. *)
Lemma lookup_snoc (r : node) (l : loc) (c : str) :
  lookup r (l ++ [c])
  = match lookup r l with
    | Some (Dir _ _ es) => lookup_entry c es
    | _ => None
    end.
Proof.
  revert r. induction l as [|d l IH]; intros r; simpl.
  - destruct r as [o x|o b es]; [reflexivity|].
    destruct (lookup_entry c es); reflexivity.
  - destruct r as [o x|o b es]; [reflexivity|].
    destruct (lookup_entry d es); [apply IH|reflexivity].
Qed.

Lemma lookup_app (r : node) (a b : loc) :
  lookup r (a ++ b)
  = match lookup r a with Some n => lookup n b | None => None end.
Proof.
  revert r. induction a as [|d a IH]; intros r; simpl; [reflexivity|].
  destruct r as [o x|o bb es]; [reflexivity|].
  destruct (lookup_entry d es); [apply IH|reflexivity].
Qed.

Lemma lookup_alter_remove (c : str) (pl : loc) :
  forall (r : node) (l' : loc), lookup (alter (remove_entry c) pl r) (pl ++ c :: l') = None.
Proof.
  unfold alter. induction pl as [|d pl IH]; intros r l'; simpl.
  - destruct r as [o x|o b es]; simpl; [reflexivity|].
    rewrite lookup_entry_remove_entry. reflexivity.
  - destruct r as [o x|o b es]; simpl; [reflexivity|].
    rewrite lookup_entry_alter_entry.
    destruct (lookup_entry d es); simpl; [apply IH|reflexivity].
Qed.

Lemma lookup_alter_remove_sibling (c : str) (pl : loc) :
  forall (r : node) (d : str) (l' : loc), d <> c ->
    lookup (alter (remove_entry c) pl r) (pl ++ d :: l') = lookup r (pl ++ d :: l').
Proof.
  unfold alter. induction pl as [|k pl IH]; intros r d l' N; simpl.
  - destruct r as [o x|o b es]; simpl; [reflexivity|].
    rewrite lookup_entry_remove_entry_other by exact N. reflexivity.
  - destruct r as [o x|o b es]; simpl; [reflexivity|].
    rewrite lookup_entry_alter_entry.
    destruct (lookup_entry k es); simpl; [apply IH; exact N|reflexivity].
Qed.

(** *** The walk *)

Lemma walk_app (r : node) (a : list str) : forall (cur : loc) (b : list str),
  walk r cur (a ++ b)
  = match walk r cur a with inr l => walk r l b | inl e => inl e end.
Proof.
  induction a as [|c a IH]; intros cur b; simpl; [reflexivity|].
  destruct (lookup r cur) as [[o x|o bb es]|]; try reflexivity.
  destruct (is_empty c || eqb c dot); [apply IH|].
  destruct (eqb c dotdot); apply IH.
Qed.

(** The place a walk ends at depends on the components only. *)
Lemma walk_place (r r' : node) (cs : list str) : forall (cur l l' : loc),
  walk r cur cs = inr l -> walk r' cur cs = inr l' -> l = l'.
Proof.
  induction cs as [|c cs IH]; intros cur l l'; simpl.
  - intros H H'. congruence.
  - destruct (lookup r cur) as [[o x|o bb es]|]; try discriminate.
    destruct (lookup r' cur) as [[o' x'|o' bb' es']|]; try discriminate.
    destruct (is_empty c || eqb c dot); [apply IH|].
    destruct (eqb c dotdot); apply IH.
Qed.

(** *** Recursive removal *)

Lemma clear_Dir (o : principal) (b : bool) (es : entries_t) : clear (Dir o b es) = clear_entries (writable o) es.
Proof.
  simpl. induction es as [|[k m] es IH]; [reflexivity|].
  cbn [clear_entries]. destruct m as [o' c'|o' b' es0].
  - destruct (writable o); [exact IH|reflexivity].
  - destruct (clear (Dir o' b' es0)) as [sub [e'|]]; [reflexivity|].
    destruct (negb (writable o)); [reflexivity|].
    destruct b'; [reflexivity|exact IH].
Qed.

Lemma clear_entries_none (w : bool) (es : entries_t) : forall es' : entries_t,
  clear_entries w es = (es', None) -> es' = [].
Proof.
  induction es as [|[k m] es IH]; intros es'; cbn [clear_entries].
  - congruence.
  - destruct m as [o' c'|o' b' es0].
    + destruct w; [apply IH|discriminate].
    + destruct (clear (Dir o' b' es0)) as [sub [e'|]]; [discriminate|].
      destruct (negb w); [discriminate|]. destruct b'; [discriminate|apply IH].
Qed.

Lemma clear_none (n : node) (es' : entries_t) : clear n = (es', None) -> es' = [].
Proof.
  destruct n as [o c|o b es]; [simpl; congruence|].
  rewrite clear_Dir. apply clear_entries_none.
Qed.

(** What a removal that failed has left fails in the same way. *)
Lemma clear_again : forall n : node,
  match n with
  | File _ _ => True
  | Dir o b es =>
      forall (es' : entries_t) (e : exn), clear (Dir o b es) = (es', Some e) ->
                    clear (Dir o b es') = (es', Some e)
  end.
Proof.
  induction n as [o c|o b es IHes] using node_rect'; [exact I|].
  intros es' e. rewrite !clear_Dir. generalize (writable o) as w. intros w.
  revert es'. induction es as [|[k m] es IH]; intros es'; cbn [clear_entries];
    [discriminate|].
  inversion IHes as [|x xs Hm Hrest]; subst. cbn [snd] in Hm.
  destruct m as [o' c'|o' b' es0].
  - destruct w eqn:W; [apply IH; exact Hrest|].
    intros H. injection H as <- <-. cbn [clear_entries]. reflexivity.
  - destruct (clear (Dir o' b' es0)) as [sub [e'|]] eqn:C.
    + intros H. injection H as <- <-. cbn [clear_entries].
      rewrite (Hm _ _ eq_refl). reflexivity.
    + apply clear_none in C as C'. subst sub.
      destruct (negb w) eqn:W.
      * intros H. injection H as <- <-. cbn [clear_entries clear]. rewrite W. reflexivity.
      * destruct b'.
        -- intros H. injection H as <- <-. cbn [clear_entries clear]. rewrite W. reflexivity.
        -- apply IH. exact Hrest.
Qed.

(** *** Trailing slashes *)

Lemma drop_empty_split (l : list str) :
  exists pre, l = pre ++ drop_empty l /\ Forall (fun c => c = []) pre.
Proof.
  induction l as [|c l (pre & E & F)]; simpl.
  - exists []. split; [reflexivity|constructor].
  - destruct c as [|x c]; simpl.
    + exists ([] :: pre). split; [simpl; congruence|constructor; [reflexivity|exact F]].
    + exists []. split; [reflexivity|constructor].
Qed.

Lemma drop_empty_head (l : list str) (c : str) (t : list str) : drop_empty l = c :: t -> c <> [].
Proof.
  induction l as [|d l IH]; simpl; [discriminate|].
  destruct d as [|x d]; simpl; [exact IH|]. intros H. injection H as <- _. discriminate.
Qed.

(** The components of a path: those without the trailing slashes, then
    one empty component for each trailing slash. *)
Lemma components_trailing (cs : list str) :
  exists post, cs = drop_trailing_empty cs ++ post /\ Forall (fun c => c = []) post.
Proof.
  unfold drop_trailing_empty.
  destruct (drop_empty_split (rev cs)) as (pre & E & F).
  exists (rev pre). split.
  - rewrite <- rev_app_distr, <- E, rev_involutive. reflexivity.
  - apply Forall_rev. exact F.
Qed.

Lemma drop_trailing_last (cs parent : list str) (c : str) :
  rev (drop_trailing_empty cs) = c :: parent ->
  drop_trailing_empty cs = rev parent ++ [c] /\ c <> [].
Proof.
  unfold drop_trailing_empty. rewrite rev_involutive. intros H. split.
  - rewrite H. reflexivity.
  - eapply drop_empty_head. exact H.
Qed.

Lemma walk_empties (r : node) (post : list str) : Forall (fun c => c = []) post ->
  forall cur l : loc, walk r cur post = inr l -> l = cur.
Proof.
  induction 1 as [|c post -> _ IH]; intros cur l; simpl; [congruence|].
  destruct (lookup r cur) as [[o x|o b es]|]; try discriminate. apply IH.
Qed.

(** One ordinary name: the walk goes one level down. *)
Lemma walk_name (r : node) (cur : loc) (c : str) (cs : list str) :
  c <> [] -> eqb c dot = false -> eqb c dotdot = false ->
  walk r cur (c :: cs)
  = match lookup r cur with
    | None => inl FileNotFoundError
    | Some (File _ _) => inl NotADirectoryError
    | Some (Dir _ _ _) => walk r (cur ++ [c]) cs
    end.
Proof.
  intros N D DD. simpl. rewrite D, DD.
  destruct c; [congruence|]. reflexivity.
Qed.

(** *** [rmdir] and [rmtree] *)

Lemma rmdir_inv (r : node) (p : str) (r2 : node) :
  rmdir r p = inr r2 ->
  exists parent c pl po pb pes,
    p <> []
    /\ drop_trailing_empty (components p) = parent ++ [c]
    /\ c <> [] /\ eqb c dot = false /\ eqb c dotdot = false
    /\ walk r [] parent = inr pl
    /\ lookup r pl = Some (Dir po pb pes)
    /\ r2 = alter (remove_entry c) pl r.
Proof.
  unfold rmdir. destruct p as [|x p]; [discriminate|].
  destruct (rev (drop_trailing_empty (components (x :: p)))) as [|c rparent] eqn:E;
    [discriminate|].
  apply drop_trailing_last in E as [E1 E2].
  unfold parent_dir.
  destruct (walk r [] (rev rparent)) as [e|pl] eqn:W; [discriminate|].
  destruct (lookup r pl) as [[o y|po pb pes]|] eqn:L; try discriminate.
  destruct (eqb c dot || eqb c dotdot) eqn:D; [discriminate|].
  apply orb_false_elim in D as [D1 D2].
  destruct (lookup_entry c pes) as [[o y|o b es]|]; try discriminate.
  - destruct (writable po); discriminate.
  - destruct (negb (writable po)); [discriminate|].
    destruct b; [discriminate|]. destruct es; [|discriminate].
    intros H. injection H as <-.
    exists (rev rparent), c, pl, po, pb, pes. repeat split; try assumption. discriminate.
Qed.

Lemma is_prefix_dec (a b : loc) : {is_prefix a b} + {~ is_prefix a b}.
Proof.
  revert b. induction a as [|x a IH]; intros b.
  - left. exists b. reflexivity.
  - destruct b as [|y b]; [right; intros [t H]; discriminate|].
    destruct (list_eq_dec N.eq_dec x y) as [->|N].
    + destruct (IH b) as [P|P].
      * left. destruct P as [t ->]. exists t. reflexivity.
      * right. intros [t H]. injection H as ->. apply P. exists t. reflexivity.
    + right. intros [t H]. injection H as -> _. congruence.
Qed.

(** What a successful [rmtree] has done: the path named the place
    [pl ++ [c]]; afterwards the path does not exist, nothing is left at
    that place or below it, and every place that is neither below it nor
    above it holds what it held. *)
Lemma rmtree_removed (r : node) (p : str) (r2 : node) :
  rmtree r p = (None, r2) ->
  exists l,
    resolve r p = inr l
    /\ exists_ r2 p = false
    /\ (forall l', lookup r2 (l ++ l') = None)
    /\ (forall l', ~ is_prefix l l' -> ~ is_prefix l' l -> lookup r2 l' = lookup r l').
Proof.
  unfold rmtree. destruct (resolve r p) as [e|l] eqn:R; [discriminate|].
  destruct (lookup r l) as [[o x|o b es]|] eqn:L; try discriminate.
  destruct (clear (Dir o b es)) as [es' [e|]] eqn:C; [discriminate|].
  destruct (rmdir (alter (fun _ => es') l r) p) as [e|r2'] eqn:RD; [discriminate|].
  intros H. injection H as <-.
  apply rmdir_inv in RD as (parent & c & pl & po & pb & pes & Np & E & Nc & D & DD & W & Lp & ->).
  destruct (components_trailing (components p)) as (post & Ecs & Fpost).
  rewrite E in Ecs.
  assert (l = pl ++ [c]) as ->.
  { unfold resolve in R. destruct p; [congruence|].
    rewrite Ecs, <- app_assoc, walk_app in R.
    destruct (walk r [] parent) as [e|pl0] eqn:W0; [discriminate|].
    assert (pl0 = pl) as -> by (eapply walk_place; eassumption).
    simpl app in R. rewrite (walk_name _ _ _ _ Nc D DD) in R.
    destruct (lookup r pl) as [[? ?|? ? ?]|]; try discriminate.
    eapply walk_empties; eassumption. }
  exists (pl ++ [c]). split; [reflexivity|].
  assert (forall l', lookup (alter (remove_entry c) pl (alter (fun _ => es') (pl ++ [c]) r))
                       ((pl ++ [c]) ++ l') = None) as Gone.
  { intros l'. rewrite <- app_assoc. apply lookup_alter_remove. }
  split; [|split; [exact Gone|]].
  - unfold exists_, stat.
    destruct (resolve (alter (remove_entry c) pl _) p) as [e|l2] eqn:R2; [reflexivity|].
    assert (l2 = pl ++ [c]) as ->.
    { unfold resolve in R, R2. destruct p; [congruence|].
      symmetry. eapply walk_place; eassumption. }
    specialize (Gone []). rewrite app_nil_r in Gone. rewrite Gone. reflexivity.
  - intros l' H1 H2.
    assert (lookup (alter (fun _ => es') (pl ++ [c]) r) l' = lookup r l') as Step
        by (apply lookup_update_apart; assumption).
    destruct (is_prefix_dec pl l') as [[t ->]|P].
    + destruct t as [|d t].
      * exfalso. apply H2. exists [c]. rewrite app_nil_r. reflexivity.
      * assert (d <> c) as Nd.
        { intros ->. apply H1. exists t. rewrite <- app_assoc. reflexivity. }
        rewrite lookup_alter_remove_sibling by exact Nd. exact Step.
    + unfold alter at 1. rewrite lookup_update_apart; [exact Step|exact P|].
      intros [t ->]. apply H2. exists (t ++ [c]). rewrite app_assoc. reflexivity.
Qed.

Lemma update_const_idem (es' : entries_t) (l : loc) (r : node) :
  alter (fun _ => es') l (alter (fun _ => es') l r) = alter (fun _ => es') l r.
Proof.
  unfold alter. apply update_idem. intros [o c|o b es]; reflexivity.
Qed.

(** [rmtree] again on what [rmtree] has left changes nothing. *)
Lemma rmtree_again (r : node) (p : str) :
  snd (rmtree (snd (rmtree r p)) p) = snd (rmtree r p).
Proof.
  destruct (rmtree r p) as [[e|] r1] eqn:R1; cbn [snd].
  - revert R1. unfold rmtree.
    destruct (resolve r p) as [e0|l] eqn:R.
    { intros H. injection H as <- <-. rewrite R. reflexivity. }
    destruct (lookup r l) as [[o x|o b es]|] eqn:L.
    { intros H. injection H as <- <-. rewrite R, L. reflexivity. }
    2:{ intros H. injection H as <- <-. rewrite R, L. reflexivity. }
    destruct (clear (Dir o b es)) as [es' [e'|]] eqn:C.
    + intros H. injection H as <- <-.
      destruct (resolve (alter (fun _ => es') l r) p) as [e2|l2] eqn:R2; [reflexivity|].
      assert (l2 = l) as ->.
      { unfold resolve in R, R2. destruct p; [congruence|].
        symmetry. eapply walk_place; eassumption. }
      unfold alter at 1. rewrite lookup_update_same, L. cbn [option_map on_entries].
      rewrite (clear_again (Dir o b es) _ _ C).
      cbv beta iota zeta. cbn [snd].
      rewrite update_const_idem. reflexivity.
    + apply clear_none in C as C'. subst es'.
      destruct (rmdir (alter (fun _ => []) l r) p) as [e'|r2] eqn:RD; [|discriminate].
      intros H. injection H as <- <-.
      destruct (resolve (alter (fun _ => []) l r) p) as [e2|l2] eqn:R2; [reflexivity|].
      assert (l2 = l) as ->.
      { unfold resolve in R, R2. destruct p; [congruence|].
        symmetry. eapply walk_place; eassumption. }
      unfold alter at 1. rewrite lookup_update_same, L. cbn [option_map on_entries].
      change (clear (Dir o b [])) with (@nil (str * node), @None exn).
      cbv beta iota zeta.
      rewrite update_const_idem, RD. reflexivity.
  - destruct (rmtree_removed _ _ _ R1) as (l & _ & E & _).
    unfold exists_, stat in E. unfold rmtree.
    destruct (resolve r1 p) as [e|l2]; [reflexivity|].
    destruct (lookup r1 l2); [discriminate|reflexivity].
Qed.

(** *** Removable trees *)

Lemma removable_Dir (o : principal) (b : bool) (es : entries_t) :
  removable (Dir o b es)
  = negb b && (no_entries es || writable o) && forallb (fun e => removable (snd e)) es.
Proof.
  cbn [removable]. f_equal.
  induction es as [|[k m] es IH]; [reflexivity|].
  cbn [forallb snd]. rewrite <- IH. reflexivity.
Qed.

Lemma clear_removable : forall n : node,
  removable n = true ->
  match n with
  | File _ _ => True
  | Dir o b es => clear (Dir o b es) = ([], None)
  end.
Proof.
  induction n as [o c|o b es IHes] using node_rect'; [intros; exact I|].
  rewrite removable_Dir, clear_Dir. intros H.
  apply andb_prop in H as [H Hall]. apply andb_prop in H as [_ Hw].
  destruct (writable o).
  2:{ destruct es; [reflexivity|discriminate]. }
  clear Hw.
  induction es as [|[k m] es IH]; [reflexivity|].
  cbn [forallb snd] in Hall. apply andb_prop in Hall as [Hm Hall].
  inversion IHes as [|x xs Pm Prest]; subst. cbn [snd] in Pm.
  specialize (IH Prest Hall).
  cbn [clear_entries].
  destruct m as [o' c'|o' b' es0]; [exact IH|].
  rewrite (Pm Hm). cbn [negb].
  rewrite removable_Dir in Hm. destruct b'; [discriminate|exact IH].
Qed.

Lemma lookup_prefix_dir (r : node) (a b : loc) (n : node) :
  lookup r (a ++ b) = Some n -> b <> [] ->
  exists o bb es, lookup r a = Some (Dir o bb es).
Proof.
  rewrite lookup_app. destruct (lookup r a) as [[o x|o bb es]|]; [|eauto|discriminate].
  destruct b; [congruence|discriminate].
Qed.

Lemma normal_name_inv (c : str) :
  normal_name c = true -> c <> [] /\ eqb c dot = false /\ eqb c dotdot = false.
Proof.
  unfold normal_name. intros H.
  apply andb_prop in H as [H H3]. apply andb_prop in H as [H1 H2].
  repeat split.
  - destruct c; [discriminate|discriminate].
  - destruct (eqb c dot); [discriminate|reflexivity].
  - destruct (eqb c dotdot); [discriminate|reflexivity].
Qed.

(** A path of ordinary names that leads to a node is walked to it. *)
Lemma walk_to_existing (r : node) (cs : list str) : forall (cur : loc) (n : node),
  forallb normal_name cs = true ->
  lookup r (cur ++ cs) = Some n ->
  walk r cur cs = inr (cur ++ cs).
Proof.
  induction cs as [|c cs IH]; intros cur n F L.
  - rewrite app_nil_r. reflexivity.
  - cbn [forallb] in F. apply andb_prop in F as [Fc F].
    apply normal_name_inv in Fc as (N & D & DD).
    rewrite (walk_name _ _ _ _ N D DD).
    destruct (lookup_prefix_dir r cur (c :: cs) n L) as (o & bb & es & ->); [discriminate|].
    replace (cur ++ c :: cs) with ((cur ++ [c]) ++ cs) in * by (rewrite <- app_assoc; reflexivity).
    eapply IH; eassumption.
Qed.

Lemma lookup_update_above (g : node -> node) (a : loc) : forall (b : loc) (r : node),
  lookup (update g (a ++ b) r) a = option_map (update g b) (lookup r a).
Proof.
  induction a as [|c a IH]; intros b r; [reflexivity|].
  cbn [app update lookup]. destruct r as [o x|o bb es]; [reflexivity|].
  cbn [lookup]. rewrite lookup_entry_alter_entry.
  destruct (lookup_entry c es); cbn [option_map]; [apply IH|reflexivity].
Qed.

Lemma alter_entry_ext (c : str) (g h : node -> node) (es : entries_t) :
  (forall n : node, g n = h n) -> alter_entry c g es = alter_entry c h es.
Proof.
  intros E. induction es as [|[k n] es IH]; [reflexivity|].
  cbn [alter_entry]. rewrite E, IH. reflexivity.
Qed.

Lemma alter_entry_compose (c : str) (g h : node -> node) (es : entries_t) :
  alter_entry c g (alter_entry c h es) = alter_entry c (fun n => g (h n)) es.
Proof.
  induction es as [|[k n] es IH]; [reflexivity|].
  cbn [alter_entry]. destruct (eqb k c) eqn:E; cbn [alter_entry]; rewrite E;
    [reflexivity|rewrite IH; reflexivity].
Qed.

(** Removing an entry forgets what was done below it. *)
Lemma remove_after_update (c : str) (g : node -> node) (cs : loc) : forall r : node,
  alter (remove_entry c) cs (update g (cs ++ [c]) r) = alter (remove_entry c) cs r.
Proof.
  unfold alter. induction cs as [|d cs IH]; intros r.
  - cbn [app update]. destruct r as [o x|o b es]; [reflexivity|].
    cbn [on_entries]. rewrite remove_entry_alter_entry. reflexivity.
  - cbn [app update]. destruct r as [o x|o b es]; [reflexivity|].
    rewrite alter_entry_compose. f_equal. apply alter_entry_ext. exact IH.
Qed.

Lemma drop_trailing_keeps (cs : list str) (c : str) :
  c <> [] -> drop_trailing_empty (cs ++ [c]) = cs ++ [c].
Proof.
  intros N. unfold drop_trailing_empty. rewrite rev_app_distr. cbn [rev app].
  destruct c; [congruence|]. cbn [drop_empty is_empty].
  change (rev (?x :: rev cs)) with (rev (rev cs) ++ [x]).
  rewrite rev_involutive. reflexivity.
Qed.

(** [rmtree] succeeds on a path of ordinary names that leads to a
    removable directory inside a directory of the process. *)
Lemma rmtree_ok (r : node) (p : str) (cs : list str) (c : str)
      (po : principal) (pb : bool) (pes : entries_t)
      (o : principal) (b : bool) (es : entries_t) :
  p <> [] ->
  components p = cs ++ [c] ->
  forallb normal_name (cs ++ [c]) = true ->
  lookup r cs = Some (Dir po pb pes) ->
  writable po = true ->
  lookup_entry c pes = Some (Dir o b es) ->
  removable (Dir o b es) = true ->
  rmtree r p = (None, alter (remove_entry c) cs r).
Proof.
  intros Np Ecs F Lp Wp Lc Rm.
  assert (lookup r (cs ++ [c]) = Some (Dir o b es)) as L
      by (rewrite lookup_snoc, Lp; exact Lc).
  assert (forallb normal_name cs = true /\ normal_name c = true) as [Fcs Fc].
  { rewrite forallb_app in F. apply andb_prop in F as [F1 F2].
    cbn [forallb] in F2. rewrite andb_true_r in F2. split; assumption. }
  destruct (normal_name_inv c Fc) as (Nc & D & DD).
  unfold rmtree, resolve. destruct p as [|x p]; [congruence|].
  rewrite Ecs, (walk_to_existing r (cs ++ [c]) [] _ F L). cbn [app]. rewrite L.
  rewrite (clear_removable (Dir o b es) Rm).
  set (r1 := alter (fun _ => []) (cs ++ [c]) r).
  assert (lookup r1 cs = Some (Dir po pb (alter_entry c (on_entries (fun _ => [])) pes))) as L1.
  { unfold r1, alter. rewrite lookup_update_above, Lp. reflexivity. }
  unfold rmdir. rewrite Ecs, (drop_trailing_keeps cs c Nc), rev_app_distr. cbn [rev app].
  unfold parent_dir. rewrite rev_involutive.
  rewrite (walk_to_existing r1 cs [] _ Fcs L1). cbn [app]. rewrite L1.
  rewrite D, DD. cbn [orb]. rewrite lookup_entry_alter_entry, Lc. cbn [option_map on_entries].
  rewrite Wp. cbn [negb].
  rewrite removable_Dir in Rm. destruct b; [discriminate|].
  unfold r1, alter at 2. rewrite remove_after_update. reflexivity.
Qed.

(** *** Strings: components, [cut], [dirname] *)

Lemma split_on_not_nil (sep : N) (s : str) : split_on sep s <> [].
Proof.
  destruct s as [|c s]; cbn [split_on]; [discriminate|].
  destruct (split_on sep s); [discriminate|].
  destruct (c =? sep)%N; discriminate.
Qed.

Lemma components_cons_sep (b : str) :
  components (PosixPath.sep :: b) = [] :: components b.
Proof.
  unfold components. cbn [split_on].
  destruct (split_on PosixPath.sep b) eqn:E; [exfalso; eapply split_on_not_nil; eassumption|].
  rewrite N.eqb_refl. reflexivity.
Qed.

Lemma components_app_sep (a b : str) :
  components (a ++ PosixPath.sep :: b) = components a ++ components b.
Proof.
  induction a as [|c a IH].
  - cbn [app]. rewrite components_cons_sep. reflexivity.
  - unfold components in *. cbn [app split_on]. rewrite IH.
    destruct (split_on PosixPath.sep a) as [|w ws] eqn:E;
      [exfalso; eapply split_on_not_nil; eassumption|].
    cbn [app]. destruct (c =? PosixPath.sep)%N; reflexivity.
Qed.

Lemma components_no_sep (t : str) : no_sep t = true -> components t = [t].
Proof.
  unfold components. induction t as [|c t IH]; [reflexivity|].
  cbn [no_sep forallb]. intros H. apply andb_prop in H as [Hc Ht].
  cbn [split_on]. rewrite (IH Ht).
  unfold PosixPath.is_sep in Hc. destruct (c =? PosixPath.sep)%N; [discriminate|reflexivity].
Qed.

Lemma components_seps (s : str) :
  forallb PosixPath.is_sep s = true -> Forall (fun c => c = []) (components s).
Proof.
  induction s as [|c s IH]; intros H.
  - repeat constructor.
  - cbn [forallb] in H. apply andb_prop in H as [Hc Hs].
    unfold PosixPath.is_sep in Hc. apply N.eqb_eq in Hc. subst c.
    rewrite components_cons_sep. constructor; [reflexivity|apply IH; exact Hs].
Qed.

(** After separators and a last name: empty components, then the name. *)
Lemma components_seps_then (s t : str) :
  forallb PosixPath.is_sep s = true -> no_sep t = true ->
  exists mid, components (s ++ t) = mid ++ [t] /\ Forall (fun c => c = []) mid.
Proof.
  intros Hs Ht. induction s as [|c s IH].
  - exists []. split; [apply components_no_sep; exact Ht|constructor].
  - cbn [forallb] in Hs. apply andb_prop in Hs as [Hc Hs].
    unfold PosixPath.is_sep in Hc. apply N.eqb_eq in Hc. subst c.
    destruct (IH Hs) as (mid & E & F).
    exists ([] :: mid). cbn [app]. rewrite components_cons_sep, E.
    split; [reflexivity|constructor; [reflexivity|exact F]].
Qed.

Lemma cut_spec (p : str) :
  p = fst (PosixPath.cut p) ++ snd (PosixPath.cut p)
  /\ no_sep (snd (PosixPath.cut p)) = true
  /\ (fst (PosixPath.cut p) = [] \/ exists h', fst (PosixPath.cut p) = h' ++ [PosixPath.sep]).
Proof.
  induction p as [|c p (E & Ht & Hh)]; [repeat split; left; reflexivity|].
  cbn [PosixPath.cut]. destruct (PosixPath.cut p) as [h t] eqn:C. cbn [fst snd] in *.
  destruct h as [|x h].
  - cbn [app] in E. subst p.
    destruct (PosixPath.is_sep c) eqn:S; cbn [fst snd].
    + unfold PosixPath.is_sep in S. apply N.eqb_eq in S. subst c.
      repeat split; [exact Ht|right; exists []; reflexivity].
    + repeat split; [|left; reflexivity].
      cbn [no_sep forallb]. rewrite S. exact Ht.
  - cbn [fst snd]. repeat split; [cbn [app]; f_equal; exact E|exact Ht|].
    right. destruct Hh as [Hh|[h' Hh]]; [discriminate|].
    exists (c :: h'). cbn [app]. rewrite Hh. reflexivity.
Qed.

Lemma takewhile_dropwhile (f : N -> bool) (s : str) :
  s = takewhile f s ++ dropwhile f s.
Proof.
  induction s as [|c s IH]; [reflexivity|].
  cbn [takewhile dropwhile]. destruct (f c); [cbn; congruence|reflexivity].
Qed.

Lemma takewhile_all (f : N -> bool) (s : str) : forallb f (takewhile f s) = true.
Proof.
  induction s as [|c s IH]; [reflexivity|].
  cbn [takewhile]. destruct (f c) eqn:E; [cbn; rewrite E; exact IH|reflexivity].
Qed.

Lemma dropwhile_nil_all (f : N -> bool) (s : str) :
  dropwhile f s = [] -> forallb f s = true.
Proof.
  induction s as [|c s IH]; [reflexivity|].
  cbn [dropwhile forallb]. destruct (f c); [exact IH|discriminate].
Qed.

Lemma forallb_rev (f : N -> bool) (s : str) : forallb f (rev s) = forallb f s.
Proof.
  induction s as [|c s IH]; [reflexivity|].
  cbn [rev forallb]. rewrite forallb_app, IH. cbn [forallb].
  rewrite andb_true_r. apply andb_comm.
Qed.

(** [h.rstrip('/')] and what it drops. *)
Lemma rstrip_sep_spec (h : str) :
  exists seps, h = PosixPath.rstrip_sep h ++ seps
               /\ forallb PosixPath.is_sep seps = true.
Proof.
  exists (rev (takewhile PosixPath.is_sep (rev h))). split.
  - unfold PosixPath.rstrip_sep. rewrite <- rev_app_distr, <- takewhile_dropwhile.
    symmetry. apply rev_involutive.
  - rewrite forallb_rev. apply takewhile_all.
Qed.

Lemma rstrip_sep_not_nil (h : str) :
  forallb PosixPath.is_sep h = false -> PosixPath.rstrip_sep h <> [].
Proof.
  intros H E. unfold PosixPath.rstrip_sep in E.
  assert (dropwhile PosixPath.is_sep (rev h) = []) as D.
  { destruct (dropwhile PosixPath.is_sep (rev h)) as [|y l]; [reflexivity|].
    cbn [rev] in E. apply app_eq_nil in E as [_ E]. discriminate. }
  apply dropwhile_nil_all in D. rewrite forallb_rev in D. congruence.
Qed.

Lemma rstrip_sep_snoc (h' : str) :
  PosixPath.rstrip_sep (h' ++ [PosixPath.sep]) = PosixPath.rstrip_sep h'.
Proof.
  unfold PosixPath.rstrip_sep. rewrite rev_app_distr. cbn [rev app dropwhile].
  unfold PosixPath.is_sep at 1. rewrite N.eqb_refl. reflexivity.
Qed.

Lemma components_then_seps (h seps : str) :
  forallb PosixPath.is_sep seps = true ->
  exists post, components (h ++ seps) = components h ++ post
               /\ Forall (fun c => c = []) post.
Proof.
  intros F. destruct seps as [|c seps].
  - exists []. rewrite !app_nil_r. split; [reflexivity|constructor].
  - cbn [forallb] in F. apply andb_prop in F as [Hc F].
    unfold PosixPath.is_sep in Hc. apply N.eqb_eq in Hc. subst c.
    exists (components seps). split; [apply components_app_sep|apply components_seps; exact F].
Qed.

(** The components of a path whose head is not empty: those of
    [dirname], empty ones, the tail; or, when the head is made of slashes
    only, empty ones and the tail. *)
Lemma components_dirname (p : str) :
  fst (PosixPath.cut p) <> [] ->
  PosixPath.dirname p <> []
  /\ ((exists mid, components p
                   = components (PosixPath.dirname p) ++ mid ++ [snd (PosixPath.cut p)]
                   /\ Forall (fun c => c = []) mid)
      \/ (Forall (fun c => c = []) (components (PosixPath.dirname p))
          /\ exists mid, components p = mid ++ [snd (PosixPath.cut p)]
                         /\ Forall (fun c => c = []) mid)).
Proof.
  intros Hne. destruct (cut_spec p) as (E & Ht & Hh).
  unfold PosixPath.dirname.
  destruct Hh as [Hh|[h' Hh]]; [congruence|].
  set (t := snd (PosixPath.cut p)) in *.
  set (h0 := fst (PosixPath.cut p)) in *.
  clearbody h0 t.
  assert (PosixPath.trim_head h0
          = if forallb PosixPath.is_sep h0 then h0 else PosixPath.rstrip_sep h0) as ->
      by (destruct h0; [congruence|reflexivity]).
  destruct (forallb PosixPath.is_sep h0) eqn:A.
  - split; [exact Hne|]. right. split; [apply components_seps; exact A|].
    rewrite E. apply components_seps_then; assumption.
  - split; [apply rstrip_sep_not_nil; exact A|]. left.
    subst h0. rewrite rstrip_sep_snoc.
    destruct (rstrip_sep_spec h') as (seps & Es & Fs).
    destruct (components_then_seps (PosixPath.rstrip_sep h') seps Fs) as (post & Ep & Fp).
    exists post. split; [|exact Fp].
    rewrite E, <- app_assoc. cbn [app]. rewrite components_app_sep.
    rewrite Es at 1. rewrite Ep, (components_no_sep t Ht), <- app_assoc. reflexivity.
Qed.

(** *** Directories are kept *)

Lemma extends_refl (r : node) : extends r r.
Proof. intros l H. exact H. Qed.

Lemma extends_trans (r1 r2 r3 : node) :
  extends r3 r2 -> extends r2 r1 -> extends r3 r1.
Proof. intros A B l H. apply A, B, H. Qed.

Lemma update_absent (g : node -> node) (l : loc) : forall r : node,
  lookup r l = None -> update g l r = r.
Proof.
  induction l as [|c l IH]; intros r; cbn [lookup update]; [discriminate|].
  destruct r as [o x|o b es]; [reflexivity|].
  intros H. f_equal.
  induction es as [|[k n] es IHes]; [reflexivity|].
  cbn [lookup_entry alter_entry] in *. destruct (eqb k c).
  - rewrite (IH n H). reflexivity.
  - rewrite (IHes H). reflexivity.
Qed.

Lemma extends_update_at (g : node -> node) (l : loc) : forall r n0 : node,
  lookup r l = Some n0 -> extends (g n0) n0 -> extends (update g l r) r.
Proof.
  induction l as [|c l IH]; intros r n0 L G.
  - cbn in L. injection L as ->. exact G.
  - cbn [lookup] in L. destruct r as [o x|o b es]; [discriminate|].
    destruct (lookup_entry c es) as [m|] eqn:Lc; [|discriminate].
    intros l'. unfold is_dir_at. cbn [update].
    destruct l' as [|d t]; [reflexivity|]. cbn [lookup].
    destruct (list_eq_dec N.eq_dec d c) as [->|Nd].
    + rewrite lookup_entry_alter_entry, Lc. cbn [option_map].
      apply (IH m n0 L G t).
    + rewrite lookup_entry_alter_entry_other by exact Nd. intros H; exact H.
Qed.

Lemma extends_put_content (data : str) (l : loc) (r : node) :
  extends (update (put_content data) l r) r.
Proof.
  destruct (lookup r l) as [n0|] eqn:L.
  - eapply extends_update_at; [exact L|].
    destruct n0 as [o x|o b es]; [|apply extends_refl].
    intros l'. unfold is_dir_at. destruct l'; cbn; intros H; exact H.
  - rewrite update_absent by exact L. apply extends_refl.
Qed.

Lemma extends_add_entry (c : str) (n : node) (pl : loc) (r : node)
      (po : principal) (pb : bool) (pes : entries_t) :
  lookup r pl = Some (Dir po pb pes) ->
  lookup_entry c pes = None ->
  extends (alter (add_entry c n) pl r) r.
Proof.
  intros L A. unfold alter. eapply extends_update_at; [exact L|].
  intros l'. unfold is_dir_at. cbn [on_entries]. unfold add_entry.
  destruct l' as [|d t]; [reflexivity|]. cbn [lookup lookup_entry].
  destruct (eqb c d) eqn:E; [|intros H; exact H].
  apply str_eqb_eq in E. subst d. rewrite A. discriminate.
Qed.

Lemma walk_mono (r r' : node) (cs : list str) : extends r' r ->
  forall cur l : loc, walk r cur cs = inr l -> walk r' cur cs = inr l.
Proof.
  intros X. induction cs as [|c cs IH]; intros cur l; cbn [walk]; [intros H; exact H|].
  specialize (X cur). unfold is_dir_at in X.
  destruct (lookup r cur) as [[o x|o b es]|]; try discriminate.
  specialize (X eq_refl).
  destruct (lookup r' cur) as [[o' x'|o' b' es']|]; try discriminate.
  destruct (is_empty c || eqb c dot); [apply IH|].
  destruct (eqb c dotdot); apply IH.
Qed.

(** *** [stat] of the directory part *)

Lemma walk_first_dir (r : node) (cs : list str) (cur l : loc) :
  cs <> [] -> walk r cur cs = inr l -> is_dir_at r cur = true.
Proof.
  destruct cs as [|c cs]; [congruence|]. intros _. cbn [walk]. unfold is_dir_at.
  destruct (lookup r cur) as [[o x|o b es]|]; [discriminate|reflexivity|discriminate].
Qed.

Lemma walk_all_empty (r : node) (cs : list str) (cur : loc) :
  Forall (fun c => c = []) cs -> is_dir_at r cur = true -> walk r cur cs = inr cur.
Proof.
  intros F D. induction F as [|c cs -> _ IH]; [reflexivity|].
  cbn [walk]. unfold is_dir_at in D.
  destruct (lookup r cur) as [[o x|o b es]|]; try discriminate. exact IH.
Qed.

Lemma components_not_nil (p : str) : components p <> [].
Proof. apply split_on_not_nil. Qed.

(** When a path exists and has a directory part, that part is a
    directory. *)
Lemma stat_dirname (r : node) (p : str) :
  exists_ r p = true -> fst (PosixPath.cut p) <> [] ->
  isdir r (PosixPath.dirname p) = true.
Proof.
  intros X Hne. destruct (components_dirname p Hne) as (Nh & Hc).
  unfold exists_, stat, resolve in X. destruct p as [|x p]; [discriminate|].
  destruct (walk r [] (components (x :: p))) as [e|l] eqn:W; [discriminate|].
  unfold isdir, stat, resolve.
  destruct (PosixPath.dirname (x :: p)) as [|y h] eqn:Eh; [congruence|].
  destruct Hc as [(mid & Ec & Fm)|(Fh & mid & Ec & Fm)].
  - rewrite Ec, walk_app in W.
    destruct (walk r [] (components (y :: h))) as [e|l1] eqn:W1; [discriminate|].
    apply walk_first_dir in W; [|destruct mid; discriminate].
    unfold is_dir_at in W.
    destruct (lookup r l1) as [[o z|o b es]|]; try discriminate. reflexivity.
  - apply walk_first_dir in W; [|apply components_not_nil].
    rewrite (walk_all_empty r _ [] Fh W). unfold is_dir_at in W.
    destruct (lookup r []) as [[o z|o b es]|]; try discriminate. reflexivity.
Qed.

Lemma isdir_exists (r : node) (p : str) : isdir r p = true -> exists_ r p = true.
Proof.
  unfold isdir, exists_. destruct (stat r p) as [e|n]; [discriminate|reflexivity].
Qed.

(** *** [mkdir] on what exists, [makedirs] on a directory *)

Lemma mkdir_existing (r : node) (p : str) :
  exists_ r p = true -> exists e, mkdir r p = inl e.
Proof.
  unfold exists_, stat, resolve, mkdir. destruct p as [|x p]; [discriminate|].
  destruct (walk r [] (components (x :: p))) as [e|l] eqn:W; [discriminate|].
  destruct (lookup r l) as [n|] eqn:L; [intros _|discriminate].
  destruct (rev (drop_trailing_empty (components (x :: p)))) as [|c rparent] eqn:E;
    [eauto|].
  apply drop_trailing_last in E as [E Nc].
  destruct (components_trailing (components (x :: p))) as (post & Ecs & Fpost).
  rewrite E in Ecs. rewrite Ecs, <- app_assoc, walk_app in W.
  unfold parent_dir.
  destruct (walk r [] (rev rparent)) as [e|pl] eqn:Wp; [eauto|].
  cbn [app walk] in W.
  destruct (lookup r pl) as [[o z|po pb pes]|] eqn:Lp; [eauto| |eauto].
  destruct (eqb c dot || eqb c dotdot) eqn:D; [eauto|].
  apply orb_false_elim in D as [D DD]. rewrite D, DD in W.
  destruct c as [|y c]; [congruence|]. cbn [is_empty orb] in W.
  apply (walk_empties r post Fpost) in W. subst l.
  rewrite lookup_snoc, Lp in L. rewrite L. eauto.
Qed.

Lemma split_eq (p : str) :
  PosixPath.split p = (PosixPath.dirname p, snd (PosixPath.cut p)).
Proof.
  unfold PosixPath.split, PosixPath.dirname. destruct (PosixPath.cut p); reflexivity.
Qed.

Lemma dirname_not_nil (p : str) :
  PosixPath.dirname p <> [] -> fst (PosixPath.cut p) <> [].
Proof.
  unfold PosixPath.dirname. destruct (fst (PosixPath.cut p)); [intros H; exact H|discriminate].
Qed.

(** [os.makedirs(name, exist_ok=True)] on a directory that exists
    returns and changes nothing. *)
Lemma makedirs_existing (r : node) (name : str) (k : nat) :
  isdir r name = true -> makedirs_rec (S k) r name true = (None, r).
Proof.
  intros D. pose proof (isdir_exists r name D) as X.
  cbn [makedirs_rec]. rewrite split_eq.
  set (head0 := PosixPath.dirname name). set (tail0 := snd (PosixPath.cut name)).
  assert (head0 <> [] -> exists_ r head0 = true) as X0.
  { intros N. apply isdir_exists, stat_dirname; [exact X|apply dirname_not_nil; exact N]. }
  assert (forall head tail,
             (if is_empty tail0 then PosixPath.split head0 else (head0, tail0)) = (head, tail) ->
             head <> [] -> exists_ r head = true) as Xh.
  { intros head tail E N. destruct (is_empty tail0).
    - rewrite split_eq in E. injection E as <- _.
      apply isdir_exists, stat_dirname; [|apply dirname_not_nil; exact N].
      apply X0. intros Z. rewrite Z in N. apply N. reflexivity.
    - injection E as <- _. apply X0. exact N. }
  destruct (if is_empty tail0 then PosixPath.split head0 else (head0, tail0))
    as [head tail] eqn:E.
  assert (negb (is_empty head) && negb (is_empty tail) && negb (exists_ r head) = false) as ->.
  { destruct head as [|y head]; [reflexivity|].
    rewrite (Xh _ _ eq_refl) by discriminate. cbn. apply andb_false_r. }
  destruct (mkdir_existing r name X) as [e ->]. rewrite D. reflexivity.
Qed.

(** *** [open] and [write] *)

Lemma open_trunc_inv (r : node) (p : str) (r2 : node) (f : loc) :
  open_trunc r p = inr (r2, f) ->
  exists parent c pl po pb pes,
    p <> []
    /\ components p = parent ++ [c]
    /\ c <> [] /\ eqb c dot = false /\ eqb c dotdot = false
    /\ walk r [] parent = inr pl
    /\ lookup r pl = Some (Dir po pb pes)
    /\ f = pl ++ [c]
    /\ ((exists o old, lookup_entry c pes = Some (File o old)
                       /\ r2 = update (put_content []) (pl ++ [c]) r)
        \/ (lookup_entry c pes = None
            /\ r2 = alter (add_entry c (File Self [])) pl r)).
Proof.
  unfold open_trunc. destruct p as [|x p]; [discriminate|].
  destruct (rev (drop_trailing_empty (components (x :: p)))) as [|c rparent] eqn:E;
    [discriminate|].
  apply drop_trailing_last in E as [E Nc].
  unfold parent_dir.
  destruct (walk r [] (rev rparent)) as [e|pl] eqn:W; [discriminate|].
  destruct (lookup r pl) as [[o y|po pb pes]|] eqn:L; try discriminate.
  destruct (eqb c dot || eqb c dotdot
            || negb (Nat.eqb (length (drop_trailing_empty (components (x :: p))))
                             (length (components (x :: p))))) eqn:D;
    [discriminate|].
  apply orb_false_elim in D as [D Len]. apply orb_false_elim in D as [D DD].
  apply negb_false_iff, Nat.eqb_eq in Len.
  destruct (components_trailing (components (x :: p))) as (post & Ecs & _).
  assert (post = []) as ->.
  { apply (f_equal (@length str)) in Ecs. rewrite length_app in Ecs.
    destruct post; [reflexivity|]. cbn [length] in Ecs. lia. }
  rewrite app_nil_r, E in Ecs.
  intros H.
  exists (rev rparent), c, pl, po, pb, pes.
  split; [discriminate|]. split; [exact Ecs|]. split; [exact Nc|].
  split; [exact D|]. split; [exact DD|]. split; [exact W|]. split; [exact L|].
  destruct (lookup_entry c pes) as [[o old|o b es]|] eqn:Lc; try discriminate.
  - destruct (writable o); [|discriminate]. injection H as <- <-.
    split; [reflexivity|]. left. exists o, old. split; reflexivity.
  - destruct (writable po); [|discriminate]. injection H as <- <-.
    split; [reflexivity|]. right. split; reflexivity.
Qed.

Lemma lookup_alter_add (c : str) (n : node) (pl : loc) (r : node)
      (po : principal) (pb : bool) (pes : entries_t) :
  lookup r pl = Some (Dir po pb pes) ->
  lookup (alter (add_entry c n) pl r) (pl ++ [c]) = Some n.
Proof.
  intros L. rewrite lookup_snoc. unfold alter. rewrite lookup_update_same, L.
  cbn [option_map on_entries]. unfold add_entry. cbn [lookup_entry].
  rewrite str_eqb_refl. reflexivity.
Qed.

(** After [open(path, "w")] and [write(data)] the path names a regular
    file that holds [data], whatever it held before, and every directory
    is still there. *)
Lemma open_then_write (r : node) (p : str) (r2 : node) (f : loc) (data : str) :
  open_trunc r p = inr (r2, f) ->
  (exists o, stat (set_content data f r2) p = inr (File o data))
  /\ extends (set_content data f r2) r.
Proof.
  intros H.
  destruct (open_trunc_inv r p r2 f H)
    as (parent & c & pl & po & pb & pes & Np & Ecs & Nc & D & DD & W & Lp & -> & Hcase).
  assert (extends r2 r /\ exists o old, lookup r2 (pl ++ [c]) = Some (File o old))
    as [X2 (o & old & L2)].
  { destruct Hcase as [(o & old & Lc & ->)|(Lc & ->)].
    - split; [apply extends_put_content|].
      exists o, []. rewrite lookup_update_same, lookup_snoc, Lp, Lc. reflexivity.
    - split; [eapply extends_add_entry; eassumption|].
      exists Self, []. eapply lookup_alter_add. exact Lp. }
  assert (extends (set_content data (pl ++ [c]) r2) r) as X3.
  { eapply extends_trans; [apply extends_put_content|exact X2]. }
  split; [|exact X3].
  exists o. unfold stat, resolve. destruct p as [|x p]; [congruence|].
  rewrite Ecs, walk_app, (walk_mono _ _ parent X3 [] _ W).
  rewrite (walk_name _ _ c [] Nc D DD).
  pose proof (X3 pl) as Dpl. unfold is_dir_at in Dpl. rewrite Lp in Dpl.
  specialize (Dpl eq_refl).
  destruct (lookup (set_content data (pl ++ [c]) r2) pl) as [[? ?|? ? ?]|];
    try discriminate.
  cbn [walk]. unfold set_content. rewrite lookup_update_same, L2. reflexivity.
Qed.

(** *** [strip] *)

Lemma dropwhile_head (f : N -> bool) (s : str) (c : N) (t : str) :
  dropwhile f s = c :: t -> f c = false.
Proof.
  induction s as [|x s IH]; cbn [dropwhile]; [discriminate|].
  destruct (f x) eqn:E; [exact IH|]. intros H. injection H as <- _. exact E.
Qed.

Lemma rstrip_spec (s : str) :
  exists b, s = rstrip s ++ b /\ forallb isspace b = true.
Proof.
  exists (rev (takewhile isspace (rev s))). split.
  - unfold rstrip. rewrite <- rev_app_distr, <- takewhile_dropwhile.
    symmetry. apply rev_involutive.
  - rewrite forallb_rev. apply takewhile_all.
Qed.

(** [strip] drops white space at both ends, and only that; what is left
    neither starts nor ends with white space. *)
Lemma strip_spec (s : str) :
  (exists a b, s = a ++ strip s ++ b
               /\ forallb isspace a = true /\ forallb isspace b = true)
  /\ (forall c t, strip s = c :: t -> isspace c = false)
  /\ (forall c t, strip s = t ++ [c] -> isspace c = false).
Proof.
  unfold strip, lstrip.
  destruct (rstrip_spec (dropwhile isspace s)) as (b & Eb & Fb).
  split; [|split].
  - exists (takewhile isspace s), b. split; [|split; [apply takewhile_all|exact Fb]].
    rewrite <- Eb. apply takewhile_dropwhile.
  - intros c t E. rewrite E in Eb. cbn [app] in Eb.
    eapply dropwhile_head. exact Eb.
  - intros c t E. unfold rstrip in E.
    apply (f_equal (@rev N)) in E. rewrite rev_involutive, rev_app_distr in E.
    cbn [rev app] in E. eapply dropwhile_head. exact E.
Qed.

(** ** The monad and the log *)

Lemma printed_app (a b : list event) : printed (a ++ b) = printed a ++ printed b.
Proof.
  induction a as [|ev a IH]; simpl; [reflexivity|].
  destruct ev; simpl; rewrite IH; reflexivity.
Qed.

Lemma stdout_emit_print (w : world) (s : str) :
  stdout (emit (EvPrint s) w) = stdout w ++ [s].
Proof. unfold stdout, history, emit. simpl. rewrite printed_app. reflexivity. Qed.

Lemma printed_map_print (d : list str) : printed (map EvPrint d) = d.
Proof. induction d as [|x d IH]; simpl; [|rewrite IH]; reflexivity. Qed.

Lemma printed_prints_then (d : list str) (l : list event) :
  printed (rev (map EvPrint (rev d) ++ l)) = printed (rev l) ++ d.
Proof.
  rewrite rev_app_distr, printed_app, <- map_rev, rev_involutive, printed_map_print.
  reflexivity.
Qed.

Lemma bind_ok {A B} (m : M A) (k : A -> M B) (w w1 : world) (a : A) :
  m w = (Ok a, w1) -> bind m k w = k a w1.
Proof. intros H. unfold bind. rewrite H. reflexivity. Qed.

Lemma bind_raise {A B} (m : M A) (k : A -> M B) (w w1 : world) (e : exn) :
  m w = (Raise e, w1) -> bind m k w = (Raise e, w1).
Proof. intros H. unfold bind. rewrite H. reflexivity. Qed.

(** ** [clean_directory], case by case *)

Lemma clean_directory_absent (path : str) (w : world) :
  exists_ (root w) path = false ->
  clean_directory path w = (Ok tt, World (root w) (EvExists path :: log w)).
Proof.
  intros H. unfold clean_directory, bind, os_path_exists. rewrite H. reflexivity.
Qed.

Ltac run_clean H R :=
  unfold clean_directory, bind, os_path_exists; rewrite H;
  unfold try_except, shutil_rmtree, lift; simpl; rewrite R.

Lemma clean_directory_removed (path : str) (w : world) (r1 : node) :
  exists_ (root w) path = true ->
  rmtree (root w) path = (None, r1) ->
  clean_directory path w
  = (Ok tt, World r1 (EvRmtree path :: EvExists path :: log w)).
Proof. intros H R. run_clean H R. reflexivity. Qed.

Lemma clean_directory_blocked (path : str) (w : world) (r1 : node) :
  blocked (root w) path r1 ->
  clean_directory path w
  = (Raise (SystemExit 1), World r1 (blocked_log path (log w))).
Proof. intros [H R]. run_clean H R. reflexivity. Qed.

Lemma clean_directory_other (path : str) (w : world) (e : exn) (r1 : node) :
  exists_ (root w) path = true ->
  rmtree (root w) path = (Some e, r1) ->
  is_PermissionError e = false ->
  clean_directory path w
  = (Raise e, World r1 (EvRmtree path :: EvExists path :: log w)).
Proof. intros H R P. run_clean H R. rewrite P. reflexivity. Qed.

Lemma setup_blocked (v : variant) (w : world) (r1 : node) :
  blocked (root w) (base v) r1 ->
  setup v w = (Raise (SystemExit 1), World r1 (blocked_log (base v) (log w))).
Proof.
  intros B.
  destruct v; unfold setup, setup_spring_project, setup_servlet_project;
    simpl base in B; apply bind_raise; apply clean_directory_blocked; exact B.
Qed.

Lemma sudo_world_blocked : blocked (root sudo_world) Spring.base sudo_world_after.
Proof. split; vm_compute; reflexivity. Qed.

(** ** C3: a blocked reset stops the whole run *)

(** C3.  When the reset of the output root of a variant is blocked by a
    permission error, [setup] of that variant raises [SystemExit 1] and
    the only calls it has made are the test of existence, the removal and
    the four prints: no call of [create_file] (no [makedirs], [open] or
    [write]) has run.  When the blocked variant is the Spring variant, the
    first of [main], the whole run ends there, so the Servlet variant is
    never started; when it is the Servlet variant, the run ends there
    too. *)
Theorem C3_blocked_reset_stops_run (v : variant) (w : world) (r1 : node) :
  blocked (root w) (base v) r1 ->
  let w' := World r1 (blocked_log (base v) (log w)) in
  setup v w = (Raise (SystemExit 1), w')
  /\ (exists new, log w' = new ++ log w
                  /\ Forall (fun ev => is_create_event ev = false) new)
  /\ (v = VSpring -> main w = (Raise (SystemExit 1), w'))
  /\ (v = VServlet ->
      forall w0, setup VSpring w0 = (Ok tt, w) ->
                 main w0 = (Raise (SystemExit 1), w')).
Proof.
  intros B w'. split; [apply setup_blocked; exact B|]. split; [|split].
  - exists (map EvPrint (rev (diagnostic (base v))) ++ [EvRmtree (base v); EvExists (base v)]).
    split.
    + unfold w', blocked_log. simpl log. rewrite <- app_assoc. reflexivity.
    + simpl. repeat constructor.
  - intros ->. unfold main. apply bind_raise. apply (setup_blocked VSpring). exact B.
  - intros -> w0 H0. unfold main. rewrite (bind_ok _ _ _ _ _ H0).
    apply bind_raise. apply (setup_blocked VServlet). exact B.
Qed.

Lemma C3_witness :
  blocked (root sudo_world) (base VSpring) sudo_world_after
  /\ main sudo_world
     = (Raise (SystemExit 1),
        World sudo_world_after (blocked_log Spring.base [])).
Proof.
  split; [exact sudo_world_blocked|].
  exact (proj1 (proj2 (proj2 (C3_blocked_reset_stops_run VSpring sudo_world
                                sudo_world_after sudo_world_blocked))) eq_refl).
Defined.

(** ** C4: the diagnostic of a blocked reset *)

(** C4, as claimed, fails: the exit status of a blocked reset is not a
    distinguished one.  The run that a blocked reset ends and a run that
    another exception ends (here the [OSError] of a removal that meets a
    mount point, which nothing catches and for which no diagnostic is
    printed) have the same exit status. *)
Lemma C4_exit_status_not_distinguished :
  ~ (forall (w w' : world) (e : exn),
        fst (main w) = Raise (SystemExit 1) ->
        fst (main w') = Raise e ->
        e <> SystemExit 1 ->
        exit_status (fst (main w)) <> exit_status (fst (main w'))).
Proof.
  intros H. apply (H sudo_world mount_world OSError).
  - vm_compute. reflexivity.
  - vm_compute. reflexivity.
  - discriminate.
  - vm_compute. reflexivity.
Qed.

(** C4, amended.  When [shutil.rmtree] stops on a permission error on an
    existing path, [clean_directory] prints four lines and nothing else:
    the first names the path between quotes, the second gives the cause
    (a previous build run with [sudo], files owned by root), the last is
    the command [sudo rm -rf] followed by the path; then it raises
    [SystemExit 1], so the exit status is 1, not the 0 of a run that
    returns.  That status is not a distinguished one: it is the status of
    a run that any exception other than [SystemExit] ends. *)
Theorem C4_blocked_reset_diagnostic (path : str) (w : world) (r1 : node) :
  blocked (root w) path r1 ->
  exists w',
    clean_directory path w = (Raise (SystemExit 1), w')
    /\ root w' = r1
    /\ stdout w' = stdout w ++ diagnostic path
    /\ diagnostic path
       = [ nl ++ lit "❌ ERROR: Permission denied while removing '" ++ path ++ lit "'.";
           lit "   REASON: The previous build was run with 'sudo', so the files are owned by Root.";
           lit "   FIX: Please run this command to clean up, then try again:";
           lit "        sudo rm -rf " ++ path ++ nl ]
    /\ exit_status (fst (clean_directory path w)) = 1%N
    /\ exit_status (Ok tt) <> exit_status (fst (clean_directory path w))
    /\ (forall e : exn,
          (forall n : N, e <> SystemExit n) ->
          exit_status (@Raise unit e) = exit_status (fst (clean_directory path w))).
Proof.
  intros B. rewrite (clean_directory_blocked _ _ _ B).
  eexists. split; [reflexivity|]. split; [reflexivity|]. split; [|split; [reflexivity|]].
  - unfold stdout, history, blocked_log. cbn [log].
    rewrite printed_prints_then. f_equal. cbn [rev]. rewrite !printed_app.
    cbn [printed]. rewrite !app_nil_r. reflexivity.
  - split; [reflexivity|]. split; [simpl; discriminate|].
    intros e Ne. destruct e; try reflexivity. exfalso. apply (Ne code). reflexivity.
Qed.

Lemma C4_witness :
  blocked (root sudo_world) Spring.base sudo_world_after
  /\ exists w',
      clean_directory Spring.base sudo_world = (Raise (SystemExit 1), w')
      /\ root w' = sudo_world_after
      /\ stdout w' = stdout sudo_world ++ diagnostic Spring.base.
Proof.
  split; [exact sudo_world_blocked|].
  destruct (C4_blocked_reset_diagnostic Spring.base sudo_world sudo_world_after
              sudo_world_blocked)
    as (w' & H1 & H2 & H3 & _).
  exists w'. repeat split; assumption.
Defined.

(** ** C9: errors other than a permission error are not handled *)

Lemma file_world_rmtree :
  exists_ (root file_world) Spring.base = true
  /\ rmtree (root file_world) Spring.base = (Some NotADirectoryError, root file_world).
Proof. split; vm_compute; reflexivity. Qed.

(** An error of the input and output during the recursive removal: the
    directory to remove is a mount point. *)
Lemma mount_world_rmtree :
  exists_ (root mount_world) Spring.base = true
  /\ rmtree (root mount_world) Spring.base = (Some OSError, root mount_world).
Proof. split; vm_compute; reflexivity. Qed.

(** C9.  When [shutil.rmtree] fails on an existing path with an exception
    that is not [PermissionError], [clean_directory] raises that very
    exception: the handler does not run, nothing is printed (neither the
    line that names the path nor the command), and the exception is not
    turned into [SystemExit]. *)
Theorem C9_other_errors_propagate (path : str) (w : world) (e : exn) (r1 : node) :
  exists_ (root w) path = true ->
  rmtree (root w) path = (Some e, r1) ->
  e <> PermissionError ->
  exists w',
    clean_directory path w = (Raise e, w')
    /\ root w' = r1
    /\ log w' = EvRmtree path :: EvExists path :: log w
    /\ stdout w' = stdout w.
Proof.
  intros H R P.
  assert (is_PermissionError e = false) as P' by (destruct e; try reflexivity; congruence).
  rewrite (clean_directory_other _ _ _ _ H R P').
  eexists. split; [reflexivity|]. split; [reflexivity|]. split; [reflexivity|].
  unfold stdout, history. cbn [log rev]. rewrite !printed_app. cbn [printed].
  rewrite !app_nil_r. reflexivity.
Qed.

(** The path is a regular file: [NotADirectoryError] reaches the caller. *)
Lemma C9_witness :
  exists w',
    clean_directory Spring.base file_world = (Raise NotADirectoryError, w')
    /\ root w' = root file_world
    /\ log w' = EvRmtree Spring.base :: EvExists Spring.base :: log file_world
    /\ stdout w' = stdout file_world.
Proof.
  apply (C9_other_errors_propagate Spring.base file_world _ _
           (proj1 file_world_rmtree) (proj2 file_world_rmtree)).
  discriminate.
Defined.

(** A mount point below the path: [OSError] reaches the caller, and [main]
    ends with it. *)
Lemma mount_world_main :
  exists w', main mount_world = (Raise OSError, w') /\ stdout w' = [].
Proof.
  eexists. split.
  - unfold main, setup_spring_project. apply bind_raise, bind_raise.
    apply (clean_directory_other Spring.base mount_world OSError _
             (proj1 mount_world_rmtree) (proj2 mount_world_rmtree)).
    reflexivity.
  - reflexivity.
Qed.

(** ** C10: a path with no directory part *)

Lemma makedirs_empty_name (r : node) :
  makedirs r [] true = (Some FileNotFoundError, r).
Proof. reflexivity. Qed.

(** C10.  [create_file] on a path whose [dirname] is empty raises
    [FileNotFoundError] from [os.makedirs], before the file is opened: the
    tree is as before and the only call made is that of [os.makedirs] on
    the empty name.  Every path of the two manifests has a [dirname] that
    is not empty. *)
Theorem C10_no_directory_part (path content : str) (w : world) :
  PosixPath.dirname path = [] ->
  create_file path content w
  = (Raise FileNotFoundError, World (root w) (EvMakedirs [] :: log w))
  /\ Forall (fun p => PosixPath.dirname p <> [])
            (paths VSpring ++ paths VServlet).
Proof.
  intros H. split.
  - unfold create_file. apply bind_raise. unfold os_makedirs, lift.
    rewrite H, makedirs_empty_name. reflexivity.
  - each_entry ltac:(vm_compute; discriminate).
Qed.

Lemma C10_witness :
  PosixPath.dirname (lit "pom.xml") = []
  /\ create_file (lit "pom.xml") Spring.pom empty_world
     = (Raise FileNotFoundError,
        World (root empty_world) (EvMakedirs [] :: log empty_world)).
Proof.
  split; [reflexivity|].
  exact (proj1 (C10_no_directory_part (lit "pom.xml") Spring.pom empty_world eq_refl)).
Defined.

(** ** The manifests are what the source writes *)

Lemma bind_ret_tt (m : M unit) (w : world) : bind m (fun _ => ret tt) w = m w.
Proof.
  unfold bind, ret. destruct (m w) as [[[]|e] w1]; reflexivity.
Qed.

Lemma bind_assoc {A B C} (m : M A) (k : A -> M B) (h : B -> M C) (w : world) :
  bind (bind m k) h w = bind m (fun a => bind (k a) h) w.
Proof.
  unfold bind. destruct (m w) as [[a|e] w1]; reflexivity.
Qed.

Lemma bind_ext {A B} (m : M A) (k k' : A -> M B) (w : world) :
  (forall a w1, k a w1 = k' a w1) -> bind m k w = bind m k' w.
Proof.
  intros H. unfold bind. destruct (m w) as [[a|e] w1]; [apply H|reflexivity].
Qed.

(** [setup] of a variant resets the output root, prints the banner and
    calls [create_file] on the entries of the manifest, in their order. *)
Lemma setup_by_manifest (v : variant) (w : world) :
  setup v w
  = (clean_directory (base v) ;; print (banner v) ;; write_all (manifest v)) w.
Proof.
  destruct v; unfold setup, setup_spring_project, setup_servlet_project;
    cbn [manifest write_all base banner];
    repeat (apply bind_ext; intros);
    symmetry; apply bind_ret_tt.
Qed.

(** ** C1: one port in all the artifacts of a variant *)

(** C1.  In every artifact of a variant, every port that the text refers
    to is the port of the variant.  File by file, in the order of the
    manifest: the Spring variant has no port in [pom.xml], 8080 once in
    [application.properties], once in [Application.java], four times in
    [control.sh] (the comment, the kill, the poll, the URL) and once in
    [install_service.sh]; the Servlet variant has 8081 once in the plugin
    block of [pom.xml], once in [HelloServlet.java], four times in
    [control.sh], never in [web.xml] and once in [install_service.sh]. *)
Theorem C1_port_consistency :
  (forall v,
     Forall (fun a => Forall (eq (fixed_port v)) (port_occurrences (snd a)))
            (artifacts v))
  /\ map (fun a => port_occurrences (snd a)) (artifacts VSpring)
     = [ []; [8080]; [8080]; [8080; 8080; 8080; 8080]; [8080] ]%N
  /\ map (fun a => port_occurrences (snd a)) (artifacts VServlet)
     = [ [8081]; [8081]; [8081; 8081; 8081; 8081]; []; [8081] ]%N
  /\ port_of_properties (strip Spring.props) = Some (fixed_port VSpring)
  /\ port_of_tomcat_plugin (strip Servlet.pom) = Some (fixed_port VServlet).
Proof.
  assert (map (fun a => port_occurrences (snd a)) (artifacts VSpring)
          = [ []; [8080]; [8080]; [8080; 8080; 8080; 8080]; [8080] ]%N) as HA
      by (vm_compute; reflexivity).
  assert (map (fun a => port_occurrences (snd a)) (artifacts VServlet)
          = [ [8081]; [8081]; [8081; 8081; 8081; 8081]; []; [8081] ]%N) as HB
      by (vm_compute; reflexivity).
  split; [|split; [exact HA|split; [exact HB|split; vm_compute; reflexivity]]].
  intros v. apply Forall_forall. intros a Ha.
  apply (in_map (fun a => port_occurrences (snd a))) in Ha.
  destruct v; [rewrite HA in Ha|rewrite HB in Ha]; cbn [fixed_port];
    simpl in Ha;
    repeat (destruct Ha as [<- | Ha]; [repeat constructor|]);
    contradiction.
Qed.

(** The numbers of the port range that stand right after a slash, which
    [port_occurrences] leaves out: the year in the namespace
    [http://www.w3.org/2001/XMLSchema-instance] of the two [pom.xml]. *)
Lemma path_segment_numbers_of_artifacts :
  map (fun a => path_segment_numbers (snd a)) (artifacts VSpring)
  = [ [2001]; []; []; []; [] ]%N
  /\ map (fun a => path_segment_numbers (snd a)) (artifacts VServlet)
     = [ [2001]; []; []; []; [] ]%N.
Proof. split; vm_compute; reflexivity. Qed.

(** ** C2: where the port is declared *)

(** C2, as claimed, fails: the number 8080 is not written anywhere in the
    [pom.xml] of the Spring variant. *)
Lemma C2_spring_pom_has_no_port :
  ~ (forall v, In (fixed_port v) (numbers (pom_xml v))).
Proof.
  intros H. specialize (H VSpring). vm_compute in H.
  repeat (destruct H as [H|H]; [discriminate H|]). exact H.
Qed.

(** C2, amended.  The [pom.xml] of the Servlet variant declares the port
    8081 in the [<port>] element of the configuration of
    [tomcat7-maven-plugin].  The [pom.xml] of the Spring variant declares
    no port: it holds neither the number 8080 nor the word [port]; the
    port of that variant is declared by [application.properties], whose
    whole text is [server.port=8080]. *)
Theorem C2_port_declaration :
  port_of_tomcat_plugin (pom_xml VServlet) = Some (fixed_port VServlet)
  /\ port_occurrences (pom_xml VSpring) = []
  /\ ~ In (fixed_port VSpring) (numbers (pom_xml VSpring))
  /\ contains (pom_xml VSpring) (lit "port") = false
  /\ strip Spring.props = lit "server.port=8080"
  /\ port_of_properties (strip Spring.props) = Some (fixed_port VSpring).
Proof.
  split; [vm_compute; reflexivity|]. split; [vm_compute; reflexivity|].
  split; [|split; [vm_compute; reflexivity|split; vm_compute; reflexivity]].
  intros H. vm_compute in H.
  repeat (destruct H as [H|H]; [discriminate H|]). exact H.
Qed.

(** ** C8: the two variants do not meet *)

(** C8.  The two ports differ and the two output roots differ; every path
    of a manifest starts with the output root of its variant, so no path
    of one manifest is a path of the other; and no artifact of a variant
    refers to the port of the other. *)
Theorem C8_variants_disjoint :
  fixed_port VSpring = 8080%N /\ fixed_port VServlet = 8081%N
  /\ fixed_port VSpring <> fixed_port VServlet
  /\ base VSpring = lit "my-spring-app" /\ base VServlet = lit "my-servlet-app"
  /\ base VSpring <> base VServlet
  /\ (forall v, Forall (fun p => first_component p = base v) (paths v))
  /\ Forall (fun p => ~ In p (paths VServlet)) (paths VSpring)
  /\ Forall (fun a => ~ In (fixed_port VServlet) (port_occurrences (snd a)))
            (artifacts VSpring)
  /\ Forall (fun a => ~ In (fixed_port VSpring) (port_occurrences (snd a)))
            (artifacts VServlet).
Proof.
  split; [reflexivity|]. split; [reflexivity|]. split; [discriminate|].
  split; [reflexivity|]. split; [reflexivity|]. split; [discriminate|].
  split; [intros [|]; each_entry ltac:(vm_compute; reflexivity)|].
  split; [|split];
    each_entry ltac:(intros H; vm_compute in H;
                     repeat (destruct H as [H|H]; [discriminate H|]); exact H).
Qed.

(** ** C5: the reset is an idempotent removal *)

(** The tree [clean_directory] leaves, whatever its outcome. *)
Lemma clean_directory_root (path : str) (w : world) :
  root (snd (clean_directory path w))
  = if exists_ (root w) path then snd (rmtree (root w) path) else root w.
Proof.
  destruct (exists_ (root w) path) eqn:X.
  - destruct (rmtree (root w) path) as [[e|] r1] eqn:R.
    + destruct (is_PermissionError e) eqn:P.
      * destruct e; try discriminate P.
        rewrite (clean_directory_blocked path w r1 (conj X R)). reflexivity.
      * rewrite (clean_directory_other path w e r1 X R P). reflexivity.
    + rewrite (clean_directory_removed path w r1 X R). reflexivity.
  - rewrite (clean_directory_absent path w X). reflexivity.
Qed.

Lemma clean_directory_ok_inv (path : str) (w w' : world) :
  exists_ (root w) path = true ->
  clean_directory path w = (Ok tt, w') ->
  rmtree (root w) path = (None, root w').
Proof.
  intros X H. destruct (rmtree (root w) path) as [[e|] r1] eqn:R.
  - destruct (is_PermissionError e) eqn:P.
    + destruct e; try discriminate P.
      rewrite (clean_directory_blocked path w r1 (conj X R)) in H. discriminate.
    + rewrite (clean_directory_other path w e r1 X R P) in H. discriminate.
  - rewrite (clean_directory_removed path w r1 X R) in H. injection H as <-. reflexivity.
Qed.

(** C5.  [clean_directory path]:
    - when the path does not exist, returns at once: the tree is as
      before and nothing is printed (the only call is the test);
    - when it returns on a path that exists, the path does not exist any
      more, nothing is left at its place or below it, and every place
      that is neither below nor above it holds what it held;
    - does return when the path is made of ordinary names and leads to a
      removable directory in a directory of the process, and then the
      tree is the one with that entry removed;
    - run a second time, whatever the outcome of the first run, leaves
      the tree the first run left. *)
Theorem C5_reset_idempotent (path : str) (w : world) :
  (exists_ (root w) path = false ->
   clean_directory path w = (Ok tt, World (root w) (EvExists path :: log w)))
  /\ (forall w',
        exists_ (root w) path = true ->
        clean_directory path w = (Ok tt, w') ->
        exists l,
          resolve (root w) path = inr l
          /\ exists_ (root w') path = false
          /\ (forall l', lookup (root w') (l ++ l') = None)
          /\ (forall l', ~ is_prefix l l' -> ~ is_prefix l' l ->
                         lookup (root w') l' = lookup (root w) l'))
  /\ (forall (cs : list str) (c : str) (po : principal) (pb : bool) (pes : entries_t)
             (o : principal) (b : bool) (es : entries_t),
        path <> [] ->
        components path = cs ++ [c] ->
        forallb normal_name (cs ++ [c]) = true ->
        lookup (root w) cs = Some (Dir po pb pes) ->
        writable po = true ->
        lookup_entry c pes = Some (Dir o b es) ->
        removable (Dir o b es) = true ->
        clean_directory path w
        = (Ok tt, World (alter (remove_entry c) cs (root w))
                        (EvRmtree path :: EvExists path :: log w)))
  /\ root (snd (clean_directory path (snd (clean_directory path w))))
     = root (snd (clean_directory path w)).
Proof.
  split; [apply clean_directory_absent|]. split; [|split].
  - intros w' X H. apply (rmtree_removed (root w) path (root w')).
    apply clean_directory_ok_inv; assumption.
  - intros cs c po pb pes o b es Np Ecs F Lp Wp Lc Rm.
    assert (lookup (root w) (cs ++ [c]) = Some (Dir o b es)) as L
        by (rewrite lookup_snoc, Lp; exact Lc).
    apply clean_directory_removed.
    + unfold exists_, stat, resolve. destruct path as [|x path]; [congruence|].
      rewrite Ecs, (walk_to_existing (root w) (cs ++ [c]) [] _ F L). cbn [app].
      rewrite L. reflexivity.
    + eapply rmtree_ok; eassumption.
  - rewrite !clean_directory_root.
    destruct (exists_ (root w) path) eqn:X.
    + destruct (exists_ (snd (rmtree (root w) path)) path); [apply rmtree_again|reflexivity].
    + rewrite X. reflexivity.
Qed.

Lemma C5_witness :
  clean_directory Spring.base stale_world
  = (Ok tt, World (Dir Self false [ (lit "README.md", File Self (lit "notes")) ])
                  [EvRmtree Spring.base; EvExists Spring.base])
  /\ clean_directory Spring.base empty_world
     = (Ok tt, World (root empty_world) [EvExists Spring.base]).
Proof.
  split.
  - exact (proj1 (proj2 (proj2 (C5_reset_idempotent Spring.base stale_world)))
             [] Spring.base Self false _ Self false _
             ltac:(discriminate) eq_refl eq_refl eq_refl eq_refl eq_refl eq_refl).
  - exact (proj1 (C5_reset_idempotent Spring.base empty_world) eq_refl).
Defined.

(** ** C6: what [create_file] writes *)

Lemma create_file_inv (path content : str) (w w' : world) :
  create_file path content w = (Ok tt, w') ->
  exists r1 r2 f,
    makedirs (root w) (PosixPath.dirname path) true = (None, r1)
    /\ open_trunc r1 path = inr (r2, f)
    /\ w' = World (set_content (strip content) f r2) (create_log path content (log w)).
Proof.
  unfold create_file, bind, os_makedirs, lift, open_w, f_write, print, emit.
  destruct (makedirs (root w) (PosixPath.dirname path) true) as [[e|] r1] eqn:Hm;
    [discriminate|].
  cbn [root log].
  destruct (open_trunc r1 path) as [e|[r2 f]] eqn:Ho; [discriminate|].
  cbn [root log]. intros H. injection H as <-.
  exists r1, r2, f. split; [reflexivity|]. split; [exact Ho|reflexivity].
Qed.

Lemma create_file_ok (path content : str) (w : world) (r1 r2 : node) (f : loc) :
  makedirs (root w) (PosixPath.dirname path) true = (None, r1) ->
  open_trunc r1 path = inr (r2, f) ->
  create_file path content w
  = (Ok tt, World (set_content (strip content) f r2) (create_log path content (log w))).
Proof.
  intros Hm Ho.
  unfold create_file, bind, os_makedirs, lift, open_w, f_write, print, emit.
  rewrite Hm. cbn [root log]. rewrite Ho. reflexivity.
Qed.

Lemma stdout_create_log (path content : str) (r r' : node) (lg : list event) :
  stdout (World r' (create_log path content lg))
  = stdout (World r lg) ++ [generated_line path].
Proof.
  unfold stdout, history, create_log. cbn [log rev].
  rewrite !printed_app. cbn [printed]. rewrite !app_nil_r. reflexivity.
Qed.

(** C6.  [create_file path content]:
    - when it returns, [path] names a regular file whose text is
      [content.strip()], whatever the file held before, its directory part
      is a directory, and one line was printed, which names the path;
    - when the directory part of [path] is a directory already,
      [os.makedirs] returns without a change of the tree, and the call
      returns as soon as the file can be opened for writing;
    - [content.strip()] is [content] less white space at its two ends,
      and neither starts nor ends with white space. *)
Theorem C6_create_file_writes_stripped (path content : str) (w : world) :
  (forall w',
      create_file path content w = (Ok tt, w') ->
      (exists o, stat (root w') path = inr (File o (strip content)))
      /\ isdir (root w') (PosixPath.dirname path) = true
      /\ stdout w' = stdout w ++ [lit "✅ Generated: " ++ path])
  /\ (isdir (root w) (PosixPath.dirname path) = true ->
      makedirs (root w) (PosixPath.dirname path) true = (None, root w)
      /\ forall r2 f,
          open_trunc (root w) path = inr (r2, f) ->
          create_file path content w
          = (Ok tt, World (set_content (strip content) f r2)
                          (create_log path content (log w))))
  /\ (exists a b, content = a ++ strip content ++ b
                  /\ forallb isspace a = true /\ forallb isspace b = true)
  /\ (forall c t, strip content = c :: t -> isspace c = false)
  /\ (forall c t, strip content = t ++ [c] -> isspace c = false).
Proof.
  split; [|split; [|apply strip_spec]].
  - intros w' H.
    destruct (create_file_inv path content w w' H) as (r1 & r2 & f & Hm & Ho & ->).
    destruct (open_then_write r1 path r2 f (strip content) Ho) as [(o & St) _].
    cbn [root]. split; [exists o; exact St|]. split.
    + apply stat_dirname.
      * unfold exists_. rewrite St. reflexivity.
      * apply dirname_not_nil. intros Z. rewrite Z, makedirs_empty_name in Hm.
        discriminate.
    + destruct w as [r lg]. apply stdout_create_log.
  - intros D.
    assert (makedirs (root w) (PosixPath.dirname path) true = (None, root w)) as Hm
        by (apply makedirs_existing; exact D).
    split; [exact Hm|]. intros r2 f Ho. apply (create_file_ok path content w _ _ _ Hm Ho).
Qed.

Lemma C6_witness :
  isdir (root out_world) (PosixPath.dirname (lit "out/a.txt")) = true
  /\ create_file (lit "out/a.txt") (lit "   new text
   ") out_world
     = (Ok tt,
        World (Dir Self false
                 [ (lit "out", Dir Self false [ (lit "a.txt", File Self (lit "new text")) ]) ])
              (create_log (lit "out/a.txt") (lit "new text") [])).
Proof.
  split; [reflexivity|].
  exact (proj2 (proj1 (proj2 (C6_create_file_writes_stripped
                                (lit "out/a.txt") (lit "   new text
   ") out_world)) eq_refl) _ _ eq_refl).
Defined.

(** ** C7: preliminaries *)

Lemma cut_no_sep (c : str) : no_sep c = true -> PosixPath.cut c = ([], c).
Proof.
  induction c as [|x c IH]; [reflexivity|].
  cbn [no_sep forallb]. intros H. apply andb_prop in H as [Hx Hc].
  cbn [PosixPath.cut]. rewrite (IH Hc).
  destruct (PosixPath.is_sep x); [discriminate|reflexivity].
Qed.

Lemma makedirs_top (c : str) (b : bool) (es : entries_t) :
  simple_name c = true ->
  lookup_entry c es = None ->
  makedirs (Dir Self b es) c true = (None, Dir Self b ((c, Dir Self false []) :: es)).
Proof.
  intros S A. apply andb_prop in S as [Sn Sc].
  destruct (normal_name_inv c Sc) as (Nc & D & DD).
  unfold makedirs. cbn [makedirs_rec]. unfold PosixPath.split.
  rewrite (cut_no_sep c Sn). cbn [PosixPath.trim_head].
  destruct c as [|x c]; [congruence|]. cbn [is_empty negb andb].
  unfold mkdir. fold (components (x :: c)). rewrite (components_no_sep (x :: c) Sn).
  cbn [drop_trailing_empty rev app drop_empty is_empty parent_dir walk lookup].
  rewrite D, DD, A. reflexivity.
Qed.

Lemma generate_fresh (v : variant) (b : bool) (es : entries_t) (lg : list event) :
  lookup_entry (base v) es = None ->
  (print (banner v) ;; write_all (manifest v)) (World (Dir Self b es) lg)
  = (Ok tt, World (Dir Self b ((base v, generated v) :: es)) (gen_log v lg)).
Proof.
  intros A. 
  unfold bind at 1. unfold print at 1, emit. cbn [root log].
  destruct v; cbn [manifest write_all base] in *.
  - rewrite (bind_ok _ _ _ _ _
       (create_file_ok (Spring.base ++ lit "/pom.xml") Spring.pom
          (World (Dir Self b es) (EvPrint (banner VSpring) :: lg))
          (Dir Self b ((Spring.base, Dir Self false []) :: es))
          (Dir Self b ((Spring.base, Dir Self false [(lit "pom.xml", File Self [])]) :: es))
          [Spring.base; lit "pom.xml"]
          (makedirs_top Spring.base b es eq_refl A) eq_refl)).
    vm_compute. reflexivity.
  - rewrite (bind_ok _ _ _ _ _
       (create_file_ok (Servlet.base ++ lit "/pom.xml") Servlet.pom
          (World (Dir Self b es) (EvPrint (banner VServlet) :: lg))
          (Dir Self b ((Servlet.base, Dir Self false []) :: es))
          (Dir Self b ((Servlet.base, Dir Self false [(lit "pom.xml", File Self [])]) :: es))
          [Servlet.base; lit "pom.xml"]
          (makedirs_top Servlet.base b es eq_refl A) eq_refl)).
    vm_compute. reflexivity.
Qed.

Lemma exists_top (c : str) (b : bool) (es : entries_t) :
  simple_name c = true ->
  exists_ (Dir Self b es) c
  = match lookup_entry c es with Some _ => true | None => false end.
Proof.
  intros S. apply andb_prop in S as [Sn Sc].
  destruct (normal_name_inv c Sc) as (Nc & D & DD).
  unfold exists_, stat, resolve. destruct c as [|x c]; [congruence|].
  rewrite (components_no_sep (x :: c) Sn), (walk_name _ [] (x :: c) [] Nc D DD).
  cbn [lookup app walk]. destruct (lookup_entry (x :: c) es); reflexivity.
Qed.

(** The reset of an output root that is ready returns and leaves the
    working directory without that entry. *)
Lemma clean_directory_ready (c : str) (b : bool) (es : entries_t) (lg : list event) :
  simple_name c = true ->
  ready c es = true ->
  exists lg',
    clean_directory c (World (Dir Self b es) lg)
    = (Ok tt, World (Dir Self b (remove_entry c es)) lg').
Proof.
  intros S R. unfold ready in R.
  destruct (lookup_entry c es) as [[o x|o b' sub]|] eqn:L; [discriminate| |].
  - eexists. apply clean_directory_removed; cbn [root].
    + rewrite (exists_top c b es S), L. reflexivity.
    + apply andb_prop in S as [Sn Sc].
      assert (c <> []) as Nc by (destruct (normal_name_inv c Sc) as (Nc & _); exact Nc).
      apply (rmtree_ok (Dir Self b es) c [] c Self b es o b' sub); try assumption;
        try reflexivity.
      * apply components_no_sep. exact Sn.
      * cbn [app forallb]. rewrite Sc. reflexivity.
  - eexists. rewrite (remove_entry_absent c es L).
    apply (clean_directory_absent c (World (Dir Self b es) lg)). cbn [root].
    rewrite (exists_top c b es S), L. reflexivity.
Qed.

Lemma simple_name_base (v : variant) : simple_name (base v) = true.
Proof. destruct v; reflexivity. Qed.

(** [setup] of a variant whose output root is ready returns, and the
    output root is then the generated tree, whatever was there. *)
Lemma setup_ready (v : variant) (b : bool) (es : entries_t) (lg : list event) :
  ready (base v) es = true ->
  exists lg',
    setup v (World (Dir Self b es) lg)
    = (Ok tt, World (Dir Self b ((base v, generated v) :: remove_entry (base v) es)) lg').
Proof.
  intros R. rewrite setup_by_manifest.
  destruct (clean_directory_ready (base v) b es lg (simple_name_base v) R) as (lg1 & H1).
  rewrite (bind_ok _ _ _ _ _ H1).
  eexists. apply generate_fresh. apply lookup_entry_remove_entry.
Qed.

Lemma remove_entry_twice (c : str) (es : entries_t) :
  remove_entry c (remove_entry c es) = remove_entry c es.
Proof.
  apply remove_entry_absent, lookup_entry_remove_entry.
Qed.

Lemma remove_entry_comm (c d : str) (es : entries_t) :
  remove_entry c (remove_entry d es) = remove_entry d (remove_entry c es).
Proof.
  unfold remove_entry. induction es as [|[k n] es IH]; [reflexivity|].
  cbn [filter fst]. destruct (eqb k d) eqn:Ed, (eqb k c) eqn:Ec; cbn [negb filter fst];
    rewrite ?Ed, ?Ec; cbn [negb]; rewrite IH; reflexivity.
Qed.

Lemma ready_after_other (c d : str) (n : node) (es : entries_t) :
  eqb d c = false ->
  ready c ((d, n) :: remove_entry d es) = ready c es.
Proof.
  intros E. unfold ready. cbn [lookup_entry]. rewrite E.
  rewrite lookup_entry_remove_entry_other; [reflexivity|].
  intros ->. rewrite str_eqb_refl in E. discriminate.
Qed.

Lemma main_ready (b : bool) (es : entries_t) (lg : list event) :
  ready (base VSpring) es = true ->
  ready (base VServlet) es = true ->
  exists lg',
    main (World (Dir Self b es) lg) = (Ok tt, World (Dir Self b (after_main es)) lg').
Proof.
  intros RA RB. unfold main.
  destruct (setup_ready VSpring b es lg RA) as (lg1 & H1).
  change setup_spring_project with (setup VSpring). rewrite (bind_ok _ _ _ _ _ H1).
  assert (ready (base VServlet) ((base VSpring, generated VSpring)
                                   :: remove_entry (base VSpring) es) = true) as RB'
      by (rewrite ready_after_other; [exact RB|reflexivity]).
  destruct (setup_ready VServlet b _ lg1 RB') as (lg2 & H2).
  change setup_servlet_project with (setup VServlet). rewrite (bind_ok _ _ _ _ _ H2).
  eexists. reflexivity.
Qed.

Lemma after_main_ready (es : entries_t) :
  ready (base VSpring) (after_main es) = true
  /\ ready (base VServlet) (after_main es) = true.
Proof. split; vm_compute; reflexivity. Qed.

Lemma after_main_twice (es : entries_t) : after_main (after_main es) = after_main es.
Proof.
  unfold after_main at 1 3.
  change (remove_entry (base VSpring) (after_main es))
    with ((base VServlet, generated VServlet)
            :: remove_entry (base VSpring)
                 (remove_entry (base VServlet) (remove_entry (base VSpring) es))).
  change (remove_entry (base VServlet)
            ((base VServlet, generated VServlet)
               :: remove_entry (base VSpring)
                    (remove_entry (base VServlet) (remove_entry (base VSpring) es))))
    with (remove_entry (base VServlet)
            (remove_entry (base VSpring)
               (remove_entry (base VServlet) (remove_entry (base VSpring) es)))).
  rewrite (remove_entry_comm (base VSpring) (base VServlet)).
  rewrite !remove_entry_twice. reflexivity.
Qed.

(** [setup] twice in a row. *)
Lemma setup_twice (v : variant) (b : bool) (es : entries_t) (lg : list event) :
  ready (base v) es = true ->
  exists lg1 lg2,
    let r1 := Dir Self b ((base v, generated v) :: remove_entry (base v) es) in
    setup v (World (Dir Self b es) lg) = (Ok tt, World r1 lg1)
    /\ setup v (World r1 lg1) = (Ok tt, World r1 lg2).
Proof.
  intros R. destruct (setup_ready v b es lg R) as (lg1 & H1).
  assert (ready (base v) ((base v, generated v) :: remove_entry (base v) es) = true) as R1
      by (destruct v; vm_compute; reflexivity).
  destruct (setup_ready v b _ lg1 R1) as (lg2 & H2).
  assert (remove_entry (base v) ((base v, generated v) :: remove_entry (base v) es)
          = remove_entry (base v) es) as E.
  { transitivity (remove_entry (base v) (remove_entry (base v) es));
      [destruct v; reflexivity|apply remove_entry_twice]. }
  rewrite E in H2.
  exists lg1, lg2. cbn zeta. split; [exact H1|exact H2].
Qed.

(** ** C7: regeneration is deterministic and idempotent *)

(** C7.  In a working directory of the process in which each of the two
    output roots is absent or is a removable directory, whatever else the
    directory holds and whatever the output roots held:
    - [main] returns, and run again on the result returns again and
      leaves the very same tree;
    - that tree holds, under each output root, the tree [generated v],
      which does not depend on the world [main] started in;
    - every artifact of the two manifests is there, a regular file of the
      process with the text of the artifact, and [generated v] holds as
      many files as the manifest has entries;
    - the same holds for [setup] of one variant run twice. *)
Theorem C7_regeneration_is_idempotent (b : bool) (es : entries_t) (lg : list event) :
  ready (base VSpring) es = true ->
  ready (base VServlet) es = true ->
  let r1 := Dir Self b (after_main es) in
  (exists lg1 lg2,
      main (World (Dir Self b es) lg) = (Ok tt, World r1 lg1)
      /\ main (World r1 lg1) = (Ok tt, World r1 lg2))
  /\ (forall v,
        lookup r1 [base v] = Some (generated v)
        /\ Forall (fun a => stat r1 (fst a) = inr (File Self (snd a))) (artifacts v)
        /\ length (files_of (generated v)) = length (artifacts v))
  /\ (forall v, exists lg1 lg2,
        let r := Dir Self b ((base v, generated v) :: remove_entry (base v) es) in
        setup v (World (Dir Self b es) lg) = (Ok tt, World r lg1)
        /\ setup v (World r lg1) = (Ok tt, World r lg2)).
Proof.
  intros RA RB. cbv zeta. split; [|split].
  - destruct (main_ready b es lg RA RB) as (lg1 & H1).
    destruct (after_main_ready es) as [RA1 RB1].
    destruct (main_ready b (after_main es) lg1 RA1 RB1) as (lg2 & H2).
    exists lg1, lg2. split; [exact H1|].
    rewrite H2, after_main_twice. reflexivity.
  - intros v. split; [destruct v; reflexivity|]. split; [|destruct v; reflexivity].
    destruct v; each_entry ltac:(vm_compute; reflexivity).
  - intros v. apply setup_twice. destruct v; assumption.
Qed.

Lemma C7_witness :
  exists lg1 lg2,
    main stale_world
    = (Ok tt,
       World (Dir Self false
                [ (Servlet.base, generated VServlet);
                  (Spring.base, generated VSpring);
                  (lit "README.md", File Self (lit "notes")) ]) lg1)
    /\ main (World (Dir Self false
                      [ (Servlet.base, generated VServlet);
                        (Spring.base, generated VSpring);
                        (lit "README.md", File Self (lit "notes")) ]) lg1)
       = (Ok tt,
          World (Dir Self false
                   [ (Servlet.base, generated VServlet);
                     (Spring.base, generated VSpring);
                     (lit "README.md", File Self (lit "notes")) ]) lg2).
Proof.
  exact (proj1 (C7_regeneration_is_idempotent false stale_entries []
                  eq_refl eq_refl)).
Defined.

(* ================================================================== *)
(** * Further properties of the code *)

(** ** What the reset leaves alone *)

(** Whatever its outcome, [rmtree] changes nothing at a place that is
    neither below nor above the place the path names. *)
Lemma rmtree_frame (r : node) (p : str) (l : loc) :
  resolve r p = inr l ->
  forall l' : loc, ~ is_prefix l l' -> ~ is_prefix l' l ->
                   lookup (snd (rmtree r p)) l' = lookup r l'.
Proof.
  intros R l' H1 H2.
  destruct (rmtree r p) as [[e|] r1] eqn:T; cbn [snd].
  - revert T. unfold rmtree. rewrite R.
    destruct (lookup r l) as [[o x|o b es]|] eqn:L;
      try (intros T; injection T as _ <-; reflexivity).
    destruct (clear (Dir o b es)) as [es' [e'|]].
    + intros T. injection T as _ <-. apply lookup_update_apart; assumption.
    + destruct (rmdir (alter (fun _ => es') l r) p) as [e'|r2]; [|discriminate].
      intros T. injection T as _ <-. apply lookup_update_apart; assumption.
  - destruct (rmtree_removed r p r1 T) as (l0 & R0 & _ & _ & F).
    rewrite R in R0. injection R0 as <-. apply F; assumption.
Qed.

Lemma rmtree_unresolved (r : node) (p : str) (e : exn) :
  resolve r p = inl e -> rmtree r p = (Some e, r).
Proof. intros R. unfold rmtree. rewrite R. reflexivity. Qed.

(** X1.  Whatever the outcome of [clean_directory path] (it returns, it
    exits on a permission error after a partial removal, or another error
    reaches the caller), every place of the tree that is neither below
    nor above the place [path] names holds afterwards what it held
    before; and when [path] names no place, the tree is unchanged. *)
Theorem X1_reset_touches_only_its_path (path : str) (w : world) :
  (forall l : loc,
      resolve (root w) path = inr l ->
      forall l' : loc, ~ is_prefix l l' -> ~ is_prefix l' l ->
        lookup (root (snd (clean_directory path w))) l' = lookup (root w) l')
  /\ (forall e : exn,
        resolve (root w) path = inl e ->
        root (snd (clean_directory path w)) = root w).
Proof.
  split.
  - intros l R l' H1 H2. rewrite clean_directory_root.
    destruct (exists_ (root w) path); [|reflexivity].
    apply (rmtree_frame (root w) path l R l' H1 H2).
  - intros e R. rewrite clean_directory_root.
    destruct (exists_ (root w) path); [|reflexivity].
    rewrite (rmtree_unresolved (root w) path e R). reflexivity.
Qed.

Lemma X1_witness :
  lookup (root (snd (clean_directory Spring.base stale_world))) [lit "README.md"]
  = lookup (root stale_world) [lit "README.md"].
Proof.
  apply (proj1 (X1_reset_touches_only_its_path Spring.base stale_world)
           [Spring.base] eq_refl);
    intros [t H]; vm_compute in H; discriminate H.
Defined.

(** ** A blocked reset stays blocked *)

Lemma rmtree_failed_again (r : node) (p : str) (e : exn) (r1 : node) :
  rmtree r p = (Some e, r1) ->
  exists_ r1 p = true ->
  rmtree r1 p = (Some e, r1).
Proof.
  unfold rmtree at 1.
  destruct (resolve r p) as [e0|l] eqn:R.
  { intros H. injection H as <- <-. unfold exists_, stat. rewrite R. discriminate. }
  destruct (lookup r l) as [[o x|o b es]|] eqn:L.
  { intros H. injection H as <- <-. intros _. unfold rmtree. rewrite R, L. reflexivity. }
  2:{ intros H. injection H as <- <-. unfold exists_, stat. rewrite R, L. discriminate. }
  destruct (clear (Dir o b es)) as [es' [e'|]] eqn:C.
  - intros H. injection H as <- <-. intros X.
    unfold exists_, stat in X. unfold rmtree.
    destruct (resolve (alter (fun _ => es') l r) p) as [e2|l2] eqn:R2; [discriminate|].
    assert (l2 = l) as ->.
    { unfold resolve in R, R2. destruct p; [congruence|].
      symmetry. eapply walk_place; eassumption. }
    unfold alter at 1. rewrite lookup_update_same, L. cbn [option_map on_entries].
    rewrite (clear_again (Dir o b es) _ _ C). cbv beta iota zeta.
    rewrite update_const_idem. reflexivity.
  - apply clear_none in C as C'. subst es'.
    destruct (rmdir (alter (fun _ => []) l r) p) as [e'|r2] eqn:RD; [|discriminate].
    intros H. injection H as <- <-. intros X.
    unfold exists_, stat in X. unfold rmtree.
    destruct (resolve (alter (fun _ => []) l r) p) as [e2|l2] eqn:R2; [discriminate|].
    assert (l2 = l) as ->.
    { unfold resolve in R, R2. destruct p; [congruence|].
      symmetry. eapply walk_place; eassumption. }
    unfold alter at 1. rewrite lookup_update_same, L. cbn [option_map on_entries].
    change (clear (Dir o b [])) with (@nil (str * node), @None exn).
    cbv beta iota zeta. rewrite update_const_idem, RD. reflexivity.
Qed.

(** After a removal of a name of the working directory that stopped on a
    permission error, the name is still there. *)
Lemma blocked_still_exists (r : node) (c : str) (r1 : node) :
  simple_name c = true -> blocked r c r1 -> exists_ r1 c = true.
Proof.
  intros S [X T]. apply andb_prop in S as [Sn Sc].
  destruct (normal_name_inv c Sc) as (Nc & D & DD).
  assert (forall r0 : node, resolve r0 c
            = match r0 with
              | Dir _ _ _ => inr [c]
              | File _ _ => inl NotADirectoryError
              end) as Res.
  { intros r0. unfold resolve. destruct c as [|x c]; [congruence|].
    rewrite (components_no_sep (x :: c) Sn), (walk_name r0 [] (x :: c) [] Nc D DD).
    cbn [lookup app walk]. destruct r0; reflexivity. }
  revert T. unfold rmtree. rewrite Res.
  destruct r as [ro rx|ro rb res]; [discriminate|].
  destruct (lookup (Dir ro rb res) [c]) as [[o x|o b es]|] eqn:L; try discriminate.
  assert (forall es' : entries_t,
             exists_ (alter (fun _ => es') [c] (Dir ro rb res)) c = true) as Still.
  { intros es'.
    assert (lookup (alter (fun _ => es') [c] (Dir ro rb res)) [c] = Some (Dir o b es')) as Lk
        by (unfold alter; rewrite lookup_update_same, L; reflexivity).
    unfold exists_, stat. rewrite Res.
    destruct (alter (fun _ => es') [c] (Dir ro rb res)) as [o' x'|o' b' es0];
      [discriminate Lk|].
    rewrite Lk. reflexivity. }
  destruct (clear (Dir o b es)) as [es' [e'|]].
  - intros T. injection T as _ <-. apply Still.
  - destruct (rmdir (alter (fun _ => es') [c] (Dir ro rb res)) c) as [e'|r2];
      [|discriminate].
    intros T. injection T as _ <-. apply Still.
Qed.

(** X2.  A reset that a permission error has blocked is blocked again,
    in the same way, when the program is run again on what it left: as
    long as the path still exists, [shutil.rmtree] stops on the same
    error and removes nothing more; for the output root of a variant
    (which always still exists), [setup] exits again with status 1 and
    the tree stays as the first run left it. *)
Theorem X2_blocked_reset_stays_blocked (v : variant) (w : world) (r1 : node) :
  blocked (root w) (base v) r1 ->
  blocked r1 (base v) r1
  /\ forall lg : list event,
       setup v (World r1 lg)
       = (Raise (SystemExit 1), World r1 (blocked_log (base v) lg)).
Proof.
  intros B.
  assert (blocked r1 (base v) r1) as B1.
  { pose proof (blocked_still_exists (root w) (base v) r1 (simple_name_base v) B) as X.
    split; [exact X|]. destruct B as [_ T].
    apply (rmtree_failed_again (root w) (base v) PermissionError r1 T X). }
  split; [exact B1|]. intros lg.
  apply (setup_blocked v (World r1 lg) r1). exact B1.
Qed.

Lemma X2_witness :
  blocked (root sudo_world) (base VSpring) sudo_world_after
  /\ blocked sudo_world_after (base VSpring) sudo_world_after.
Proof.
  split; [exact sudo_world_blocked|].
  exact (proj1 (X2_blocked_reset_stays_blocked VSpring sudo_world sudo_world_after
                  sudo_world_blocked)).
Defined.

(** ** When the reset returns *)

Lemma resolve_simple (r0 : node) (c : str) :
  simple_name c = true ->
  resolve r0 c
  = match r0 with
    | Dir _ _ _ => inr [c]
    | File _ _ => inl NotADirectoryError
    end.
Proof.
  intros S. apply andb_prop in S as [Sn Sc].
  destruct (normal_name_inv c Sc) as (Nc & D & DD).
  unfold resolve. destruct c as [|x c]; [congruence|].
  rewrite (components_no_sep (x :: c) Sn), (walk_name r0 [] (x :: c) [] Nc D DD).
  cbn [lookup app walk]. destruct r0; reflexivity.
Qed.

(** A directory that [clear] has emptied held only removable trees. *)
Lemma clear_ok_removable : forall n : node,
  match n with
  | File _ _ => True
  | Dir o b es =>
      forall es' : entries_t,
        clear (Dir o b es) = (es', None) ->
        (no_entries es || writable o) && forallb (fun e => removable (snd e)) es = true
  end.
Proof.
  induction n as [o c|o b es IHes] using node_rect'; [exact I|].
  intros es'. rewrite clear_Dir.
  destruct (writable o).
  2:{ destruct es as [|[k m] es]; [reflexivity|]. cbn [clear_entries].
      destruct m as [o' c'|o' b' es0]; [discriminate|].
      destruct (clear (Dir o' b' es0)) as [sub [e|]]; discriminate. }
  rewrite orb_true_r. cbn [andb]. revert es'.
  induction es as [|[k m] es IH]; intros es'; [reflexivity|].
  inversion IHes as [|x xs Pm Prest]; subst. cbn [snd] in Pm.
  cbn [clear_entries forallb snd].
  destruct m as [o' c'|o' b' es0].
  - intros H. cbn [removable andb]. apply (IH Prest es' H).
  - destruct (clear (Dir o' b' es0)) as [sub [e|]] eqn:C; [discriminate|].
    cbn [negb]. destruct b'; [discriminate|].
    intros H. rewrite removable_Dir. cbn [negb andb]. rewrite (Pm sub eq_refl).
    cbn [andb]. apply (IH Prest es' H).
Qed.

(** X3.  In a working directory of the process, the reset of the output
    root of a variant returns exactly when the output root is absent or
    is a removable directory (no mount point in it, every directory in it
    that has entries owned by the process); when the output root is a
    regular file, [NotADirectoryError] reaches the caller and the tree
    is unchanged. *)
Theorem X3_reset_returns_iff_ready
        (v : variant) (b : bool) (es : entries_t) (lg : list event) :
  ((exists w', clean_directory (base v) (World (Dir Self b es) lg) = (Ok tt, w'))
   <-> ready (base v) es = true)
  /\ (forall (o : principal) (x : str),
        lookup_entry (base v) es = Some (File o x) ->
        clean_directory (base v) (World (Dir Self b es) lg)
        = (Raise NotADirectoryError,
           World (Dir Self b es) (EvRmtree (base v) :: EvExists (base v) :: lg))).
Proof.
  pose proof (simple_name_base v) as S.
  assert (forall (o : principal) (x : str),
             lookup_entry (base v) es = Some (File o x) ->
             clean_directory (base v) (World (Dir Self b es) lg)
             = (Raise NotADirectoryError,
                World (Dir Self b es) (EvRmtree (base v) :: EvExists (base v) :: lg)))
    as HFile.
  { intros o x L.
    apply (clean_directory_other (base v) (World (Dir Self b es) lg)
             NotADirectoryError (Dir Self b es)); cbn [root]; [| |reflexivity].
    - rewrite (exists_top (base v) b es S), L. reflexivity.
    - unfold rmtree. rewrite (resolve_simple (Dir Self b es) (base v) S).
      cbn [lookup]. rewrite L. reflexivity. }
  split; [|exact HFile]. split.
  - intros [w' H]. unfold ready.
    destruct (lookup_entry (base v) es) as [[o x|o b' sub]|] eqn:L; [|  |reflexivity].
    + rewrite (HFile o x eq_refl) in H. discriminate.
    + assert (exists_ (Dir Self b es) (base v) = true) as X
          by (rewrite (exists_top (base v) b es S), L; reflexivity).
      pose proof (clean_directory_ok_inv (base v) (World (Dir Self b es) lg) w' X H) as T.
      cbn [root] in T. revert T. unfold rmtree.
      rewrite (resolve_simple (Dir Self b es) (base v) S). cbn [lookup]. rewrite L.
      destruct (clear (Dir o b' sub)) as [es' [e|]] eqn:C; [discriminate|].
      pose proof (clear_ok_removable (Dir o b' sub) es' C) as Rm.
      cbv beta iota zeta. rewrite removable_Dir.
      destruct b'; [|intros _; cbn [negb andb]; exact Rm].
      intros T. revert T.
      (* a mount point: [rmdir] fails *)
      unfold rmdir.
      destruct (base v) as [|y c] eqn:Eb; [destruct v; discriminate Eb|].
      rewrite <- Eb in *.
      apply andb_prop in S as [Sn Sc].
      destruct (normal_name_inv (base v) Sc) as (Nc & D & DD).
      rewrite (components_no_sep (base v) Sn).
      cbn [drop_trailing_empty rev app drop_empty]. 
      destruct (is_empty (base v)) eqn:Em; [destruct (base v); [congruence|discriminate]|].
      cbn [rev app parent_dir walk]. unfold alter. cbn [update lookup].
      rewrite D, DD. cbn [orb]. rewrite lookup_entry_alter_entry, L.
      cbn [option_map update on_entries writable negb]. discriminate.
  - intros R.
    destruct (clean_directory_ready (base v) b es lg S R) as (lg' & H).
    eexists. exact H.
Qed.

Lemma X3_witness :
  clean_directory (base VSpring) file_world
  = (Raise NotADirectoryError,
     World (root file_world) [EvRmtree (base VSpring); EvExists (base VSpring)]).
Proof.
  exact (proj2 (X3_reset_returns_iff_ready VSpring false
                  [ (Spring.base, File Self (lit "notes")) ] [])
               Self (lit "notes") eq_refl).
Defined.

(** ** The exceptions of [create_file] *)

Lemma walk_error_os (r : node) (cs : list str) : forall (cur : loc) (e : exn),
  walk r cur cs = inl e -> is_OSError e = true.
Proof.
  induction cs as [|c cs IH]; intros cur e; cbn [walk]; [discriminate|].
  destruct (lookup r cur) as [[o x|o b es]|];
    try (intros H; injection H as <-; reflexivity).
  destruct (is_empty c || eqb c dot); [apply IH|].
  destruct (eqb c dotdot); apply IH.
Qed.

Lemma parent_dir_error_os (r : node) (parent : list str) (e : exn) :
  parent_dir r parent = inl e -> is_OSError e = true.
Proof.
  unfold parent_dir. destruct (walk r [] parent) as [e0|pl] eqn:W.
  - intros H. injection H as <-. eapply walk_error_os. exact W.
  - destruct (lookup r pl) as [[o x|o b es]|]; try discriminate;
      intros H; injection H as <-; reflexivity.
Qed.

Lemma mkdir_error_os (r : node) (p : str) (e : exn) :
  mkdir r p = inl e -> is_OSError e = true.
Proof.
  unfold mkdir. destruct p as [|x p]; [intros H; injection H as <-; reflexivity|].
  destruct (rev (drop_trailing_empty (components (x :: p)))) as [|c rparent];
    [intros H; injection H as <-; reflexivity|].
  destruct (parent_dir r (rev rparent)) as [e0|[[pl po] pes]] eqn:P.
  - intros H. injection H as <-. eapply parent_dir_error_os. exact P.
  - destruct (eqb c dot || eqb c dotdot); [intros H; injection H as <-; reflexivity|].
    destruct (lookup_entry c pes); [intros H; injection H as <-; reflexivity|].
    destruct (writable po); [discriminate|intros H; injection H as <-; reflexivity].
Qed.

Lemma open_trunc_error_os (r : node) (p : str) (e : exn) :
  open_trunc r p = inl e -> is_OSError e = true.
Proof.
  unfold open_trunc. destruct p as [|x p]; [intros H; injection H as <-; reflexivity|].
  destruct (rev (drop_trailing_empty (components (x :: p)))) as [|c rparent];
    [intros H; injection H as <-; reflexivity|].
  destruct (parent_dir r (rev rparent)) as [e0|[[pl po] pes]] eqn:P.
  - intros H. injection H as <-. eapply parent_dir_error_os. exact P.
  - destruct (eqb c dot || eqb c dotdot || _);
      [intros H; injection H as <-; reflexivity|].
    destruct (lookup_entry c pes) as [[o y|o b es]|].
    + destruct (writable o); [discriminate|intros H; injection H as <-; reflexivity].
    + intros H; injection H as <-; reflexivity.
    + destruct (writable po); [discriminate|intros H; injection H as <-; reflexivity].
Qed.

Lemma length_rstrip_sep (h : str) : length (PosixPath.rstrip_sep h) <= length h.
Proof.
  destruct (rstrip_sep_spec h) as (seps & E & _).
  rewrite E at 2. rewrite length_app. lia.
Qed.

Lemma length_trim_head (h : str) : length (PosixPath.trim_head h) <= length h.
Proof.
  unfold PosixPath.trim_head. destruct h as [|x h]; [reflexivity|].
  destruct (forallb PosixPath.is_sep (x :: h)); [reflexivity|apply length_rstrip_sep].
Qed.

(** The head of a path is shorter than the path by its tail at least. *)
Lemma length_split (p : str) :
  length (fst (PosixPath.split p)) + length (snd (PosixPath.split p)) <= length p.
Proof.
  rewrite split_eq. cbn [fst snd]. unfold PosixPath.dirname.
  destruct (cut_spec p) as (E & _ & _).
  pose proof (length_trim_head (fst (PosixPath.cut p))) as L.
  rewrite E at 3. rewrite length_app. lia.
Qed.

(** With fuel above the length of the name, [makedirs] does not run out
    of fuel: the only exceptions are those of the system calls. *)
Lemma makedirs_rec_error_os (k : nat) : forall (r : node) (name : str) (ok : bool)
                                               (e : exn) (r' : node),
  length name < k ->
  makedirs_rec k r name ok = (Some e, r') -> is_OSError e = true.
Proof.
  induction k as [|k IH]; intros r name ok e r' Len; [lia|].
  cbn [makedirs_rec].
  pose proof (length_split name) as L0.
  destruct (PosixPath.split name) as [head0 tail0]. cbn [fst snd] in L0.
  assert (forall head tail : str,
             (if is_empty tail0 then PosixPath.split head0 else (head0, tail0)) = (head, tail) ->
             tail <> [] -> length head < k) as Lh.
  { intros head tail E Nt. destruct (is_empty tail0).
    - pose proof (length_split head0) as L1. rewrite E in L1. cbn [fst snd] in L1.
      destruct tail; [congruence|]. cbn [length] in L1. lia.
    - injection E as <- <-. destruct tail0; [congruence|]. cbn [length] in L0. lia. }
  destruct (if is_empty tail0 then PosixPath.split head0 else (head0, tail0))
    as [head tail] eqn:E.
  assert (forall r1 : node,
             match mkdir r1 name with
             | inr r2 => (None, r2)
             | inl e0 => if negb ok || negb (isdir r1 name) then (Some e0, r1) else (None, r1)
             end = (Some e, r') -> is_OSError e = true) as Create.
  { intros r1. destruct (mkdir r1 name) as [e0|r2] eqn:M; [|discriminate].
    destruct (negb ok || negb (isdir r1 name)); [|discriminate].
    intros H. injection H as <- _. eapply mkdir_error_os. exact M. }
  destruct (negb (is_empty head) && negb (is_empty tail) && negb (exists_ r head)) eqn:Cnd;
    [|apply Create].
  assert (tail <> []) as Nt.
  { apply andb_prop in Cnd as [Cnd _]. apply andb_prop in Cnd as [_ Cnd].
    destruct tail; [discriminate|discriminate]. }
  specialize (Lh head tail eq_refl Nt).
  destruct (makedirs_rec k r head ok) as [[e1|] r1] eqn:Rec.
  - destruct (is_FileExistsError e1) eqn:FE.
    + destruct (eqb tail dot); [discriminate|apply Create].
    + intros H. injection H as <- _. apply (IH r head ok e1 r1 Lh Rec).
  - destruct (eqb tail dot); [discriminate|apply Create].
Qed.

Lemma makedirs_error_os (r : node) (name : str) (ok : bool) (e : exn) (r' : node) :
  makedirs r name ok = (Some e, r') -> is_OSError e = true.
Proof.
  unfold makedirs. apply makedirs_rec_error_os. lia.
Qed.

(** What a call of [create_file] that raises has done. *)
Lemma create_file_raise_inv (path content : str) (w w' : world) (e : exn) :
  create_file path content w = (Raise e, w') ->
  is_OSError e = true
  /\ stdout w' = stdout w
  /\ (log w' = EvMakedirs (PosixPath.dirname path) :: log w
      \/ (log w' = EvOpen path :: EvMakedirs (PosixPath.dirname path) :: log w
          /\ root w' = snd (makedirs (root w) (PosixPath.dirname path) true))).
Proof.
  unfold create_file, bind, os_makedirs, lift, open_w, f_write, print, emit.
  destruct (makedirs (root w) (PosixPath.dirname path) true) as [[e1|] r1] eqn:Hm.
  - intros H. injection H as <- <-.
    split; [apply (makedirs_error_os _ _ _ _ _ Hm)|].
    split; [|left; reflexivity].
    unfold stdout, history. cbn [log rev]. rewrite printed_app. cbn [printed].
    apply app_nil_r.
  - cbn [root log]. destruct (open_trunc r1 path) as [e1|[r2 f]] eqn:Ho; [|discriminate].
    intros H. injection H as <- <-.
    split; [apply (open_trunc_error_os _ _ _ Ho)|].
    split; [|right; split; reflexivity].
    unfold stdout, history. cbn [log rev]. rewrite !printed_app. cbn [printed].
    rewrite !app_nil_r. reflexivity.
Qed.

Lemma exit_status_os_error (e : exn) :
  is_OSError e = true -> exit_status (@Raise unit e) = 1%N.
Proof. destruct e; try discriminate; reflexivity. Qed.

(** X4.  A failure of [os.makedirs] or of [open] inside [create_file]
    reaches the caller as it is, and it is an [OSError]: the exit status
    of a run it ends is 1, the very status of a blocked reset.  When
    [os.makedirs] raises, [open] is not called and the tree is the one
    [os.makedirs] left; when [open] raises, the directories that
    [os.makedirs] created stay.  In both cases [write] is not called and
    the line [Generated] is not printed. *)
Theorem X4_create_file_failure_before_write
        (path content : str) (w : world) (e : exn) (r1 : node) :
  makedirs (root w) (PosixPath.dirname path) true = (Some e, r1)
  \/ (makedirs (root w) (PosixPath.dirname path) true = (None, r1)
      /\ open_trunc r1 path = inl e) ->
  exists lg',
    create_file path content w = (Raise e, World r1 lg')
    /\ (makedirs (root w) (PosixPath.dirname path) true = (Some e, r1) ->
        lg' = EvMakedirs (PosixPath.dirname path) :: log w)
    /\ (makedirs (root w) (PosixPath.dirname path) true = (None, r1) ->
        lg' = EvOpen path :: EvMakedirs (PosixPath.dirname path) :: log w)
    /\ is_OSError e = true
    /\ exit_status (@Raise unit e) = 1%N
    /\ stdout (World r1 lg') = stdout w.
Proof.
  intros H.
  assert (exists lg',
             create_file path content w = (Raise e, World r1 lg')
             /\ (makedirs (root w) (PosixPath.dirname path) true = (Some e, r1) ->
                 lg' = EvMakedirs (PosixPath.dirname path) :: log w)
             /\ (makedirs (root w) (PosixPath.dirname path) true = (None, r1) ->
                 lg' = EvOpen path :: EvMakedirs (PosixPath.dirname path) :: log w))
    as (lg' & Hc & L1 & L2).
  { unfold create_file, bind, os_makedirs, lift, open_w, emit.
    destruct H as [Hm|[Hm Ho]]; rewrite Hm.
    - eexists. split; [reflexivity|]. split; [reflexivity|discriminate].
    - cbn [root log]. rewrite Ho.
      eexists. split; [reflexivity|]. split; [discriminate|reflexivity]. }
  exists lg'. split; [exact Hc|]. split; [exact L1|]. split; [exact L2|].
  destruct (create_file_raise_inv path content w (World r1 lg') e Hc) as (Os & So & _).
  split; [exact Os|]. split; [apply exit_status_os_error; exact Os|exact So].
Qed.

Lemma X4_witness :
  exists lg',
    create_file (lit "my-spring-app/target/x.txt") (lit "x") sudo_world
    = (Raise PermissionError, World (root sudo_world) lg')
    /\ is_OSError PermissionError = true
    /\ stdout (World (root sudo_world) lg') = stdout sudo_world.
Proof.
  destruct (X4_create_file_failure_before_write
              (lit "my-spring-app/target/x.txt") (lit "x") sudo_world
              PermissionError (root sudo_world)
              (or_intror (conj eq_refl eq_refl)))
    as (lg' & H1 & _ & _ & H4 & _ & H6).
  exists lg'. split; [exact H1|]. split; [exact H4|exact H6].
Defined.

(** ** A failed write ends the run *)

Lemma write_all_app_raise (m1 m2 : list (str * str)) (p c : str) : forall (w w1 w2 : world) (e : exn),
  write_all m1 w = (Ok tt, w1) ->
  create_file p c w1 = (Raise e, w2) ->
  write_all (m1 ++ (p, c) :: m2) w = (Raise e, w2).
Proof.
  induction m1 as [|[p0 c0] m1 IH]; intros w w1 w2 e H1 H2.
  - cbn in H1. injection H1 as <-. cbn [app write_all].
    apply bind_raise. exact H2.
  - cbn [app write_all] in *. unfold bind in H1 |- *.
    destruct (create_file p0 c0 w) as [[[]|e0] w0]; [|discriminate].
    apply (IH w0 w1 w2 e H1 H2).
Qed.

(** X5.  There is no recovery from a failed write: when the reset of a
    variant has returned and the call of [create_file] for an entry of
    its manifest raises, the entries before it having been written,
    [setup] raises that exception in the world the failed call left (what
    was written stays, the entries after it are not attempted), and so
    does [main], at once for the Spring variant and after a completed
    Spring variant for the Servlet variant. *)
Theorem X5_failed_write_ends_run
        (v : variant) (m1 m2 : list (str * str)) (p c : str)
        (w w0 w1 w2 : world) (e : exn) :
  manifest v = m1 ++ (p, c) :: m2 ->
  clean_directory (base v) w = (Ok tt, w0) ->
  write_all m1 (emit (EvPrint (banner v)) w0) = (Ok tt, w1) ->
  create_file p c w1 = (Raise e, w2) ->
  setup v w = (Raise e, w2)
  /\ (v = VSpring -> main w = (Raise e, w2))
  /\ (v = VServlet ->
      forall wi : world, setup VSpring wi = (Ok tt, w) -> main wi = (Raise e, w2)).
Proof.
  intros Em Hc H1 H2.
  assert (setup v w = (Raise e, w2)) as Hs.
  { rewrite setup_by_manifest, (bind_ok _ _ _ _ _ Hc).
    unfold bind at 1. unfold print at 1. rewrite Em.
    apply (write_all_app_raise m1 m2 p c _ w1 w2 e H1 H2). }
  split; [exact Hs|]. split.
  - intros ->. unfold main. apply bind_raise. exact Hs.
  - intros -> wi Hi. unfold main. rewrite (bind_ok _ _ _ _ _ Hi).
    apply bind_raise. exact Hs.
Qed.

(** In a working directory of another principal the first write fails:
    the banner is printed and the run ends with [PermissionError]. *)
Lemma X5_witness :
  main foreign_world
  = (Raise PermissionError,
     World (Dir Other false [])
           [EvMakedirs Spring.base; EvPrint (banner VSpring); EvExists Spring.base]).
Proof.
  apply (proj1 (proj2 (X5_failed_write_ends_run VSpring []
                         (tl (manifest VSpring))
                         (Spring.base ++ lit "/pom.xml") Spring.pom
                         foreign_world
                         (World (Dir Other false []) [EvExists Spring.base])
                         (World (Dir Other false [])
                                [EvPrint (banner VSpring); EvExists Spring.base])
                         (World (Dir Other false [])
                                [EvMakedirs Spring.base; EvPrint (banner VSpring);
                                 EvExists Spring.base])
                         PermissionError eq_refl eq_refl eq_refl eq_refl))).
  reflexivity.
Defined.

(** ** What a run that succeeds prints and leaves *)

Lemma printed_rev_cons (ev : event) (l : list event) :
  printed (rev (ev :: l)) = printed (rev l) ++ printed [ev].
Proof. cbn [rev]. apply printed_app. Qed.

Lemma printed_create_log (p c : str) (l : list event) :
  printed (rev (create_log p c l)) = printed (rev l) ++ [generated_line p].
Proof.
  unfold create_log. rewrite !printed_rev_cons. cbn [printed].
  rewrite !app_nil_r. reflexivity.
Qed.

Lemma printed_fold_create_log (m : list (str * str)) : forall l0 : list event,
  printed (rev (fold_left (fun l a => create_log (fst a) (snd a) l) m l0))
  = printed (rev l0) ++ map generated_line (map fst m).
Proof.
  induction m as [|[p c] m IH]; intros l0; cbn [fold_left map fst snd].
  - symmetry. apply app_nil_r.
  - rewrite IH, printed_create_log, <- app_assoc. reflexivity.
Qed.

Lemma printed_gen_log (v : variant) (lg : list event) :
  printed (rev (gen_log v lg)) = printed (rev lg) ++ variant_lines v.
Proof.
  unfold gen_log, variant_lines, paths.
  rewrite printed_fold_create_log, printed_rev_cons. cbn [printed].
  rewrite <- app_assoc. reflexivity.
Qed.

(** The reset of an output root that is ready prints nothing. *)
Lemma clean_directory_ready_quiet
      (c : str) (b : bool) (es : entries_t) (lg : list event) :
  simple_name c = true ->
  ready c es = true ->
  exists lg',
    clean_directory c (World (Dir Self b es) lg)
    = (Ok tt, World (Dir Self b (remove_entry c es)) lg')
    /\ printed (rev lg') = printed (rev lg).
Proof.
  intros S R.
  destruct (clean_directory_ready c b es lg S R) as (lg' & H).
  exists lg'. split; [exact H|].
  destruct (exists_ (Dir Self b es) c) eqn:X.
  - destruct (rmtree (Dir Self b es) c) as [[e|] r1] eqn:T.
    + destruct (is_PermissionError e) eqn:P.
      * destruct e; try discriminate P.
        rewrite (clean_directory_blocked c (World (Dir Self b es) lg) r1 (conj X T)) in H.
        discriminate.
      * rewrite (clean_directory_other c (World (Dir Self b es) lg) e r1 X T P) in H.
        discriminate.
    + rewrite (clean_directory_removed c (World (Dir Self b es) lg) r1 X T) in H.
      injection H as _ <-. rewrite !printed_rev_cons. cbn [printed].
      rewrite !app_nil_r. reflexivity.
  - rewrite (clean_directory_absent c (World (Dir Self b es) lg) X) in H.
    injection H as _ <-. rewrite printed_rev_cons. cbn [printed]. apply app_nil_r.
Qed.

Lemma setup_ready_lines (v : variant) (b : bool) (es : entries_t) (lg : list event) :
  ready (base v) es = true ->
  exists lg',
    setup v (World (Dir Self b es) lg)
    = (Ok tt, World (Dir Self b ((base v, generated v) :: remove_entry (base v) es)) lg')
    /\ printed (rev lg') = printed (rev lg) ++ variant_lines v.
Proof.
  intros R. rewrite setup_by_manifest.
  destruct (clean_directory_ready_quiet (base v) b es lg (simple_name_base v) R)
    as (lg1 & H1 & P1).
  rewrite (bind_ok _ _ _ _ _ H1).
  exists (gen_log v lg1). split.
  - apply generate_fresh. apply lookup_entry_remove_entry.
  - rewrite printed_gen_log, P1. reflexivity.
Qed.

(** X6.  In a working directory of the process in which the two output
    roots are absent or removable, [main] returns (exit status 0) and has
    then printed, after what was printed before, exactly: the banner of
    the Spring variant, one line [Generated] for each path of its
    manifest in order, the same for the Servlet variant, and the two
    closing lines.  Every entry of the working directory other than the
    two output roots is as it was. *)
Theorem X6_successful_run_output (b : bool) (es : entries_t) (lg : list event) :
  ready (base VSpring) es = true ->
  ready (base VServlet) es = true ->
  exists w1,
    main (World (Dir Self b es) lg) = (Ok tt, w1)
    /\ exit_status (fst (main (World (Dir Self b es) lg))) = 0%N
    /\ stdout w1 = stdout (World (Dir Self b es) lg) ++ success_lines
    /\ root w1 = Dir Self b (after_main es)
    /\ forall c : str, c <> base VSpring -> c <> base VServlet ->
                       lookup_entry c (after_main es) = lookup_entry c es.
Proof.
  intros RA RB.
  destruct (setup_ready_lines VSpring b es lg RA) as (lg1 & H1 & P1).
  assert (ready (base VServlet) ((base VSpring, generated VSpring)
                                   :: remove_entry (base VSpring) es) = true) as RB'
      by (rewrite ready_after_other; [exact RB|reflexivity]).
  destruct (setup_ready_lines VServlet b _ lg1 RB') as (lg2 & H2 & P2).
  assert (main (World (Dir Self b es) lg)
          = (Ok tt, World (Dir Self b (after_main es))
                          (EvPrint (lit "Go into folders and run: sudo ./install_service.sh")
                             :: EvPrint (nl ++ lit "✅ STATIC PORT PROJECTS GENERATED.")
                             :: lg2))) as Hm.
  { unfold main.
    change setup_spring_project with (setup VSpring). rewrite (bind_ok _ _ _ _ _ H1).
    change setup_servlet_project with (setup VServlet). rewrite (bind_ok _ _ _ _ _ H2).
    reflexivity. }
  eexists. split; [exact Hm|]. rewrite Hm. split; [reflexivity|].
  split; [|split; [reflexivity|]].
  - unfold stdout, history, success_lines. cbn [log].
    rewrite !printed_rev_cons, P2, P1. cbn [printed].
    rewrite <- !app_assoc. reflexivity.
  - intros c NA NB. unfold after_main. cbn [lookup_entry].
    destruct (eqb (base VServlet) c) eqn:EB;
      [apply str_eqb_eq in EB; congruence|].
    destruct (eqb (base VSpring) c) eqn:EA;
      [apply str_eqb_eq in EA; congruence|].
    rewrite !lookup_entry_remove_entry_other by assumption. reflexivity.
Qed.

Lemma X6_witness :
  exists w1,
    main stale_world = (Ok tt, w1)
    /\ stdout w1 = success_lines
    /\ lookup_entry (lit "README.md") (after_main stale_entries)
       = Some (File Self (lit "notes")).
Proof.
  destruct (X6_successful_run_output false stale_entries [] eq_refl eq_refl)
    as (w1 & H1 & _ & H3 & _ & H5).
  exists w1. split; [exact H1|]. split; [exact H3|].
  rewrite H5; [reflexivity| |]; intros E; vm_compute in E; discriminate E.
Defined.

(** ** The reset removes what the generator wrote *)

(** X7.  What [setup] of a variant has generated, the reset of that
    variant removes: in a working directory of the process whose output
    root is absent or removable, [setup] returns, [clean_directory] on the
    output root then returns too, and the working directory is left with
    the entries it had at the start, the output root apart. *)
Theorem X7_reset_undoes_generation
        (v : variant) (b : bool) (es : entries_t) (lg : list event) :
  ready (base v) es = true ->
  exists w1 w2,
    setup v (World (Dir Self b es) lg) = (Ok tt, w1)
    /\ lookup (root w1) [base v] = Some (generated v)
    /\ clean_directory (base v) w1 = (Ok tt, w2)
    /\ root w2 = Dir Self b (remove_entry (base v) es).
Proof.
  intros R. destruct (setup_ready v b es lg R) as (lg1 & H1).
  assert (ready (base v) ((base v, generated v) :: remove_entry (base v) es) = true) as R1
      by (destruct v; vm_compute; reflexivity).
  destruct (clean_directory_ready (base v) b _ lg1 (simple_name_base v) R1) as (lg2 & H2).
  eexists. eexists. split; [exact H1|]. split; [|split; [exact H2|]].
  - cbn [root lookup lookup_entry]. rewrite str_eqb_refl. reflexivity.
  - cbn [root]. f_equal.
    transitivity (remove_entry (base v) (remove_entry (base v) es));
      [destruct v; reflexivity|apply remove_entry_twice].
Qed.

Lemma X7_witness :
  exists w1 w2,
    setup VSpring stale_world = (Ok tt, w1)
    /\ clean_directory Spring.base w1 = (Ok tt, w2)
    /\ root w2 = Dir Self false [ (lit "README.md", File Self (lit "notes")) ].
Proof.
  destruct (X7_reset_undoes_generation VSpring false stale_entries [] eq_refl)
    as (w1 & w2 & H1 & _ & H3 & H4).
  exists w1, w2. split; [exact H1|]. split; [exact H3|exact H4].
Defined.

(** ** [create_file] twice on one path *)

Lemma update_ext (g h : node -> node) (l : loc) :
  (forall n : node, g n = h n) -> forall r : node, update g l r = update h l r.
Proof.
  intros E. induction l as [|c l IH]; intros r; cbn [update]; [apply E|].
  destruct r as [o x|o b es]; [reflexivity|].
  f_equal. apply alter_entry_ext. exact IH.
Qed.

Lemma update_compose (g h : node -> node) (l : loc) : forall r : node,
  update g l (update h l r) = update (fun n => g (h n)) l r.
Proof.
  induction l as [|c l IH]; intros r; cbn [update]; [reflexivity|].
  destruct r as [o x|o b es]; [reflexivity|].
  cbn [update]. rewrite alter_entry_compose. f_equal.
  apply alter_entry_ext. exact IH.
Qed.

(** [open(path, "w")] on a regular file of the process. *)
Lemma open_trunc_existing (r : node) (p : str) (parent : list str) (c : str)
      (pl : loc) (d : str) :
  p <> [] ->
  components p = parent ++ [c] ->
  c <> [] -> eqb c dot = false -> eqb c dotdot = false ->
  walk r [] parent = inr pl ->
  lookup r (pl ++ [c]) = Some (File Self d) ->
  open_trunc r p = inr (update (put_content []) (pl ++ [c]) r, pl ++ [c]).
Proof.
  intros Np Ecs Nc D DD W L.
  unfold open_trunc. destruct p as [|x p]; [congruence|].
  rewrite Ecs, (drop_trailing_keeps parent c Nc), rev_app_distr. cbn [rev app].
  rewrite rev_involutive. unfold parent_dir. rewrite W.
  rewrite lookup_snoc in L.
  destruct (lookup r pl) as [[o y|po pb pes]|]; try discriminate.
  rewrite D, DD, Nat.eqb_refl, L. reflexivity.
Qed.

(** What [open(path, "w")] returns: the place of an empty regular file of
    the process. *)
Lemma open_trunc_file (r : node) (p : str) (r2 : node) (f : loc) :
  open_trunc r p = inr (r2, f) -> lookup r2 f = Some (File Self []).
Proof.
  unfold open_trunc. destruct p as [|x p]; [discriminate|].
  destruct (rev (drop_trailing_empty (components (x :: p)))) as [|c rparent];
    [discriminate|].
  unfold parent_dir.
  destruct (walk r [] (rev rparent)) as [e|pl]; [discriminate|].
  destruct (lookup r pl) as [[o y|po pb pes]|] eqn:L; try discriminate.
  destruct (eqb c dot || eqb c dotdot || _); [discriminate|].
  destruct (lookup_entry c pes) as [[o old|o b es]|] eqn:Lc; try discriminate.
  - destruct o; [|discriminate]. cbn [writable].
    intros H. injection H as <- <-.
    rewrite lookup_update_same, lookup_snoc, L, Lc. reflexivity.
  - destruct (writable po); [|discriminate].
    intros H. injection H as <- <-.
    apply (lookup_alter_add c (File Self []) pl r po pb pes L).
Qed.

Lemma put_content_last (d d0 d1 : str) (n : node) :
  put_content d (put_content d0 (put_content d1 n)) = put_content d n.
Proof. destruct n; reflexivity. Qed.

(** X8.  The last write wins and an earlier one leaves no trace: when
    [create_file path c1] has returned, [create_file path c2] on the world
    it left returns too, and the tree is then the one [create_file path
    c2] alone would have left; with the same content it is the tree the
    first call left. *)
Theorem X8_create_file_again (path c1 c2 : str) (w w1 : world) :
  create_file path c1 w = (Ok tt, w1) ->
  exists w2 w2',
    create_file path c2 w1 = (Ok tt, w2)
    /\ create_file path c2 w = (Ok tt, w2')
    /\ root w2 = root w2'
    /\ (exists o, stat (root w2) path = inr (File o (strip c2)))
    /\ (strip c2 = strip c1 -> root w2 = root w1).
Proof.
  intros H.
  destruct (create_file_inv path c1 w w1 H) as (r1 & r2 & f & Hm & Ho & ->).
  pose proof (open_trunc_file r1 path r2 f Ho) as Lf.
  destruct (open_trunc_inv r1 path r2 f Ho)
    as (parent & c & pl & po & pb & pes & Np & Ecs & Nc & D & DD & W & Lp & -> & _).
  destruct (open_then_write r1 path r2 (pl ++ [c]) (strip c1) Ho) as [(o1 & St1) X3].
  set (r3 := set_content (strip c1) (pl ++ [c]) r2) in *.
  assert (lookup r3 (pl ++ [c]) = Some (File Self (strip c1))) as L3
      by (unfold r3, set_content; rewrite lookup_update_same, Lf; reflexivity).
  assert (makedirs r3 (PosixPath.dirname path) true = (None, r3)) as Hm3.
  { apply makedirs_existing, stat_dirname.
    - unfold exists_. rewrite St1. reflexivity.
    - apply dirname_not_nil. intros Z. rewrite Z, makedirs_empty_name in Hm.
      discriminate. }
  assert (open_trunc r3 path
          = inr (update (put_content []) (pl ++ [c]) r3, pl ++ [c])) as Ho3.
  { apply (open_trunc_existing r3 path parent c pl (strip c1)); try assumption.
    apply (walk_mono r1 r3 parent X3 [] pl W). }
  assert (forall d : str,
             set_content d (pl ++ [c]) (update (put_content []) (pl ++ [c]) r3)
             = set_content d (pl ++ [c]) r2) as Last.
  { intros d. unfold r3, set_content. rewrite !update_compose.
    apply update_ext. intros n. apply put_content_last. }
  eexists. eexists.
  split; [apply (create_file_ok path c2 (World r3 (create_log path c1 (log w)))
                   r3 _ _ Hm3 Ho3)|].
  split; [apply (create_file_ok path c2 w r1 r2 _ Hm Ho)|].
  cbn [root]. split; [apply Last|]. split.
  - rewrite Last. apply (open_then_write r1 path r2 (pl ++ [c]) (strip c2) Ho).
  - intros E. rewrite Last, E. reflexivity.
Qed.

Lemma X8_witness :
  exists w2,
    create_file (lit "out/a.txt") (lit "second")
      (snd (create_file (lit "out/a.txt") (lit "first") out_world)) = (Ok tt, w2)
    /\ root w2
       = Dir Self false
           [ (lit "out", Dir Self false [ (lit "a.txt", File Self (lit "second")) ]) ].
Proof.
  destruct (X8_create_file_again (lit "out/a.txt") (lit "first") (lit "second")
              out_world
              (snd (create_file (lit "out/a.txt") (lit "first") out_world)) eq_refl)
    as (w2 & w2' & H1 & H2 & H3 & _).
  exists w2. split; [exact H1|].
  rewrite H3.
  assert (create_file (lit "out/a.txt") (lit "second") out_world
          = (Ok tt, snd (create_file (lit "out/a.txt") (lit "second") out_world))) as E
      by reflexivity.
  rewrite E in H2. injection H2 as <-. reflexivity.
Defined.

(** ** [create_file] creates the directories that are missing *)

Lemma nest_app (ms ms' : list str) (leaf : node) :
  nest (ms ++ ms') leaf = nest ms (nest ms' leaf).
Proof.
  induction ms as [|m ms IH]; cbn [app nest]; [reflexivity|]. rewrite IH. reflexivity.
Qed.

Lemma update_nest (g : node -> node) (ms : list str) (leaf : node) :
  update g ms (nest ms leaf) = nest ms (g leaf).
Proof.
  induction ms as [|m ms IH]; cbn [update nest alter_entry]; [reflexivity|].
  rewrite str_eqb_refl, IH. reflexivity.
Qed.

Lemma lookup_nest (ms : list str) (leaf : node) : lookup (nest ms leaf) ms = Some leaf.
Proof.
  induction ms as [|m ms IH]; cbn [lookup nest lookup_entry]; [reflexivity|].
  rewrite str_eqb_refl. exact IH.
Qed.

(** An update below an entry that has just been added. *)
Lemma update_in_added (g : node -> node) (c0 : str) (n0 : node) (ms : loc) (pre : loc) :
  forall r : node,
    update g (pre ++ c0 :: ms) (alter (add_entry c0 n0) pre r)
    = alter (add_entry c0 (update g ms n0)) pre r.
Proof.
  unfold alter. induction pre as [|d pre IH]; intros r.
  - cbn [app update]. destruct r as [o x|o b es]; [reflexivity|].
    cbn [on_entries]. unfold add_entry. cbn [alter_entry].
    rewrite str_eqb_refl. reflexivity.
  - cbn [app update]. destruct r as [o x|o b es]; [reflexivity|].
    rewrite alter_entry_compose. f_equal. apply alter_entry_ext. exact IH.
Qed.

Lemma lookup_in_added (c0 : str) (n0 : node) (pre ms : loc) (r : node)
      (po : principal) (pb : bool) (pes : entries_t) :
  lookup r pre = Some (Dir po pb pes) ->
  lookup (alter (add_entry c0 n0) pre r) (pre ++ c0 :: ms) = lookup n0 ms.
Proof.
  intros L.
  replace (pre ++ c0 :: ms) with ((pre ++ [c0]) ++ ms)
    by (rewrite <- app_assoc; reflexivity).
  rewrite lookup_app, (lookup_alter_add c0 n0 pre r po pb pes L). reflexivity.
Qed.

(** *** The head and the tail of a path of ordinary names *)

Lemma components_single (p t : str) :
  components p = [t] -> p = t /\ no_sep t = true.
Proof.
  revert t. induction p as [|x p IH]; intros t.
  - intros H. injection H as <-. split; reflexivity.
  - unfold components in *. cbn [split_on].
    destruct (split_on PosixPath.sep p) as [|w ws] eqn:E;
      [exfalso; eapply split_on_not_nil; eassumption|].
    destruct (x =? PosixPath.sep)%N eqn:S; [discriminate|].
    intros H. injection H as <- ->. destruct (IH w eq_refl) as [-> Hn].
    split; [reflexivity|]. cbn [no_sep forallb]. unfold PosixPath.is_sep.
    rewrite S. exact Hn.
Qed.

Lemma normal_not_empty (cs : list str) :
  forallb normal_name cs = true -> Forall (fun c => c = []) cs -> cs = [].
Proof.
  destruct cs as [|c cs]; [reflexivity|].
  cbn [forallb]. intros H F. inversion F as [|x xs Hc _]; subst.
  apply andb_prop in H as [H _]. discriminate H.
Qed.

Lemma split_normal (name : str) (cs : list str) (t : str) :
  components name = cs ++ [t] ->
  forallb normal_name (cs ++ [t]) = true ->
  cs <> [] ->
  PosixPath.split name = (PosixPath.dirname name, t)
  /\ components (PosixPath.dirname name) = cs
  /\ PosixPath.dirname name <> [].
Proof.
  intros Ecs F Ncs. rewrite split_eq.
  assert (fst (PosixPath.cut name) <> []) as Hne.
  { intros Z. destruct (cut_spec name) as (E & Ht & _). rewrite Z in E. cbn [app] in E.
    rewrite E, (components_no_sep _ Ht) in Ecs.
    destruct cs as [|c [|c' cs]]; [congruence|discriminate|discriminate]. }
  destruct (components_dirname name Hne) as (Nh & [(mid & Ec & Fm)|(Fh & mid & Ec & Fm)]).
  - rewrite Ecs, app_assoc in Ec. apply app_inj_tail in Ec as [Ec Et].
    assert (mid = []) as ->.
    { apply normal_not_empty; [|exact Fm].
      rewrite forallb_app in F. apply andb_prop in F as [F _].
      rewrite Ec, forallb_app in F. apply andb_prop in F as [_ F]. exact F. }
    rewrite app_nil_r in Ec. subst t. repeat split; [symmetry; exact Ec|exact Nh].
  - exfalso. rewrite Ecs in Ec. apply app_inj_tail in Ec as [Ec _]. subst mid.
    apply Ncs. apply normal_not_empty; [|exact Fm].
    rewrite forallb_app in F. apply andb_prop in F as [F _]. exact F.
Qed.

Lemma components_nonempty_path (name : str) (cs : list str) :
  components name = cs -> forallb normal_name cs = true -> name <> [].
Proof.
  intros E F ->. cbn in E. subst cs. discriminate F.
Qed.

(** *** [mkdir] and [open] of a name that is absent *)

Lemma mkdir_new (r : node) (name : str) (cs : list str) (c : str)
      (po : principal) (pb : bool) (pes : entries_t) :
  components name = cs ++ [c] ->
  forallb normal_name (cs ++ [c]) = true ->
  lookup r cs = Some (Dir po pb pes) ->
  writable po = true ->
  lookup_entry c pes = None ->
  mkdir r name = inr (alter (add_entry c (Dir Self false [])) cs r).
Proof.
  intros Ecs F L Wp A.
  pose proof (components_nonempty_path name _ Ecs F) as Np.
  rewrite forallb_app in F. apply andb_prop in F as [Fcs Fc].
  cbn [forallb] in Fc. rewrite andb_true_r in Fc.
  destruct (normal_name_inv c Fc) as (Nc & D & DD).
  unfold mkdir. destruct name as [|x name]; [congruence|].
  rewrite Ecs, (drop_trailing_keeps cs c Nc), rev_app_distr. cbn [rev app].
  rewrite rev_involutive. unfold parent_dir.
  rewrite (walk_to_existing r cs [] _ Fcs L). cbn [app]. rewrite L, D, DD, A, Wp.
  reflexivity.
Qed.

Lemma open_trunc_new (r : node) (path : str) (cs : list str) (c : str)
      (po : principal) (pb : bool) (pes : entries_t) :
  components path = cs ++ [c] ->
  forallb normal_name (cs ++ [c]) = true ->
  lookup r cs = Some (Dir po pb pes) ->
  writable po = true ->
  lookup_entry c pes = None ->
  open_trunc r path = inr (alter (add_entry c (File Self [])) cs r, cs ++ [c]).
Proof.
  intros Ecs F L Wp A.
  pose proof (components_nonempty_path path _ Ecs F) as Np.
  rewrite forallb_app in F. apply andb_prop in F as [Fcs Fc].
  cbn [forallb] in Fc. rewrite andb_true_r in Fc.
  destruct (normal_name_inv c Fc) as (Nc & D & DD).
  unfold open_trunc. destruct path as [|x path]; [congruence|].
  rewrite Ecs, (drop_trailing_keeps cs c Nc), rev_app_distr. cbn [rev app].
  rewrite rev_involutive. unfold parent_dir.
  rewrite (walk_to_existing r cs [] _ Fcs L). cbn [app].
  rewrite L, D, DD, Nat.eqb_refl, A, Wp. reflexivity.
Qed.

(** A path that goes through a name that is absent does not exist. *)
Lemma exists_through_absent (r : node) (head : str) (pre : list str) (c0 : str)
      (ms : list str) (po : principal) (pb : bool) (pes : entries_t) :
  components head = pre ++ c0 :: ms ->
  forallb normal_name (pre ++ c0 :: ms) = true ->
  lookup r pre = Some (Dir po pb pes) ->
  lookup_entry c0 pes = None ->
  exists_ r head = false.
Proof.
  intros Ecs F L A.
  pose proof (components_nonempty_path head _ Ecs F) as Np.
  rewrite forallb_app in F. apply andb_prop in F as [Fpre F].
  cbn [forallb] in F. apply andb_prop in F as [Fc Fms].
  destruct (normal_name_inv c0 Fc) as (Nc & D & DD).
  assert (lookup r (pre ++ [c0]) = None) as La by (rewrite lookup_snoc, L; exact A).
  unfold exists_, stat, resolve. destruct head as [|x head]; [congruence|].
  rewrite Ecs, walk_app, (walk_to_existing r pre [] _ Fpre L). cbn [app].
  rewrite (walk_name r pre c0 ms Nc D DD), L.
  destruct ms as [|m ms].
  - cbn [walk]. rewrite La. reflexivity.
  - cbn [forallb] in Fms. apply andb_prop in Fms as [Fm _].
    destruct (normal_name_inv m Fm) as (Nm & Dm & DDm).
    rewrite (walk_name r (pre ++ [c0]) m ms Nm Dm DDm), La. reflexivity.
Qed.

(** *** [os.makedirs] on a path whose first missing directory is [c0] *)

Lemma makedirs_fresh (ms : list str) :
  forall (k : nat) (r : node) (name : str) (pre : list str) (c0 : str)
         (po : principal) (pb : bool) (pes : entries_t),
    components name = pre ++ c0 :: ms ->
    forallb normal_name (pre ++ c0 :: ms) = true ->
    lookup r pre = Some (Dir po pb pes) ->
    writable po = true ->
    lookup_entry c0 pes = None ->
    length name < k ->
    makedirs_rec k r name true
    = (None, alter (add_entry c0 (nest ms (Dir Self false []))) pre r).
Proof.
  induction ms as [|m ms IH] using rev_ind;
    intros k r name pre c0 po pb pes Ecs F L Wp A Len;
    (destruct k as [|k]; [lia|]); cbn [makedirs_rec].
  - (* the name is to be created in a directory that exists *)
    cbn [nest].
    assert (mkdir r name = inr (alter (add_entry c0 (Dir Self false [])) pre r)) as M
        by (apply (mkdir_new r name pre c0 po pb pes); assumption).
    destruct pre as [|d pre].
    + cbn [app] in Ecs. destruct (components_single name c0 Ecs) as [-> Hn].
      unfold PosixPath.split. rewrite (cut_no_sep c0 Hn). cbn [PosixPath.trim_head].
      assert (is_empty c0 = false) as ->.
      { cbn [app forallb] in F. apply andb_prop in F as [F _].
        destruct c0; [discriminate F|reflexivity]. }
      cbn [is_empty negb andb]. rewrite M. reflexivity.
    + destruct (split_normal name (d :: pre) c0 Ecs F) as (Es & Eh & Nh); [discriminate|].
      rewrite Es.
      assert (is_empty c0 = false) as ->.
      { rewrite forallb_app in F. apply andb_prop in F as [_ F].
        cbn [forallb] in F. apply andb_prop in F as [F _].
        destruct c0; [discriminate F|reflexivity]. }
      assert (exists_ r (PosixPath.dirname name) = true) as ->.
      { rewrite forallb_app in F. apply andb_prop in F as [Fpre _].
        unfold exists_, stat, resolve.
        destruct (PosixPath.dirname name) as [|y h] eqn:Ed; [congruence|].
        rewrite Eh, (walk_to_existing r (d :: pre) [] _ Fpre L). cbn [app]. rewrite L.
        reflexivity. }
      rewrite andb_false_r, M. reflexivity.
  - (* the directory above is created first *)
    replace (pre ++ c0 :: ms ++ [m]) with ((pre ++ c0 :: ms) ++ [m]) in *
      by (rewrite <- app_assoc; reflexivity).
    destruct (split_normal name (pre ++ c0 :: ms) m Ecs F) as (Es & Eh & Nh);
      [destruct pre; discriminate|].
    rewrite Es.
    assert (forallb normal_name (pre ++ c0 :: ms) = true /\ normal_name m = true)
      as [Fh Fm].
    { rewrite forallb_app in F. apply andb_prop in F as [F1 F2].
      cbn [forallb] in F2. rewrite andb_true_r in F2. split; assumption. }
    destruct (normal_name_inv m Fm) as (Nm & Dm & DDm).
    assert (is_empty m = false) as Em by (destruct m; [congruence|reflexivity]).
    rewrite Em.
    assert (is_empty (PosixPath.dirname name) = false) as ->
        by (destruct (PosixPath.dirname name); [congruence|reflexivity]).
    rewrite (exists_through_absent r (PosixPath.dirname name) pre c0 ms po pb pes
               Eh Fh L A).
    cbn [negb andb].
    assert (length (PosixPath.dirname name) < k) as Lk.
    { pose proof (length_split name) as Ls. rewrite Es in Ls. cbn [fst snd] in Ls.
      destruct m; [congruence|]. cbn [length] in Ls. lia. }
    rewrite (IH k r (PosixPath.dirname name) pre c0 po pb pes Eh Fh L Wp A Lk).
    rewrite Dm.
    set (r1 := alter (add_entry c0 (nest ms (Dir Self false []))) pre r).
    assert (lookup r1 (pre ++ c0 :: ms) = Some (Dir Self false [])) as L1.
    { unfold r1. rewrite (lookup_in_added c0 _ pre ms r po pb pes L).
      apply lookup_nest. }
    rewrite (mkdir_new r1 name (pre ++ c0 :: ms) m Self false [] Ecs F L1 eq_refl eq_refl).
    unfold r1, alter at 1. rewrite update_in_added, update_nest, nest_app.
    rewrite ?Em. reflexivity.
Qed.

(** X9.  [create_file] creates the directories that are missing: for a
    path of ordinary names whose directories exist down to [pre], a
    directory the process may write in, and whose next name [c0] is
    absent there, [create_file] returns, and the tree is the one where
    [pre] has the new entry [c0]: the directories of the path below it,
    one in the other, all new and owned by the process, and in the last
    one the file alone, with the stripped content. *)
Theorem X9_create_file_creates_ancestors
        (path content : str) (pre : list str) (c0 : str) (mids : list str) (f : str)
        (r : node) (lg : list event)
        (po : principal) (pb : bool) (pes : entries_t) :
  components path = pre ++ c0 :: mids ++ [f] ->
  forallb normal_name (pre ++ c0 :: mids ++ [f]) = true ->
  lookup r pre = Some (Dir po pb pes) ->
  writable po = true ->
  lookup_entry c0 pes = None ->
  create_file path content (World r lg)
  = (Ok tt,
     World (alter (add_entry c0
                     (nest mids (Dir Self false [(f, File Self (strip content))])))
                  pre r)
           (create_log path content lg)).
Proof.
  intros Ecs F L Wp A.
  replace (pre ++ c0 :: mids ++ [f]) with ((pre ++ c0 :: mids) ++ [f]) in *
    by (rewrite <- app_assoc; reflexivity).
  destruct (split_normal path (pre ++ c0 :: mids) f Ecs F) as (_ & Eh & Nh);
    [destruct pre; discriminate|].
  assert (forallb normal_name (pre ++ c0 :: mids) = true) as Fh.
  { rewrite forallb_app in F. apply andb_prop in F as [F1 _]. exact F1. }
  set (r1 := alter (add_entry c0 (nest mids (Dir Self false []))) pre r).
  assert (makedirs r (PosixPath.dirname path) true = (None, r1)) as Hm.
  { unfold makedirs.
    apply (makedirs_fresh mids _ r (PosixPath.dirname path) pre c0 po pb pes
             Eh Fh L Wp A).
    lia. }
  assert (lookup r1 (pre ++ c0 :: mids) = Some (Dir Self false [])) as L1.
  { unfold r1. rewrite (lookup_in_added c0 _ pre mids r po pb pes L).
    apply lookup_nest. }
  pose proof (open_trunc_new r1 path (pre ++ c0 :: mids) f Self false [] Ecs F L1
                eq_refl eq_refl) as Ho.
  rewrite (create_file_ok path content (World r lg) r1 _ _ Hm Ho).
  do 2 f_equal. unfold set_content.
  replace ((pre ++ c0 :: mids) ++ [f]) with ((pre ++ c0 :: mids) ++ f :: [])
    by reflexivity.
  rewrite update_in_added. cbn [update put_content].
  unfold r1, alter at 1. rewrite update_in_added, update_nest. reflexivity.
Qed.

Lemma X9_witness :
  create_file (lit "a/b/c.txt") (lit "  text  ") empty_world
  = (Ok tt,
     World (Dir Self false
              [ (lit "a",
                 Dir Self false
                   [ (lit "b", Dir Self false [ (lit "c.txt", File Self (lit "text")) ]) ]) ])
           (create_log (lit "a/b/c.txt") (lit "  text  ") [])).
Proof.
  exact (X9_create_file_creates_ancestors (lit "a/b/c.txt") (lit "  text  ")
           [] (lit "a") [lit "b"] (lit "c.txt") (Dir Self false []) []
           Self false [] eq_refl eq_refl eq_refl eq_refl eq_refl).
Defined.

(** ** The exceptions of the reset and the exit status of [main] *)

Lemma resolve_error_os (r : node) (p : str) (e : exn) :
  resolve r p = inl e -> is_OSError e = true.
Proof.
  unfold resolve. destruct p as [|x p]; [intros H; injection H as <-; reflexivity|].
  apply walk_error_os.
Qed.

Lemma clear_error_os : forall n : node,
  match n with
  | File _ _ => True
  | Dir o b es =>
      forall (es' : entries_t) (e : exn),
        clear (Dir o b es) = (es', Some e) -> is_OSError e = true
  end.
Proof.
  induction n as [o c|o b es IHes] using node_rect'; [exact I|].
  intros es' e. rewrite clear_Dir. generalize (writable o) as w. intros w.
  revert es'. induction es as [|[k m] es IH]; intros es'; cbn [clear_entries];
    [discriminate|].
  inversion IHes as [|x xs Hm Hrest]; subst. cbn [snd] in Hm.
  destruct m as [o' c'|o' b' es0].
  - destruct w; [apply IH; exact Hrest|].
    intros H. injection H as _ <-. reflexivity.
  - destruct (clear (Dir o' b' es0)) as [sub [e'|]] eqn:C.
    + intros H. injection H as _ <-. apply (Hm sub e' eq_refl).
    + destruct (negb w); [intros H; injection H as _ <-; reflexivity|].
      destruct b'; [intros H; injection H as _ <-; reflexivity|].
      apply IH. exact Hrest.
Qed.

Lemma rmdir_error_os (r : node) (p : str) (e : exn) :
  rmdir r p = inl e -> is_OSError e = true.
Proof.
  unfold rmdir. destruct p as [|x p]; [intros H; injection H as <-; reflexivity|].
  destruct (rev (drop_trailing_empty (components (x :: p)))) as [|c rparent];
    [intros H; injection H as <-; reflexivity|].
  destruct (parent_dir r (rev rparent)) as [e0|[[pl po] pes]] eqn:P.
  - intros H. injection H as <-. eapply parent_dir_error_os. exact P.
  - destruct (eqb c dot || eqb c dotdot); [intros H; injection H as <-; reflexivity|].
    destruct (lookup_entry c pes) as [[o y|o b es]|].
    + destruct (writable po); intros H; injection H as <-; reflexivity.
    + destruct (negb (writable po)); [intros H; injection H as <-; reflexivity|].
      destruct b; [intros H; injection H as <-; reflexivity|].
      destruct es; [discriminate|intros H; injection H as <-; reflexivity].
    + intros H; injection H as <-; reflexivity.
Qed.

Lemma rmtree_error_os (r : node) (p : str) (e : exn) (r1 : node) :
  rmtree r p = (Some e, r1) -> is_OSError e = true.
Proof.
  unfold rmtree. destruct (resolve r p) as [e0|l] eqn:R.
  { intros H. injection H as <- _. eapply resolve_error_os. exact R. }
  destruct (lookup r l) as [[o x|o b es]|];
    try (intros H; injection H as <- _; reflexivity).
  destruct (clear (Dir o b es)) as [es' [e'|]] eqn:C.
  - intros H. injection H as <- _. apply (clear_error_os (Dir o b es) es' e' C).
  - destruct (rmdir (alter (fun _ => es') l r) p) as [e'|r2] eqn:RD; [|discriminate].
    intros H. injection H as <- _. eapply rmdir_error_os. exact RD.
Qed.

Lemma stdout_blocked_log (path : str) (r r1 : node) (lg : list event) :
  stdout (World r1 (blocked_log path lg)) = stdout (World r lg) ++ diagnostic path.
Proof.
  unfold stdout, history, blocked_log. cbn [log].
  rewrite printed_prints_then. f_equal. cbn [rev]. rewrite !printed_app.
  cbn [printed]. rewrite !app_nil_r. reflexivity.
Qed.

(** The ways [clean_directory] raises. *)
Lemma clean_directory_raise_inv (path : str) (w w' : world) (e : exn) :
  clean_directory path w = (Raise e, w') ->
  (e = SystemExit 1 /\ stdout w' = stdout w ++ diagnostic path
   /\ blocked (root w) path (root w'))
  \/ (is_OSError e = true /\ e <> PermissionError /\ stdout w' = stdout w).
Proof.
  intros H. destruct (exists_ (root w) path) eqn:X.
  2:{ rewrite (clean_directory_absent path w X) in H. discriminate. }
  destruct (rmtree (root w) path) as [[e1|] r1] eqn:T.
  2:{ rewrite (clean_directory_removed path w r1 X T) in H. discriminate. }
  destruct (is_PermissionError e1) eqn:P.
  - destruct e1; try discriminate P.
    rewrite (clean_directory_blocked path w r1 (conj X T)) in H.
    injection H as <- <-. left. split; [reflexivity|]. split.
    + destruct w as [r lg]. apply stdout_blocked_log.
    + split; assumption.
  - rewrite (clean_directory_other path w e1 r1 X T P) in H.
    injection H as <- <-. right.
    split; [apply (rmtree_error_os _ _ _ _ T)|].
    split; [intros ->; discriminate P|].
    unfold stdout, history. cbn [log rev]. rewrite !printed_app. cbn [printed].
    rewrite !app_nil_r. reflexivity.
Qed.

(** X10.  [clean_directory] raises in two ways only.  Either
    [shutil.rmtree] stopped on a permission error: the exception is
    [SystemExit 1] and the four lines of the diagnostic have been
    printed.  Or [shutil.rmtree] raised another [OSError]: that exception
    reaches the caller and nothing has been printed.  So
    [clean_directory] never raises [PermissionError] itself. *)
Theorem X10_reset_failure_modes (path : str) (w w' : world) (e : exn) :
  clean_directory path w = (Raise e, w') ->
  ((e = SystemExit 1 /\ stdout w' = stdout w ++ diagnostic path
    /\ blocked (root w) path (root w'))
   \/ (is_OSError e = true /\ stdout w' = stdout w))
  /\ e <> PermissionError
  /\ exit_status (@Raise unit e) = 1%N.
Proof.
  intros H.
  destruct (clean_directory_raise_inv path w w' e H) as [(-> & S & B)|(Os & Np & S)].
  - split; [left; repeat split; try assumption; apply B|].
    split; [discriminate|reflexivity].
  - split; [right; split; assumption|]. split; [exact Np|].
    apply exit_status_os_error. exact Os.
Qed.

Lemma X10_witness :
  SystemExit 1 <> PermissionError
  /\ exit_status (@Raise unit (SystemExit 1)) = 1%N.
Proof.
  exact (proj2 (X10_reset_failure_modes Spring.base sudo_world
                  (World sudo_world_after (blocked_log Spring.base []))
                  (SystemExit 1) eq_refl)).
Defined.

(** *** [main] *)

Lemma write_all_raise_os (m : list (str * str)) : forall (w w' : world) (e : exn),
  write_all m w = (Raise e, w') -> is_OSError e = true.
Proof.
  induction m as [|[p c] m IH]; intros w w' e; cbn [write_all]; [discriminate|].
  unfold bind. destruct (create_file p c w) as [[[]|e0] w0] eqn:H.
  - apply IH.
  - intros E. injection E as <- _.
    apply (create_file_raise_inv p c w w0 e0 H).
Qed.

Lemma setup_raise_inv (v : variant) (w w' : world) (e : exn) :
  setup v w = (Raise e, w') -> e = SystemExit 1 \/ is_OSError e = true.
Proof.
  rewrite setup_by_manifest. unfold bind at 1.
  destruct (clean_directory (base v) w) as [[[]|e0] w0] eqn:Hc.
  - unfold bind, print. intros E. right. eapply write_all_raise_os. exact E.
  - intros E. injection E as <- _.
    destruct (clean_directory_raise_inv (base v) w w0 e0 Hc) as [(-> & _)|(Os & _)];
      [left; reflexivity|right; exact Os].
Qed.

(** X11.  The exit status of the program tells only whether [main]
    returned: it is 0 exactly when [main] returns and 1 whenever an
    exception ends it, whichever it is.  The one [SystemExit] that the
    program raises carries the code 1, and the interpreter gives the
    status 1 to any other exception that nothing caught. *)
Theorem X11_exit_status_of_main (w : world) :
  (exit_status (fst (main w)) = 0%N <-> exists w', main w = (Ok tt, w'))
  /\ (exit_status (fst (main w)) = 1%N <-> exists e w', main w = (Raise e, w'))
  /\ (forall (n : N) (w' : world), main w = (Raise (SystemExit n), w') -> n = 1%N).
Proof.
  assert (forall (e : exn) (w' : world),
             main w = (Raise e, w') -> e = SystemExit 1 \/ is_OSError e = true) as Inv.
  { intros e w'. unfold main. unfold bind at 1.
    destruct (setup_spring_project w) as [[[]|e1] w1] eqn:H1.
    - unfold bind at 1.
      destruct (setup_servlet_project w1) as [[[]|e2] w2] eqn:H2.
      + unfold bind, print. discriminate.
      + intros E. injection E as <- _.
        apply (setup_raise_inv VServlet w1 w2 e2 H2).
    - intros E. injection E as <- _.
      apply (setup_raise_inv VSpring w w1 e1 H1). }
  assert (forall (e : exn) (w' : world),
             main w = (Raise e, w') -> exit_status (@Raise unit e) = 1%N) as St.
  { intros e w' H. destruct (Inv e w' H) as [->|Os];
      [reflexivity|apply exit_status_os_error; exact Os]. }
  split; [|split].
  - destruct (main w) as [[[]|e] w'] eqn:H; cbn [fst].
    + split; [intros _; exists w'; reflexivity|reflexivity].
    + split.
      * intros E. rewrite (St e w' eq_refl) in E. discriminate E.
      * intros (w2 & E). discriminate E.
  - destruct (main w) as [[[]|e] w'] eqn:H; cbn [fst].
    + split; [discriminate|]. intros (e & w2 & E). discriminate E.
    + split; [intros _; exists e, w'; reflexivity|].
      intros _. apply (St e w' eq_refl).
  - intros n w' H. destruct (Inv (SystemExit n) w' H) as [E|Os].
    + injection E as ->. reflexivity.
    + discriminate Os.
Qed.

Lemma X11_witness :
  exit_status (fst (main sudo_world)) = 1%N
  /\ exit_status (fst (main mount_world)) = 1%N
  /\ exit_status (fst (main empty_world)) = 0%N.
Proof.
  split; [|split].
  - apply (proj2 (proj1 (proj2 (X11_exit_status_of_main sudo_world)))).
    eexists. eexists. vm_compute. reflexivity.
  - apply (proj2 (proj1 (proj2 (X11_exit_status_of_main mount_world)))).
    eexists. eexists. vm_compute. reflexivity.
  - apply (proj2 (proj1 (X11_exit_status_of_main empty_world))).
    eexists. vm_compute. reflexivity.
Defined.

(** ** The program touches its output roots only *)

Lemma same_outside_refl (c : str) (r : node) : same_outside c r r.
Proof. intros d t _. reflexivity. Qed.

Lemma same_outside_trans (c : str) (r1 r2 r3 : node) :
  same_outside c r1 r2 -> same_outside c r2 r3 -> same_outside c r1 r3.
Proof. intros A B d t N. rewrite (B d t N). apply A. exact N. Qed.

Lemma update_outside (g : node -> node) (c : str) (rest : loc) (r : node) :
  same_outside c r (update g (c :: rest) r).
Proof.
  intros d t N. apply lookup_update_apart.
  - intros [x H]. injection H as H _. congruence.
  - intros [x H]. injection H as H _. congruence.
Qed.

Lemma add_root_outside (c : str) (n : node) (r : node) :
  same_outside c r (alter (add_entry c n) [] r).
Proof.
  intros d t N. destruct r as [o x|o b es]; [reflexivity|].
  cbn [alter update on_entries lookup]. unfold add_entry. cbn [lookup_entry].
  destruct (eqb c d) eqn:E; [apply str_eqb_eq in E; congruence|reflexivity].
Qed.

Lemma alter_add_outside (c : str) (rest : list str) (cs : list str) (c' : str)
      (n : node) (r : node) :
  cs ++ [c'] = c :: rest -> same_outside c r (alter (add_entry c' n) cs r).
Proof.
  destruct cs as [|x cs]; cbn [app]; intros H; injection H as -> _.
  - apply add_root_outside.
  - apply update_outside.
Qed.

Lemma walk_normal_place (r : node) (cs : list str) : forall cur l : loc,
  forallb normal_name cs = true -> walk r cur cs = inr l -> l = cur ++ cs.
Proof.
  induction cs as [|c cs IH]; intros cur l F.
  - cbn. intros H. injection H as <-. symmetry. apply app_nil_r.
  - cbn [forallb] in F. apply andb_prop in F as [Fc F].
    destruct (normal_name_inv c Fc) as (N & D & DD).
    rewrite (walk_name r cur c cs N D DD).
    destruct (lookup r cur) as [[o x|o b es]|]; try discriminate.
    intros H. rewrite (IH _ _ F H), <- app_assoc. reflexivity.
Qed.

Lemma normal_split (cs : list str) (c' : str) :
  forallb normal_name (cs ++ [c']) = true ->
  forallb normal_name cs = true /\ normal_name c' = true.
Proof.
  rewrite forallb_app. intros F. apply andb_prop in F as [F1 F2].
  cbn [forallb] in F2. rewrite andb_true_r in F2. split; assumption.
Qed.

Lemma mkdir_outside (c : str) (rest : list str) (r : node) (name : str) (r2 : node) :
  components name = c :: rest ->
  forallb normal_name (c :: rest) = true ->
  mkdir r name = inr r2 -> same_outside c r r2.
Proof.
  intros Ecs F.
  destruct (exists_last (l := c :: rest)) as (cs & c' & E); [discriminate|].
  rewrite E in Ecs, F. destruct (normal_split cs c' F) as [Fcs Fc].
  destruct (normal_name_inv c' Fc) as (Nc & D & DD).
  unfold mkdir. destruct name as [|x name]; [discriminate|].
  rewrite Ecs, (drop_trailing_keeps cs c' Nc), rev_app_distr. cbn [rev app].
  rewrite rev_involutive. unfold parent_dir.
  destruct (walk r [] cs) as [e|pl] eqn:W; [discriminate|].
  apply (walk_normal_place r cs [] pl Fcs) in W. cbn [app] in W. subst pl.
  destruct (lookup r cs) as [[o y|po pb pes]|]; try discriminate.
  rewrite D, DD. cbn [orb].
  destruct (lookup_entry c' pes); [discriminate|].
  destruct (writable po); [|discriminate].
  intros H. injection H as <-.
  apply (alter_add_outside c rest cs c'). symmetry. exact E.
Qed.

Lemma makedirs_outside (c : str) (k : nat) :
  forall (r : node) (name : str) (ok : bool) (rest : list str)
         (e : option exn) (r' : node),
    components name = c :: rest ->
    forallb normal_name (c :: rest) = true ->
    makedirs_rec k r name ok = (e, r') -> same_outside c r r'.
Proof.
  induction k as [|k IH]; intros r name ok rest e r' Ecs F.
  - cbn. intros H. injection H as _ <-. apply same_outside_refl.
  - cbn [makedirs_rec].
    assert (forall (r1 : node) (e1 : option exn) (r1' : node),
               match mkdir r1 name with
               | inr r2 => (None, r2)
               | inl e0 =>
                   if negb ok || negb (isdir r1 name) then (Some e0, r1) else (None, r1)
               end = (e1, r1') -> same_outside c r1 r1') as Create.
    { intros r1 e1 r1'. destruct (mkdir r1 name) as [e0|r2] eqn:M.
      - destruct (negb ok || negb (isdir r1 name)); intros H; injection H as _ <-;
          apply same_outside_refl.
      - intros H. injection H as _ <-. apply (mkdir_outside c rest r1 name r2 Ecs F M). }
    destruct (exists_last (l := c :: rest)) as (cs & t & E); [discriminate|].
    destruct cs as [|x cs].
    + (* one name: no head *)
      cbn [app] in E. injection E as -> ->.
      destruct (components_single name t Ecs) as [En Hn].
      assert (PosixPath.cut name = ([], t)) as Ec
          by (rewrite En; apply (cut_no_sep t Hn)).
      rewrite split_eq. unfold PosixPath.dirname. rewrite Ec.
      cbn [PosixPath.trim_head fst snd].
      cbn [forallb] in F. apply andb_prop in F as [Ft _].
      assert (is_empty t = false) as ->
          by (destruct t; [discriminate Ft|reflexivity]).
      cbn [is_empty negb andb]. apply Create.
    + cbn [app] in E. injection E as <- Er.
      assert (components name = (c :: cs) ++ [t]) as Ecs' by (cbn [app]; congruence).
      assert (forallb normal_name ((c :: cs) ++ [t]) = true) as F'
          by (cbn [app]; rewrite <- Er; exact F).
      destruct (split_normal name (c :: cs) t Ecs' F' ltac:(discriminate))
        as (Es & Eh & Nh).
      destruct (normal_split (c :: cs) t F') as [Fh Ft].
      rewrite Es.
      assert (is_empty t = false) as ->
          by (destruct t; [discriminate Ft|reflexivity]).
      destruct (negb (is_empty (PosixPath.dirname name)) && negb (is_empty t)
                && negb (exists_ r (PosixPath.dirname name))); [|apply Create].
      destruct (makedirs_rec k r (PosixPath.dirname name) ok) as [e1 r1] eqn:Rec.
      pose proof (IH r (PosixPath.dirname name) ok cs e1 r1 Eh Fh Rec) as S1.
      destruct e1 as [e1|].
      * destruct (is_FileExistsError e1).
        -- destruct (eqb t dot).
           ++ intros H. injection H as _ <-. exact S1.
           ++ intros H. eapply same_outside_trans; [exact S1|]. eapply Create. exact H.
        -- intros H. injection H as _ <-. exact S1.
      * destruct (eqb t dot).
        -- intros H. injection H as _ <-. exact S1.
        -- intros H. eapply same_outside_trans; [exact S1|]. eapply Create. exact H.
Qed.

Lemma open_trunc_outside (c : str) (rest : list str) (r : node) (p : str)
      (r2 : node) (f : loc) :
  components p = c :: rest ->
  forallb normal_name (c :: rest) = true ->
  open_trunc r p = inr (r2, f) ->
  same_outside c r r2 /\ f = c :: rest.
Proof.
  intros Ecs F H.
  destruct (open_trunc_inv r p r2 f H)
    as (parent & c' & pl & po & pb & pes & _ & Ecs' & _ & _ & _ & W & _ & -> & Hcase).
  rewrite Ecs in Ecs'. rewrite Ecs' in F. destruct (normal_split parent c' F) as [Fp _].
  apply (walk_normal_place r parent [] pl Fp) in W. cbn [app] in W. subst pl.
  split; [|symmetry; exact Ecs'].
  destruct Hcase as [(o & old & _ & ->)|(_ & ->)].
  - rewrite <- Ecs'. apply update_outside.
  - apply (alter_add_outside c rest parent c'). symmetry. exact Ecs'.
Qed.

Lemma create_file_outside (c : str) (p content : str) (w : world) :
  path_under c p = true ->
  same_outside c (root w) (root (snd (create_file p content w))).
Proof.
  unfold path_under. destruct (components p) as [|c' rest] eqn:Ecs; [discriminate|].
  intros H. apply andb_prop in H as [Hc F]. apply str_eqb_eq in Hc. subst c'.
  unfold create_file, bind, os_makedirs, lift, open_w, f_write, print, emit.
  destruct (makedirs (root w) (PosixPath.dirname p) true) as [e r1] eqn:Hm.
  assert (same_outside c (root w) r1) as S1.
  { destruct rest as [|x rest'].
    - destruct (components_single p c Ecs) as [-> Hn].
      unfold PosixPath.dirname in Hm. rewrite (cut_no_sep c Hn) in Hm.
      cbn [fst PosixPath.trim_head] in Hm. rewrite makedirs_empty_name in Hm.
      injection Hm as _ <-. apply same_outside_refl.
    - destruct (exists_last (l := x :: rest')) as (cs & t & E); [discriminate|].
      assert (components p = (c :: cs) ++ [t]) as Ecs' by (cbn [app]; congruence).
      assert (forallb normal_name ((c :: cs) ++ [t]) = true) as F'
          by (cbn [app]; rewrite <- E; exact F).
      destruct (split_normal p (c :: cs) t Ecs' F' ltac:(discriminate))
        as (_ & Eh & _).
      destruct (normal_split (c :: cs) t F') as [Fh _].
      apply (makedirs_outside c _ (root w) (PosixPath.dirname p) true cs e r1 Eh Fh Hm). }
  destruct e as [e|]; [exact S1|]. cbn [root log].
  destruct (open_trunc r1 p) as [e|[r2 f]] eqn:Ho; [exact S1|]. cbn [snd root].
  destruct (open_trunc_outside c rest r1 p r2 f Ecs F Ho) as [S2 ->].
  eapply same_outside_trans; [exact S1|].
  eapply same_outside_trans; [exact S2|]. apply update_outside.
Qed.

Lemma write_all_outside (c : str) (m : list (str * str)) : forall w : world,
  forallb (fun a => path_under c (fst a)) m = true ->
  same_outside c (root w) (root (snd (write_all m w))).
Proof.
  induction m as [|[p x] m IH]; intros w F; cbn [write_all].
  - apply same_outside_refl.
  - cbn [forallb fst] in F. apply andb_prop in F as [Fp Fm].
    pose proof (create_file_outside c p x w Fp) as S1.
    unfold bind. destruct (create_file p x w) as [[[]|e] w1]; cbn [snd] in *.
    + eapply same_outside_trans; [exact S1|]. apply IH. exact Fm.
    + exact S1.
Qed.

Lemma clean_directory_outside (c : str) (w : world) :
  simple_name c = true ->
  same_outside c (root w) (root (snd (clean_directory c w))).
Proof.
  intros S d t N. rewrite clean_directory_root.
  destruct (exists_ (root w) c); [|reflexivity].
  pose proof (resolve_simple (root w) c S) as R.
  destruct (root w) as [o x|o b es] eqn:Er.
  - rewrite (rmtree_unresolved _ c _ R). reflexivity.
  - apply (rmtree_frame _ c [c] R).
    + intros [x H]. injection H as H _. congruence.
    + intros [x H]. injection H as H _. congruence.
Qed.

Lemma manifest_under (v : variant) :
  forallb (fun a => path_under (base v) (fst a)) (manifest v) = true.
Proof. destruct v; vm_compute; reflexivity. Qed.

Lemma setup_outside (v : variant) (w : world) :
  same_outside (base v) (root w) (root (snd (setup v w))).
Proof.
  rewrite setup_by_manifest.
  pose proof (clean_directory_outside (base v) w (simple_name_base v)) as S1.
  unfold bind at 1. destruct (clean_directory (base v) w) as [[[]|e] w0]; cbn [snd] in *;
    [|exact S1].
  eapply same_outside_trans; [exact S1|].
  unfold bind, print.
  apply (write_all_outside (base v) (manifest v) (emit (EvPrint (banner v)) w0)).
  apply manifest_under.
Qed.

(** X12.  Whatever the world and whatever the outcome (a run that
    returns, a blocked reset, any error), [setup] of a variant changes
    nothing in the working directory outside the output root of that
    variant, and [main] changes nothing outside the two output roots:
    every place whose first name is another name holds afterwards what it
    held before. *)
Theorem X12_only_output_roots_change (w : world) (d : str) (t : loc) :
  (forall v : variant,
      d <> base v ->
      lookup (root (snd (setup v w))) (d :: t) = lookup (root w) (d :: t))
  /\ (d <> base VSpring -> d <> base VServlet ->
      lookup (root (snd (main w))) (d :: t) = lookup (root w) (d :: t)).
Proof.
  split.
  - intros v N. apply (setup_outside v w). exact N.
  - intros NA NB. unfold main. unfold bind at 1.
    pose proof (setup_outside VSpring w d t NA) as S1.
    change (setup VSpring) with setup_spring_project in S1.
    destruct (setup_spring_project w) as [[[]|e1] w1]; cbn [snd] in *; [|exact S1].
    unfold bind at 1.
    pose proof (setup_outside VServlet w1 d t NB) as S2.
    change (setup VServlet) with setup_servlet_project in S2.
    destruct (setup_servlet_project w1) as [[[]|e2] w2]; cbn [snd] in *;
      [|rewrite S2; exact S1].
    unfold bind, print, emit. cbn [snd root]. rewrite S2. exact S1.
Qed.

Lemma X12_witness :
  lookup (root (snd (main sudo_world_with_notes))) [lit "notes.txt"]
  = Some (File Self (lit "mine")).
Proof.
  rewrite (proj2 (X12_only_output_roots_change sudo_world_with_notes
                    (lit "notes.txt") []));
    [reflexivity| |]; intros E; vm_compute in E; discriminate E.
Defined.

(** ** A blocked reset of the second variant *)

(** X13.  A run that the reset of the Servlet variant blocks leaves a
    partial result: when the output root of the Spring variant is absent
    or removable and, in the tree the Spring variant then leaves, the
    reset of the Servlet output root is blocked, [main] exits with status
    1 after having generated the Spring variant in full.  The Spring
    output root holds exactly the generated tree, the lines printed are
    those of the Spring variant followed by the diagnostic for the Servlet
    output root, and neither the banner of the Servlet variant nor the
    closing lines are printed. *)
Theorem X13_blocked_second_variant_keeps_first
        (b : bool) (es : entries_t) (lg : list event) (r1 : node) :
  ready (base VSpring) es = true ->
  blocked (Dir Self b ((base VSpring, generated VSpring)
                         :: remove_entry (base VSpring) es))
          (base VServlet) r1 ->
  exists w1,
    main (World (Dir Self b es) lg) = (Raise (SystemExit 1), w1)
    /\ exit_status (fst (main (World (Dir Self b es) lg))) = 1%N
    /\ root w1 = r1
    /\ lookup r1 [base VSpring] = Some (generated VSpring)
    /\ stdout w1
       = stdout (World (Dir Self b es) lg)
           ++ variant_lines VSpring ++ diagnostic (base VServlet).
Proof.
  intros R B.
  destruct (setup_ready_lines VSpring b es lg R) as (lg' & H1 & P1).
  set (mid := Dir Self b ((base VSpring, generated VSpring)
                            :: remove_entry (base VSpring) es)) in *.
  pose proof (setup_blocked VServlet (World mid lg') r1 B) as H2.
  cbn [log] in H2.
  assert (main (World (Dir Self b es) lg)
          = (Raise (SystemExit 1), World r1 (blocked_log (base VServlet) lg'))) as Hm.
  { unfold main. change setup_spring_project with (setup VSpring).
    rewrite (bind_ok _ _ _ _ _ H1).
    change setup_servlet_project with (setup VServlet).
    apply bind_raise. exact H2. }
  exists (World r1 (blocked_log (base VServlet) lg')).
  split; [exact Hm|]. split; [rewrite Hm; reflexivity|].
  split; [reflexivity|]. split.
  - destruct B as [_ Rm].
    pose proof (rmtree_frame mid (base VServlet) [base VServlet]
                  (resolve_simple mid (base VServlet) (simple_name_base VServlet))
                  [base VSpring]) as Fr.
    rewrite Rm in Fr. cbn [snd] in Fr. rewrite Fr.
    + unfold mid. cbn [lookup lookup_entry]. rewrite str_eqb_refl. reflexivity.
    + intros [x E]. vm_compute in E. discriminate E.
    + intros [x E]. vm_compute in E. discriminate E.
  - rewrite (stdout_blocked_log (base VServlet) mid r1 lg').
    unfold stdout, history. cbn [log]. rewrite P1, <- app_assoc. reflexivity.
Qed.

Lemma X13_witness :
  exists w1,
    main servlet_sudo_world = (Raise (SystemExit 1), w1)
    /\ lookup (root w1) [base VSpring] = Some (generated VSpring)
    /\ stdout w1 = variant_lines VSpring ++ diagnostic (base VServlet).
Proof.
  destruct (X13_blocked_second_variant_keeps_first
              false
              [ (Servlet.base,
                 Dir Self false
                   [ (lit "target",
                      Dir Other false [ (lit "classes", Dir Other false []) ]) ]) ]
              []
              (Dir Self false
                 [ (base VSpring, generated VSpring);
                   (Servlet.base,
                    Dir Self false
                      [ (lit "target",
                         Dir Other false [ (lit "classes", Dir Other false []) ]) ]) ])
              eq_refl)
    as (w1 & H1 & _ & H3 & H4 & H5).
  - split; vm_compute; reflexivity.
  - exists w1. split; [exact H1|]. split; [rewrite H3; exact H4|exact H5].
Defined.
